(** * Allocation and rebalancing engine of prismo

    A shallow embedding of [app/services/allocation_service.py] and the
    properties its specification states about it.

    Numbers.  The Python code computes with [float] (the allocator) and
    with [Decimal] (the cash deployment calculator).  Both are embedded
    as exact rationals [Q], and rounding is not modelled: the
    specification states its numeric properties "up to floating-point
    epsilon", an equality of computed amounts is [Qeq] ([==]) and reads
    up to rounding, and a comparison of two computed amounts is decided
    exactly, which can differ from the code where the two sides are
    equal in exact arithmetic (a position sitting exactly on its cap at
    line 122).  On every concrete input evaluated below the
    floating-point computation takes the same branches.

    Dictionaries.  A [dict] that is only looked up is a [gmap]; a [dict]
    that the code iterates over is an association list in insertion
    order.  A key that may be missing from a row is an [option] field and
    [d.get(k, default)] is [default]-elimination of that field. *)

From Stdlib Require Import QArith Qabs Qround Lqa Lia ZArith.
From stdpp Require Import base option list strings pretty gmap.

Local Open Scope Q_scope.

(** ** Rational helpers *)

(** [x < y] as a boolean, for Python's [x < y] / [y > x] on floats. *)
Definition Qltb (x y : Q) : bool := negb (Qle_bool y x).

(** Python's [sum(xs)]: a left fold starting at [0]. *)
Definition Qsum (xs : list Q) : Q := fold_left Qplus xs 0.

(** Python's [round(x)] with no digits argument: nearest integer, ties to
    the even neighbour. *)
Definition py_round (x : Q) : Z :=
  let f := Qfloor x in
  let d := x - inject_Z f in
  if Qltb d (1 # 2) then f
  else if Qltb (1 # 2) d then (f + 1)%Z
  else if Z.even f then f else (f + 1)%Z.

(** ** Positions

    A position is a [dict].  The four capping keys are written together
    (lines 58-62, 70-74 and 836-839 of the source) and are therefore one
    optional sub-record: [meta p = None] is a position on which none of
    them has been set. *)

Record capping := Capping {
  unconstrained_target_value : Q;
  constrained_target_value : Q;
  is_capped : bool;
  applicable_rule : option string
}.

Record position := Position {
  name : string;
  currentValue : Q;
  targetAllocation : Q;
  identifier : option string;
  isPlaceholder : bool;
  investment_type : option string;
  targetValue : option Q;
  positionSlot : option nat;
  meta : option capping
}.

Definition set_meta (pos : position) (c : capping) : position :=
  Position (name pos) (currentValue pos) (targetAllocation pos)
           (identifier pos) (isPlaceholder pos) (investment_type pos)
           (targetValue pos) (positionSlot pos) (Some c).

Definition set_targetValue (pos : position) (v : Q) : position :=
  Position (name pos) (currentValue pos) (targetAllocation pos)
           (identifier pos) (isPlaceholder pos) (investment_type pos)
           (Some v) (positionSlot pos) (meta pos).

(** [pos.get('targetValue', 0)] *)
Definition get_targetValue (pos : position) : Q :=
  default 0 (targetValue pos).

(** [pos.get('is_capped', False)] *)
Definition get_is_capped (pos : position) : bool :=
  match meta pos with Some c => is_capped c | None => false end.

(** [pos['constrained_target_value']].  On a position without the key
    Python raises [KeyError]; the allocator only reads the key after its
    first pass has written it on every position (lemma
    [Forall_has_meta_init] and its companions below), so the value given
    here for [None] is never observed in a run started at iteration 0. *)
Definition get_ctv (pos : position) : Q :=
  match meta pos with Some c => constrained_target_value c | None => 0 end.

(** [pos['unconstrained_target_value']], same remark. *)
Definition get_utv (pos : position) : Q :=
  match meta pos with Some c => unconstrained_target_value c | None => 0 end.

(** [pos.get('applicable_rule', None)] *)
Definition get_rule (pos : position) : option string :=
  match meta pos with Some c => applicable_rule c | None => None end.

(** [pos['is_capped'] = True; pos['constrained_target_value'] = v;
    pos['applicable_rule'] = r] *)
Definition mark_capped (pos : position) (v : Q) (r : string) : position :=
  set_meta pos (Capping (get_utv pos) v true (Some r)).

(** [pos['constrained_target_value'] = v] *)
Definition set_ctv (pos : position) (v : Q) : position :=
  set_meta pos (Capping (get_utv pos) v (get_is_capped pos) (get_rule pos)).

(** ** The type-constrained allocator
    ([_apply_type_constraints_recursive], lines 18-180) *)

(** The last message the function logs before it returns tells which of
    its five [return] statements was taken. *)
Inductive log_event :=
| LogMaxIterations           (* line 51, logger.error *)
| LogZeroPortfolioValue      (* line 56, logger.warning *)
| LogAllCapped               (* line 82, logger.debug *)
| LogNoAvailableValue        (* line 90, logger.warning *)
| LogConverged (passes : nat) (* line 176, logger.debug, iteration + 1 *).

Section Allocator.

Variable portfolio_target_value : Q.
Variables max_stock_pct max_etf_pct max_crypto_pct : Q.

(** Lines 101-111: the cap percentage and rule name of an investment
    type; [None] is the final [else] branch. *)
Definition cap_for (investment_type : option string) : option (Q * string) :=
  match investment_type with
  | Some t =>
      if String.eqb t "Stock" then Some (max_stock_pct, "maxPerStock"%string)
      else if String.eqb t "ETF" then Some (max_etf_pct, "maxPerETF"%string)
      else if String.eqb t "Crypto" then Some (max_crypto_pct, "maxPerCrypto"%string)
      else None
  | None => None
  end.

(** Lines 58-62, the body of the loop of the zero-value exit. *)
Definition zero_value (pos : position) : position :=
  set_meta pos (Capping (get_targetValue pos) 0 true
                        (Some "zero_portfolio_value"%string)).

(** Lines 70-74, the body of the initialisation loop. *)
Definition init_meta (pos : position) : position :=
  set_meta pos (Capping (get_targetValue pos) (get_targetValue pos) false None).

(** Lines 97-135, the body of the loop over the uncapped positions:
    the position after the body, and whether the body set
    [any_capped_this_iteration].  The strict test of line 122 is decided
    in exact arithmetic; in floating point [target_pct] of a value that
    is exactly the cap amount can round above [cap_pct]. *)
Definition cap_position (pos : position) : position * bool :=
  let target_pct := (get_ctv pos / portfolio_target_value) * 100 in
  match cap_for (investment_type pos) with
  | None => (mark_capped pos 0 "unknown_type", true)
  | Some (cap_pct, cap_rule) =>
      if Qltb cap_pct target_pct
      then (mark_capped pos ((cap_pct / 100) * portfolio_target_value) cap_rule, true)
      else (pos, false)
  end.

(** Lines 94-135.  [uncapped_positions] holds the very dicts of
    [positions], so mutating them in the loop is mutating [positions]
    in place: the positions that were capped before the pass are left
    alone, the others go through the loop body. *)
Fixpoint cap_uncapped (positions : list position) : list position * bool :=
  match positions with
  | [] => ([], false)
  | pos :: rest =>
      if get_is_capped pos
      then (pos :: fst (cap_uncapped rest), snd (cap_uncapped rest))
      else (fst (cap_position pos) :: fst (cap_uncapped rest),
            snd (cap_position pos) || snd (cap_uncapped rest))
  end.

Definition capped_of (positions : list position) : list position :=
  List.filter get_is_capped positions.

Definition uncapped_of (positions : list position) : list position :=
  List.filter (fun pos => negb (get_is_capped pos)) positions.

(** [portfolio_target_value - sum(pos['constrained_target_value'] for
    pos in capped)] (lines 86-87 and 144-145). *)
Definition available_value (positions : list position) : Q :=
  portfolio_target_value - Qsum (map get_ctv (capped_of positions)).

(** [sum(pos['unconstrained_target_value'] for pos in
    new_uncapped_positions)] (lines 149-150). *)
Definition total_uncapped_weight (positions : list position) : Q :=
  Qsum (map get_utv (uncapped_of positions)).

(** Writes [share pos] to every uncapped position (the loops of lines
    154-156 and 160-161 run over [new_uncapped_positions], whose
    elements are the dicts of [positions]). *)
Definition assign_uncapped (share : position -> Q)
           (positions : list position) : list position :=
  map (fun pos => if get_is_capped pos then pos else set_ctv pos (share pos))
      positions.

(** Lines 140-161: the redistribution step of a pass that capped
    something. *)
Definition redistribute (positions : list position) : list position :=
  match uncapped_of positions with
  | [] => positions
  | _ :: _ =>
      let new_available_value := available_value positions in
      if Qltb 0 new_available_value then
        let total := total_uncapped_weight positions in
        if Qltb 0 total then
          assign_uncapped
            (fun pos => (get_utv pos / total) * new_available_value)
            positions
        else
          let equal_share :=
            new_available_value
            / inject_Z (Z.of_nat (length (uncapped_of positions))) in
          assign_uncapped (fun _ => equal_share) positions
      else positions
  end.

(** The recursion, on [fuel = max_iterations - iteration]: line 50
    returns when no fuel is left, line 164 recurses with one unit
    less. *)
Fixpoint constraints_loop (fuel iteration : nat) (positions : list position)
  : list position * log_event :=
  match fuel with
  | O => (positions, LogMaxIterations)
  | S fuel' =>
      if Qle_bool portfolio_target_value 0
      then (map zero_value positions, LogZeroPortfolioValue)
      else
        let positions :=
          if Nat.eqb iteration 0 then map init_meta positions else positions in
        match uncapped_of positions with
        | [] => (positions, LogAllCapped)
        | _ :: _ =>
            if Qle_bool (available_value positions) 0
            then (positions, LogNoAvailableValue)
            else
              let pass := cap_uncapped positions in
              if snd pass
              then constraints_loop fuel' (S iteration) (redistribute (fst pass))
              else (fst pass, LogConverged (S iteration))
        end
  end.

End Allocator.

(** [_apply_type_constraints_recursive], with the parameters in the
    order of the source.  It returns the positions and the last message
    logged.  [portfolio_name] only feeds the log messages. *)
Definition _apply_type_constraints_recursive
    (positions : list position) (portfolio_target_value : Q)
    (max_stock_pct max_etf_pct : Q) (portfolio_name : string)
    (iteration max_iterations : nat) (max_crypto_pct : Q)
  : list position * log_event :=
  constraints_loop portfolio_target_value max_stock_pct max_etf_pct
                   max_crypto_pct (max_iterations - iteration) iteration positions.

(** ** The portfolio tree

    [calculate_allocation_targets] and
    [calculate_allocation_targets_with_type_constraints] are static
    methods of the class [AllocationService]; they do not use the
    instance and are embedded here as plain functions. *)

(** A sector of a result portfolio (lines 663-668 and 698-711). *)
Record sector := Sector {
  sector_name : string;
  sector_positions : list position;
  sector_currentValue : Q;
  sector_positionCount : nat;
  sector_isPlaceholder : bool;
  sector_targetValue : option Q;
  sector_targetWeight : option Q
}.

(** One position entry of the builder configuration. *)
Record builder_position := BuilderPosition {
  bp_isPlaceholder : bool;
  bp_companyName : option string;
  bp_weight : option Q
}.

(** [portfolio_builder_data[name]] (lines 500-506); every key is read
    with [.get], so every key may be missing. *)
Record builder_data := BuilderData {
  bd_minPositions : option Z;
  bd_desiredPositions : option Z;
  bd_allocation : option Q;
  bd_positions : option (list builder_position)
}.

(** [builder_data = portfolio_builder_data.get(portfolio_name, {})] *)
Definition empty_builder_data : builder_data :=
  BuilderData None None None None.

(** An entry of [target_allocations]. *)
Record target_portfolio := TargetPortfolio {
  tp_name : option string;
  tp_allocation : option Q
}.

(** [portfolio_map[pid]['sectors'][sector_name]] and
    [portfolio_map[pid]] (built at lines 555-562). *)
Record sector_data := SectorData {
  sd_positions : list position;
  sd_currentValue : Q
}.

Record pdata := PData {
  pd_name : string;
  pd_sectors : list (string * sector_data);
  pd_currentValue : Q
}.

(** A result portfolio (lines 648-659, 716 and 731). *)
Record portfolio_entry := PortfolioEntry {
  pe_name : string;
  pe_currentValue : Q;
  pe_targetWeight : Q;
  pe_color : string;
  pe_sectors : list sector;
  pe_minPositions : Z;
  pe_desiredPositions : option Z;
  pe_effectivePositions : Z;
  pe_builderPositions : list builder_position;
  pe_builderAllocation : Q;
  pe_targetValue : option Q;
  pe_targetAllocation_portfolio : option Q
}.

Definition set_sectors (p : portfolio_entry) (ss : list sector) : portfolio_entry :=
  PortfolioEntry (pe_name p) (pe_currentValue p) (pe_targetWeight p) (pe_color p)
    ss (pe_minPositions p) (pe_desiredPositions p) (pe_effectivePositions p)
    (pe_builderPositions p) (pe_builderAllocation p) (pe_targetValue p)
    (pe_targetAllocation_portfolio p).

(** ** The unconstrained target allocator
    ([calculate_allocation_targets], lines 605-735) *)

(** Lines 635-638. *)
Definition portfolio_target_weight_of
    (target_allocations : list target_portfolio) (portfolio_name : string) : Q :=
  match List.find (fun p => bool_decide (tp_name p = Some portfolio_name))
                  target_allocations with
  | Some target_portfolio => default 0 (tp_allocation target_portfolio)
  | None => 0
  end.

(** Lines 644-646. *)
Definition effective_positions_of (bd : builder_data) : Z :=
  match bd_desiredPositions bd with
  | Some desired_positions => desired_positions
  | None => default 0%Z (bd_minPositions bd)
  end.

(** Lines 675-676. *)
Definition current_positions_count (pd : pdata) : Z :=
  Z.of_nat (list_sum (map (fun sd => length (sd_positions (snd sd))) (pd_sectors pd))).

(** Lines 677-678. *)
Definition placeholder_position_of (builder_positions : list builder_position)
  : option builder_position :=
  List.find bp_isPlaceholder builder_positions.

(** Lines 681-683. *)
Definition total_real_weight (builder_positions : list builder_position) : Q :=
  Qsum (map (fun pos => default 0 (bp_weight pos))
            (List.filter (fun pos => negb (bp_isPlaceholder pos)) builder_positions)).

(** Line 684. *)
Definition real_positions_have_100_percent
    (builder_positions : list builder_position) : bool :=
  (100 <=? py_round (total_real_weight builder_positions))%Z.

(** Lines 700-707: slot [i] of the "Missing Positions" sector. *)
Definition missing_position (placeholder_position : builder_position) (i : nat)
  : position :=
  Position ("Position Slot " +:+ pretty (i + 1)%nat +:+ " (Unfilled)")
           0 (default 0 (bp_weight placeholder_position))
           None true None None (Some (i + 1)%nat) None.

(** Lines 693-712: the sector appended to [portfolio_entry['sectors']],
    if any. *)
Definition missing_positions_sector (pd : pdata) (bd : builder_data)
  : option sector :=
  let builder_positions := default [] (bd_positions bd) in
  let effective_positions := effective_positions_of bd in
  match placeholder_position_of builder_positions with
  | Some placeholder_position =>
      if (current_positions_count pd <? effective_positions)%Z
         && negb (real_positions_have_100_percent builder_positions)
      then
        let positions_remaining :=
          Z.to_nat (effective_positions - current_positions_count pd) in
        Some (Sector "Missing Positions"
                (map (missing_position placeholder_position)
                     (seq 0 positions_remaining))
                0 positions_remaining true None None)
      else None
  | None => None
  end.

(** Lines 719-729 for one sector. *)
Definition set_sector_targets (portfolio_target_value : Q) (s : sector) : sector :=
  let positions :=
    map (fun pos =>
           set_targetValue pos ((targetAllocation pos / 100) * portfolio_target_value))
        (sector_positions s) in
  let sector_target_value := Qsum (map get_targetValue positions) in
  Sector (sector_name s) positions (sector_currentValue s)
         (sector_positionCount s) (sector_isPlaceholder s)
         (Some sector_target_value)
         (Some (if Qltb 0 portfolio_target_value
                then sector_target_value / portfolio_target_value * 100
                else 0)).

(** Lines 663-668: the entry of a sector of [pdata['sectors']]. *)
Definition sector_entry_of (sd : string * sector_data) : sector :=
  Sector (fst sd) (sd_positions (snd sd)) (sd_currentValue (snd sd))
         (length (sd_positions (snd sd))) false None None.

(** The body of the loop over [portfolio_map.items()]: the sectors of
    the portfolio, then the "Missing Positions" sector if one is
    synthesized (line 712), then the target values (lines 715-729). *)
Definition allocation_targets_of_portfolio
    (portfolio_builder_data : gmap string builder_data)
    (target_allocations : list target_portfolio)
    (total_current_value : Q) (pd : pdata) : portfolio_entry :=
  let portfolio_name := pd_name pd in
  let portfolio_target_weight :=
    portfolio_target_weight_of target_allocations portfolio_name in
  let bd := default empty_builder_data (portfolio_builder_data !! portfolio_name) in
  let sectors :=
    map sector_entry_of (pd_sectors pd)
    ++ option_list (missing_positions_sector pd bd) in
  let portfolio_target_value := (portfolio_target_weight / 100) * total_current_value in
  PortfolioEntry portfolio_name (pd_currentValue pd) portfolio_target_weight ""
    (map (set_sector_targets portfolio_target_value) sectors)
    (default 0%Z (bd_minPositions bd)) (bd_desiredPositions bd)
    (effective_positions_of bd)
    (default [] (bd_positions bd)) (default 0 (bd_allocation bd))
    (Some portfolio_target_value) (Some portfolio_target_value).

Definition calculate_allocation_targets
    (portfolio_map : list (string * pdata))
    (portfolio_builder_data : gmap string builder_data)
    (target_allocations : list target_portfolio)
    (total_current_value : Q) : list portfolio_entry :=
  map (fun kv => allocation_targets_of_portfolio portfolio_builder_data
                   target_allocations total_current_value (snd kv))
      portfolio_map.

(** ** Applying the type constraints to the tree
    ([calculate_allocation_targets_with_type_constraints], lines 738-852) *)

(** The [rules] dict (Input C); a missing key is [None]. *)
Record rules := Rules {
  maxPerStock : option Q;
  maxPerETF : option Q;
  maxPerCrypto : option Q
}.

(** Lines 768-770. *)
Definition max_stock_pct_of (r : option rules) : Q :=
  match r with Some r => default 2 (maxPerStock r) | None => 2 end.
Definition max_etf_pct_of (r : option rules) : Q :=
  match r with Some r => default 5 (maxPerETF r) | None => 5 end.
Definition max_crypto_pct_of (r : option rules) : Q :=
  match r with Some r => default 5 (maxPerCrypto r) | None => 5 end.

(** Truth value of [pos.get('identifier')]: a non-empty string. *)
Definition has_identifier (pos : position) : bool :=
  match identifier pos with
  | Some s => negb (String.eqb s "")
  | None => false
  end.

(** Lines 788-794. *)
Definition all_positions_of (sectors : list sector) : list position :=
  flat_map (fun s => if sector_isPlaceholder s then []
                     else List.filter (fun pos => negb (isPlaceholder pos))
                                      (sector_positions s))
           sectors.

(** Lines 797-800. *)
Definition is_valid (pos : position) : bool :=
  has_identifier pos && bool_decide (investment_type pos <> None).

Definition valid_positions_of (sectors : list sector) : list position :=
  List.filter is_valid (all_positions_of sectors).

(** Lines 803-806. *)
Definition skipped_positions_of (sectors : list sector) : list position :=
  List.filter (fun pos => has_identifier pos
                          && bool_decide (investment_type pos = None))
              (all_positions_of sectors).

(** Line 827: [{pos['name']: pos for pos in all_positions_data}]; a later
    position replaces an earlier one of the same name. *)
Definition position_lookup_of (all_positions_data : list position)
  : gmap string position :=
  foldl (fun m pos => <[name pos := pos]> m) ∅ all_positions_data.

(** Lines 833-840 for one position of a sector that is not a
    placeholder sector. *)
Definition update_position (position_lookup : gmap string position)
    (pos : position) : position :=
  match position_lookup !! name pos with
  | Some augmented =>
      Position (name pos) (currentValue pos) (targetAllocation pos)
               (identifier pos) (isPlaceholder pos) (investment_type pos)
               (Some (get_ctv augmented)) (positionSlot pos)
               (Some (Capping (get_utv augmented) (get_ctv augmented)
                              (get_is_capped augmented) (get_rule augmented)))
  | None => pos
  end.

(** Lines 829-840 for one sector. *)
Definition update_sector (position_lookup : gmap string position) (s : sector)
  : sector :=
  if sector_isPlaceholder s then s
  else Sector (sector_name s)
              (map (update_position position_lookup) (sector_positions s))
              (sector_currentValue s) (sector_positionCount s)
              (sector_isPlaceholder s) (sector_targetValue s)
              (sector_targetWeight s).

(** Lines 843-849 for one sector. *)
Definition recalculate_sector (portfolio_target_value : Q) (s : sector) : sector :=
  if sector_isPlaceholder s then s
  else
    let sector_target_value := Qsum (map get_targetValue (sector_positions s)) in
    Sector (sector_name s) (sector_positions s) (sector_currentValue s)
           (sector_positionCount s) (sector_isPlaceholder s)
           (Some sector_target_value)
           (Some (if Qltb 0 portfolio_target_value
                  then sector_target_value / portfolio_target_value * 100
                  else 0)).

(** The body of the loop of lines 781-849.  The allocator mutates the
    dicts of [valid_positions], which are dicts of the tree, and the loop
    of lines 829-840 then overwrites the capping keys and [targetValue]
    of every position whose name is in [position_lookup], the valid ones
    included; so the tree after the loop is the tree before the
    allocator ran, updated through [position_lookup]. *)
Definition constrain_portfolio (r : option rules) (portfolio : portfolio_entry)
  : portfolio_entry :=
  let portfolio_target_value := default 0 (pe_targetValue portfolio) in
  if Qeq_bool portfolio_target_value 0 then portfolio
  else
    let valid_positions := valid_positions_of (pe_sectors portfolio) in
    match valid_positions with
    | [] => portfolio
    | _ :: _ =>
        let all_positions_data :=
          fst (_apply_type_constraints_recursive valid_positions
                 portfolio_target_value (max_stock_pct_of r) (max_etf_pct_of r)
                 (pe_name portfolio) 0 100 (max_crypto_pct_of r)) in
        let position_lookup := position_lookup_of all_positions_data in
        set_sectors portfolio
          (map (recalculate_sector portfolio_target_value)
               (map (update_sector position_lookup) (pe_sectors portfolio)))
    end.

Definition calculate_allocation_targets_with_type_constraints
    (portfolio_map : list (string * pdata))
    (portfolio_builder_data : gmap string builder_data)
    (target_allocations : list target_portfolio)
    (total_current_value : Q) (r : option rules) : list portfolio_entry :=
  map (constrain_portfolio r)
      (calculate_allocation_targets portfolio_map portfolio_builder_data
                                    target_allocations total_current_value).

(** ** The cash deployment calculator and the allocation validator
    (class [AllocationService], lines 204-435) *)

Module AllocationService.

(** [AllocationRule] (lines 183-189). *)
Record AllocationRule := {
  max_stock_percentage : Q;
  max_etf_percentage : Q;
  max_sector_percentage : Q;
  max_country_percentage : Q
}.

(** [AllocationRule()], the defaults of the dataclass. *)
Definition default_rule : AllocationRule :=
  {| max_stock_percentage := 5;
     max_etf_percentage := 10;
     max_sector_percentage := 25;
     max_country_percentage := 10 |}.

(** [self]: the service object and its only attribute (line 213). *)
Record t := { rules : AllocationRule }.

(** [AllocationService(rules)]: [rules or AllocationRule()]. *)
Definition init (r : option AllocationRule) : t :=
  {| rules := default default_rule r |}.

(** A holding row of [portfolio_data]. *)
Record company := {
  id : string;
  name : string;
  identifier : string;
  price_eur : option Q;
  current_value : option Q
}.

(** [RebalancingRecommendation] (lines 192-201). *)
Record RebalancingRecommendation := {
  company_name : string;
  rec_identifier : string;
  rec_current_value : Q;
  target_value : Q;
  amount_to_buy : Q;
  shares_to_buy : Q;
  current_price : Q
}.

Inductive exception :=
| ValueError (message : string).

(** [next((c for c in portfolio_data if c['id'] == company_id), None)] *)
Definition find_company (portfolio_data : list company) (company_id : string)
  : option company :=
  List.find (fun c => String.eqb (id c) company_id) portfolio_data.

(** Truth value of [company.get('price_eur')]: present and not zero. *)
Definition has_price (c : company) : bool :=
  match price_eur c with
  | Some p => negb (Qeq_bool p 0)
  | None => false
  end.

(** [Decimal(str(company['price_eur']))], read after [has_price]. *)
Definition price_of (c : company) : Q := default 0 (price_eur c).

(** [Decimal(str(company.get('current_value', 0)))] *)
Definition current_value_of (c : company) : Q := default 0 (current_value c).

(** Python's [max(a, b)]: [b] when it is greater, otherwise [a]. *)
Definition py_max (a b : Q) : Q := if Qltb a b then b else a.

(** Lines 254-290.  [Decimal(target_pct / 100)], the decimal expansion
    of a binary float, and the quotient of line 276, rounded to 28
    significant digits, are the exact rationals here. *)
Definition _calculate_proportional (self : t) (portfolio_data : list company)
    (target_allocations : list (string * Q)) (investment_amount : Q)
  : list RebalancingRecommendation :=
  flat_map
    (fun entry =>
       let '(company_id, target_pct) := entry in
       match find_company portfolio_data company_id with
       | None => []
       | Some company =>
           if negb (has_price company) then []
           else
             let allocation_amount := investment_amount * (target_pct / 100) in
             let current_price := price_of company in
             let shares_to_buy := allocation_amount / current_price in
             [ {| company_name := name company;
                  rec_identifier := identifier company;
                  rec_current_value := current_value_of company;
                  target_value := allocation_amount;
                  amount_to_buy := allocation_amount;
                  shares_to_buy := shares_to_buy;
                  current_price := current_price |} ]
       end)
    target_allocations.

(** Lines 292-347.  Same remark for lines 326 and 333. *)
Definition _calculate_target_weights (self : t) (portfolio_data : list company)
    (target_allocations : list (string * Q)) (investment_amount : Q)
  : list RebalancingRecommendation :=
  let current_total_value := Qsum (map current_value_of portfolio_data) in
  let new_total_value := current_total_value + investment_amount in
  flat_map
    (fun entry =>
       let '(company_id, target_pct) := entry in
       match find_company portfolio_data company_id with
       | None => []
       | Some company =>
           if negb (has_price company) then []
           else
             let current_value := current_value_of company in
             let target_value := new_total_value * (target_pct / 100) in
             let amount_to_buy := py_max 0 (target_value - current_value) in
             if Qltb 0 amount_to_buy then
               let current_price := price_of company in
               let shares_to_buy := amount_to_buy / current_price in
               [ {| company_name := name company;
                    rec_identifier := identifier company;
                    rec_current_value := current_value;
                    target_value := target_value;
                    amount_to_buy := amount_to_buy;
                    shares_to_buy := shares_to_buy;
                    current_price := current_price |} ]
             else []
       end)
    target_allocations.

(** Lines 349-385.  Same remark for the quotients of lines 367 and
    371. *)
Definition _calculate_equal_weight (self : t) (portfolio_data : list company)
    (investment_amount : Q) : list RebalancingRecommendation :=
  let valid_holdings :=
    List.filter (fun c => has_price c && Qltb 0 (price_of c)) portfolio_data in
  match valid_holdings with
  | [] => []
  | _ :: _ =>
      let amount_per_holding :=
        investment_amount / inject_Z (Z.of_nat (length valid_holdings)) in
      map (fun company =>
             let current_price := price_of company in
             {| company_name := name company;
                rec_identifier := identifier company;
                rec_current_value := current_value_of company;
                target_value := current_value_of company + amount_per_holding;
                amount_to_buy := amount_per_holding;
                shares_to_buy := amount_per_holding / current_price;
                current_price := current_price |})
          valid_holdings
  end.

(** Lines 215-252.  The result is the returned list, or the exception
    raised at line 252. *)
Definition calculate_rebalancing (self : t) (portfolio_data : list company)
    (target_allocations : list (string * Q)) (investment_amount : Q)
    (mode : string) : exception + list RebalancingRecommendation :=
  if String.eqb mode "proportional" then
    inr (_calculate_proportional self portfolio_data target_allocations
                                 investment_amount)
  else if String.eqb mode "target_weights" then
    inr (_calculate_target_weights self portfolio_data target_allocations
                                   investment_amount)
  else if String.eqb mode "equal_weight" then
    inr (_calculate_equal_weight self portfolio_data investment_amount)
  else inl (ValueError ("Unknown allocation mode: " +:+ mode)).

(** The two error messages of [validate_allocations]; the formatted
    text is kept as the message kind and the numbers it prints. *)
Inductive validation_message :=
| MustSumTo100 (total : Q)            (* line 404 *)
| ExceedsMax (pct max : Q)            (* line 410 *).

(** Lines 406-410: the first allocation above the stock maximum. *)
Definition first_above_max (self : t) (allocations : list (string * Q))
  : option Q :=
  List.find (fun pct => Qltb (max_stock_percentage (rules self)) pct)
            (map snd allocations).

(** Lines 387-412.  [allocations] is the dict as its items in
    insertion order. *)
Definition validate_allocations (self : t) (allocations : list (string * Q))
  : bool * option validation_message :=
  let total := Qsum (map snd allocations) in
  if Qltb (1 # 100) (Qabs (total - 100)) then (false, Some (MustSumTo100 total))
  else
    match first_above_max self allocations with
    | Some pct =>
        (false, Some (ExceedsMax pct (max_stock_percentage (rules self))))
    | None => (true, None)
    end.

(** Lines 414-435.  The dict comprehension keeps the keys and their
    order. *)
Definition normalize_allocations (self : t) (allocations : list (string * Q))
  : list (string * Q) :=
  let total := Qsum (map snd allocations) in
  if Qeq_bool total 0 then allocations
  else map (fun entry => (fst entry, (snd entry / total) * 100)) allocations.

End AllocationService.


(** ** Vocabulary of the statements *)

(** What the capping loop of one pass does to one position of
    [positions]: nothing if it was capped before the pass, the loop body
    otherwise. *)
Definition cap_step (portfolio_target_value max_stock_pct max_etf_pct
                     max_crypto_pct : Q) (pos : position) : position :=
  if get_is_capped pos then pos
  else fst (cap_position portfolio_target_value max_stock_pct max_etf_pct
                         max_crypto_pct pos).

(** A position holds all four capping keys. *)
Definition has_meta (pos : position) : Prop := meta pos <> None.

(** A capped position sits exactly on the amount it was capped at: the
    cap of its investment type, or [0] for an unknown type. *)
Definition capped_at_cap (portfolio_target_value max_stock_pct max_etf_pct
                          max_crypto_pct : Q) (pos : position) : Prop :=
  get_is_capped pos = true ->
  match cap_for max_stock_pct max_etf_pct max_crypto_pct (investment_type pos) with
  | Some (cap_pct, cap_rule) =>
      get_ctv pos = (cap_pct / 100) * portfolio_target_value
      /\ get_rule pos = Some cap_rule
  | None => get_ctv pos = 0 /\ get_rule pos = Some "unknown_type"%string
  end.

(** Feeding a result back to the allocator: the constrained value of a
    position becomes its target value. *)
Definition as_new_input (pos : position) : position :=
  set_targetValue pos (get_ctv pos).

(** What is known of the positions a run returns, by the message it
    logged last, when [Inv] holds of the positions at the start of every
    pass. *)
Definition exit_state (portfolio_target_value max_stock_pct max_etf_pct
                       max_crypto_pct : Q) (Inv : list position -> Prop)
           (out : list position) (ev : log_event) : Prop :=
  match ev with
  | LogMaxIterations => Inv out
  | LogZeroPortfolioValue => False
  | LogAllCapped => Inv out /\ uncapped_of out = []
  | LogNoAvailableValue =>
      Inv out /\ uncapped_of out <> []
      /\ available_value portfolio_target_value out <= 0
  | LogConverged _ =>
      Inv out /\ uncapped_of out <> []
      /\ 0 < available_value portfolio_target_value out
      /\ snd (cap_uncapped portfolio_target_value max_stock_pct max_etf_pct
                           max_crypto_pct out) = false
  end.

(** A position of a known investment type is within the cap of its
    type. *)
Definition within_cap (portfolio_target_value max_stock_pct max_etf_pct
                       max_crypto_pct : Q) (pos : position) : Prop :=
  forall cap_pct cap_rule,
    cap_for max_stock_pct max_etf_pct max_crypto_pct (investment_type pos)
    = Some (cap_pct, cap_rule) ->
    get_ctv pos <= (cap_pct / 100) * portfolio_target_value.

(** Scenario A of the specification: a portfolio worth 10,000 with two
    stocks targeted at 9,000 and 1,000. *)
Definition scenario_A : list position :=
  [ Position "P1" 0 90 (Some "P1"%string) false (Some "Stock"%string) (Some 9000) None None;
    Position "P2" 0 10 (Some "P2"%string) false (Some "Stock"%string) (Some 1000) None None ].

(** The shape the specification gives to a redistribution, in its own
    words: [positions1] being the positions after the capping loop of a
    pass, the remaining capacity is the portfolio target value less the
    constrained values of the capped positions, and [pos'], the
    uncapped position [pos] after the redistribution, is still uncapped,
    keeps its original target, and carries the part of the remaining
    capacity that is in proportion to its original target among the
    uncapped positions when these targets add up to more than 0, and an
    equal part otherwise. *)
Definition redistributed_share (portfolio_target_value : Q)
           (positions1 : list position) (pos pos' : position) : Prop :=
  let uncapped :=
    List.filter (fun p => negb (get_is_capped p)) positions1 in
  let sum_of_original_values := Qsum (map get_utv uncapped) in
  let remaining_capacity :=
    portfolio_target_value
    - Qsum (map get_ctv (List.filter get_is_capped positions1)) in
  get_is_capped pos' = false
  /\ get_utv pos' = get_utv pos
  /\ (0 < sum_of_original_values ->
      get_ctv pos'
      == get_utv pos / sum_of_original_values * remaining_capacity)
  /\ (sum_of_original_values <= 0 ->
      get_ctv pos'
      == remaining_capacity / inject_Z (Z.of_nat (length uncapped))).

(** The shape as the specification states it for original targets that
    do not add up to 0. *)
Definition proportional_share (portfolio_target_value : Q)
           (positions1 : list position) (pos pos' : position) : Prop :=
  let uncapped :=
    List.filter (fun p => negb (get_is_capped p)) positions1 in
  get_ctv pos'
  == get_utv pos / Qsum (map get_utv uncapped)
     * (portfolio_target_value
        - Qsum (map get_ctv (List.filter get_is_capped positions1))).

(** An ETF above its cap of 40% of a portfolio worth 100, and two
    positions with targets of 5 and 15. *)
Definition uneven_positions : list position :=
  [ Position "C" 0 80 (Some "C"%string) false (Some "ETF"%string) (Some 80) None None;
    Position "A" 0 5 (Some "A"%string) false (Some "Stock"%string) (Some 5) None None;
    Position "B" 0 15 (Some "B"%string) false (Some "ETF"%string) (Some 15) None None ].

(** The same ETF with two positions whose targets, -10 and 5, add up to
    less than 0. *)
Definition negative_sum_positions : list position :=
  [ Position "C" 0 80 (Some "C"%string) false (Some "ETF"%string) (Some 80) None None;
    Position "A" 0 (-10) (Some "A"%string) false (Some "Stock"%string) (Some (-10)) None None;
    Position "B" 0 5 (Some "B"%string) false (Some "ETF"%string) (Some 5) None None ].

(** A single stock targeted at 25% of a portfolio worth 100. *)
Definition one_stock : list position :=
  [ Position "S" 0 25 (Some "S"%string) false (Some "Stock"%string) (Some 25) None None ].

(** Three stocks, each targeted at 60% of a portfolio worth 100. *)
Definition three_stocks : list position :=
  [ Position "S1" 0 60 (Some "S1"%string) false (Some "Stock"%string) (Some 60) None None;
    Position "S2" 0 60 (Some "S2"%string) false (Some "Stock"%string) (Some 60) None None;
    Position "S3" 0 60 (Some "S3"%string) false (Some "Stock"%string) (Some 60) None None ].

(** The state the conservation bound rests on: original targets and
    uncapped constrained values are not negative, and the constrained
    values add up to at most the portfolio target value. *)
Definition bounded_state (portfolio_target_value : Q)
           (positions : list position) : Prop :=
  Forall (fun pos => 0 <= get_utv pos
                     /\ (get_is_capped pos = false -> 0 <= get_ctv pos))
         positions
  /\ Qsum (map get_ctv positions) <= portfolio_target_value.

(** The investment type of a position has a cap rule. *)
Definition known_type (max_stock_pct max_etf_pct max_crypto_pct : Q)
           (pos : position) : bool :=
  match cap_for max_stock_pct max_etf_pct max_crypto_pct (investment_type pos) with
  | Some _ => true
  | None => false
  end.

(** A position the capping loop has nothing left to do on: within the
    cap percentage of its type, or at 0 when its type is unknown. *)
Definition settled (portfolio_target_value max_stock_pct max_etf_pct
                    max_crypto_pct : Q) (pos : position) : Prop :=
  match cap_for max_stock_pct max_etf_pct max_crypto_pct (investment_type pos) with
  | Some (cap_pct, _) => get_ctv pos / portfolio_target_value * 100 <= cap_pct
  | None => get_is_capped pos = true /\ get_ctv pos = 0
  end.

(** Either nothing is capped, or nothing is left to hand out, or the
    constrained values add up to the portfolio target value. *)
Definition handed_out (portfolio_target_value : Q)
           (positions : list position) : Prop :=
  Forall (fun pos => get_is_capped pos = false) positions
  \/ uncapped_of positions = []
  \/ available_value portfolio_target_value positions <= 0
  \/ Qsum (map get_ctv positions) == portfolio_target_value.

(** A returned position as the next run initialises it. *)
Definition restart (pos : position) : position :=
  init_meta (as_new_input pos).

(** How a position [pos'] returned by a second run relates to the
    position [pos] that the first run returned for it: same constrained
    value; the old constrained value as new unconstrained value; and of
    the capping marks only those of an unknown type. *)
Definition rerun_of (max_stock_pct max_etf_pct max_crypto_pct : Q)
           (pos pos' : position) : Prop :=
  name pos' = name pos
  /\ investment_type pos' = investment_type pos
  /\ get_ctv pos' == get_ctv pos
  /\ get_utv pos' = get_ctv pos
  /\ (if known_type max_stock_pct max_etf_pct max_crypto_pct pos
      then get_is_capped pos' = false /\ get_rule pos' = None
      else get_is_capped pos' = true
           /\ get_rule pos' = Some "unknown_type"%string).

(** What the second run keeps of a position [pos] returned by the
    first: [pos'] has its constrained value, and the constrained value of
    [pos] as its unconstrained value. *)
Definition rerun_value (pos pos' : position) : Prop :=
  name pos' = name pos
  /\ investment_type pos' = investment_type pos
  /\ get_ctv pos' == get_ctv pos
  /\ get_utv pos' = get_ctv pos.

(** Three stocks, each targeted at 60% of a portfolio worth 100, and a
    position of a type without cap rule. *)
Definition three_stocks_and_a_bond : list position :=
  [ Position "S1" 0 60 (Some "S1"%string) false (Some "Stock"%string) (Some 60) None None;
    Position "S2" 0 60 (Some "S2"%string) false (Some "Stock"%string) (Some 60) None None;
    Position "S3" 0 60 (Some "S3"%string) false (Some "Stock"%string) (Some 60) None None;
    Position "B" 0 20 (Some "B"%string) false (Some "Bond"%string) (Some 20) None None ].

(** A restarted position after the capping loop of the second run's
    first pass, when the position was [settled]. *)
Definition recapped (max_stock_pct max_etf_pct max_crypto_pct : Q)
           (pos : position) : position :=
  if known_type max_stock_pct max_etf_pct max_crypto_pct pos
  then restart pos
  else mark_capped (restart pos) 0 "unknown_type".

(** The same position after the redistribution of that pass, [total]
    being the weight of the uncapped positions and [available] the value
    to hand out. *)
Definition reshared (max_stock_pct max_etf_pct max_crypto_pct : Q)
           (total available : Q) (pos : position) : position :=
  if known_type max_stock_pct max_etf_pct max_crypto_pct pos
  then set_ctv (restart pos) (get_ctv pos / total * available)
  else mark_capped (restart pos) 0 "unknown_type".

(** A portfolio "Main" holding one stock, with a configured allocation
    of 0%: its target value is 0. *)
Definition zero_weight_map : list (string * pdata) :=
  [ ("1"%string,
     PData "Main"
           [ ("Tech"%string,
              SectorData
                [ Position "ACME" 1000 2 (Some "US0001"%string) false
                           (Some "Stock"%string) None None None ]
                1000) ]
           1000) ].

Definition zero_weight_targets : list target_portfolio :=
  [ TargetPortfolio (Some "Main"%string) (Some 0) ].

(** The positions the constraint iteration leaves out (lines 793 and
    797-800): placeholders, positions without an identifier, positions
    without an investment type. *)
Definition skipped (pos : position) : Prop :=
  isPlaceholder pos = true
  \/ has_identifier pos = false
  \/ investment_type pos = None.

(** A position of sector [s] is left out when it is [skipped] or when
    [s] is a placeholder sector (lines 790 and 830). *)
Definition left_out (s : sector) (pos : position) : Prop :=
  sector_isPlaceholder s = true \/ skipped pos.

(** No valid position of the portfolio bears the name of [pos]. *)
Definition name_free (sectors : list sector) (pos : position) : Prop :=
  Forall (fun v => name v <> name pos) (valid_positions_of sectors).

(** Names identify the positions of a portfolio (the configuration keys
    them by portfolio name and position name, and the [companies] table
    is [UNIQUE (account_id, name)]); here, as much of it as the skip
    needs: no skipped position shares its name with a valid one. *)
Definition skipped_names_distinct (sectors : list sector) : Prop :=
  Forall (fun s =>
            sector_isPlaceholder s = false ->
            Forall (fun pos => skipped pos -> name_free sectors pos)
                   (sector_positions s))
         sectors.

(** Two sectors that differ at most in their left-out positions. *)
Definition same_but_skipped (s1 s2 : sector) : Prop :=
  sector_isPlaceholder s1 = sector_isPlaceholder s2
  /\ (sector_isPlaceholder s1 = true
      \/ Forall2 (fun p1 p2 => p1 = p2 \/ (skipped p1 /\ skipped p2))
                 (sector_positions s1) (sector_positions s2)).

(** Scenario C of the specification: a stock, an ETF and a position
    without investment type, the latter with a target of 30%, in a
    portfolio holding all of a total value of 10,000. *)
Definition scenario_C_map : list (string * pdata) :=
  [ ("1"%string,
     PData "Main"
           [ ("Tech"%string,
              SectorData
                [ Position "ACME" 4000 40 (Some "US0001"%string) false
                           (Some "Stock"%string) None None None;
                  Position "WORLD" 3000 30 (Some "IE0002"%string) false
                           (Some "ETF"%string) None None None;
                  Position "MYSTERY" 3000 30 (Some "XX0003"%string) false
                           None None None None ]
                10000) ]
           10000) ].

Definition scenario_C_targets : list target_portfolio :=
  [ TargetPortfolio (Some "Main"%string) (Some 100) ].

Definition scenario_C : portfolio_entry :=
  allocation_targets_of_portfolio ∅ scenario_C_targets 10000
    (PData "Main"
           [ ("Tech"%string,
              SectorData
                [ Position "ACME" 4000 40 (Some "US0001"%string) false
                           (Some "Stock"%string) None None None;
                  Position "WORLD" 3000 30 (Some "IE0002"%string) false
                           (Some "ETF"%string) None None None;
                  Position "MYSTERY" 3000 30 (Some "XX0003"%string) false
                           None None None None ]
                10000) ]
           10000).


Definition nearly_full_pdata : pdata :=
  PData "Main"
        [ ("Tech"%string,
           SectorData
             [ Position "ACME" 1000 (9975 # 100) (Some "US0001"%string) false
                        (Some "Stock"%string) None None None ]
             1000) ]
        1000.

(** The same configuration with an explicit weight of 40 instead. *)
Definition open_builder : builder_data :=
  BuilderData (Some 3%Z) (Some 3%Z) (Some 100)
              (Some [ BuilderPosition true None (Some 5);
                      BuilderPosition false (Some "ACME"%string) (Some 40) ]).

(** Scenario D of the specification: holding X worth 8,000 with a
    target of 0%, new position Y priced 50 with a target of 100%, and
    2,000 to invest.  The scenario does not give the price of X. *)
Definition scenario_D_X (price : option Q) : AllocationService.company :=
  {| AllocationService.id := "X";
     AllocationService.name := "X";
     AllocationService.identifier := "X";
     AllocationService.price_eur := price;
     AllocationService.current_value := Some 8000 |}.

Definition scenario_D_Y : AllocationService.company :=
  {| AllocationService.id := "Y";
     AllocationService.name := "Y";
     AllocationService.identifier := "Y";
     AllocationService.price_eur := Some 50;
     AllocationService.current_value := Some 0 |}.

Definition scenario_D_targets : list (string * Q) :=
  [ ("X"%string, 0); ("Y"%string, 100) ].

(** The allocation map the comment of lines 407-408 speaks of. *)
Definition sixty_forty : list (string * Q) :=
  [ ("1"%string, 60); ("2"%string, 40) ].

(** A portfolio worth 10,000 in which a position without investment
    type bears the name of a stock of the same portfolio. *)
Definition same_name_portfolio : portfolio_entry :=
  PortfolioEntry "Main" 7000 100 ""
    [ Sector "Tech"
        [ Position "ACME" 4000 40 (Some "US0001"%string) false
                   (Some "Stock"%string) (Some 4000) None None;
          Position "ACME" 3000 30 (Some "XX0003"%string) false
                   None (Some 3000) None None ]
        7000 2 false (Some 7000) (Some 70) ]
    0 None 0 [] 0 (Some 10000) (Some 10000).

(** ** Vocabulary of the further properties *)

(** Two positions that differ at most in their capping keys. *)
Definition same_but_meta (pos pos' : position) : Prop :=
  name pos' = name pos
  /\ currentValue pos' = currentValue pos
  /\ targetAllocation pos' = targetAllocation pos
  /\ identifier pos' = identifier pos
  /\ isPlaceholder pos' = isPlaceholder pos
  /\ investment_type pos' = investment_type pos
  /\ targetValue pos' = targetValue pos
  /\ positionSlot pos' = positionSlot pos.

(** The mark the allocator leaves on a position of unknown type. *)
Definition unknown_capped (max_stock_pct max_etf_pct max_crypto_pct : Q)
           (pos : position) : Prop :=
  known_type max_stock_pct max_etf_pct max_crypto_pct pos = false ->
  get_is_capped pos = true
  /\ get_ctv pos = 0
  /\ get_rule pos = Some "unknown_type"%string.

(** The positions of Scenario A at the start of the second pass. *)
Definition scenario_A_second_pass : list position :=
  redistribute 10000 (fst (cap_uncapped 10000 50 5 5 (map init_meta scenario_A))).

(** What a pass, and hence the rest of a run, does to a position:
    nothing outside the capping keys, nothing to the unconstrained value,
    and nothing at all once the position is capped. *)
Definition carried_over (pos pos' : position) : Prop :=
  same_but_meta pos pos'
  /\ get_utv pos' = get_utv pos
  /\ (get_is_capped pos = true -> pos' = pos).

(** A stock and a position of a type that has no cap rule. *)
Definition stock_and_bond : list position :=
  [ Position "S" 0 10 (Some "S"%string) false (Some "Stock"%string) (Some 10) None None;
    Position "B" 0 10 (Some "B"%string) false (Some "Bond"%string) (Some 10) None None ].

(** Holdings and targets to deploy cash on: two priced holdings and one
    without a price. *)
Definition three_holdings : list AllocationService.company :=
  [ {| AllocationService.id := "a";
       AllocationService.name := "Alpha";
       AllocationService.identifier := "AAA";
       AllocationService.price_eur := Some 20;
       AllocationService.current_value := Some 1000 |};
    {| AllocationService.id := "b";
       AllocationService.name := "Beta";
       AllocationService.identifier := "BBB";
       AllocationService.price_eur := Some 50;
       AllocationService.current_value := Some 3000 |};
    {| AllocationService.id := "c";
       AllocationService.name := "Gamma";
       AllocationService.identifier := "CCC";
       AllocationService.price_eur := None;
       AllocationService.current_value := Some 500 |} ].

Definition two_targets : list (string * Q) :=
  [ ("a"%string, 75); ("b"%string, 25) ].

(** The holdings of [three_holdings] that have lost their price. *)
Definition unpriced_holdings : list AllocationService.company :=
  map (fun c => {| AllocationService.id := AllocationService.id c;
                   AllocationService.name := AllocationService.name c;
                   AllocationService.identifier := AllocationService.identifier c;
                   AllocationService.price_eur := None;
                   AllocationService.current_value :=
                     AllocationService.current_value c |})
      three_holdings.

(** An allocation map whose percentages add up to 4. *)
Definition three_to_one : list (string * Q) :=
  [ ("1"%string, 3); ("2"%string, 1) ].

(** A sector total is the sum of the target values of its positions,
    and the sector weight is that total as a percentage of the portfolio
    target value, 0 when the latter is not positive. *)
Definition sector_consistent (portfolio_target_value : Q) (s : sector) : Prop :=
  sector_targetValue s = Some (Qsum (map get_targetValue (sector_positions s)))
  /\ sector_targetWeight s
     = Some (if Qltb 0 portfolio_target_value
             then Qsum (map get_targetValue (sector_positions s))
                  / portfolio_target_value * 100
             else 0).

(** The position [pos'] of the output tree carries the result [q] of the
    allocator: its four capping keys, and its constrained value as target
    value; its other keys are those of [pos]. *)
Definition carries_result (q pos pos' : position) : Prop :=
  name pos' = name pos
  /\ currentValue pos' = currentValue pos
  /\ targetAllocation pos' = targetAllocation pos
  /\ identifier pos' = identifier pos
  /\ investment_type pos' = investment_type pos
  /\ targetValue pos' = Some (get_ctv q)
  /\ get_is_capped pos' = get_is_capped q
  /\ get_utv pos' = get_utv q
  /\ get_ctv pos' = get_ctv q
  /\ get_rule pos' = get_rule q.

(** ** The position aggregator
    ([get_portfolio_positions], lines 437-602) *)

(** An entry of [target_allocations] with all the keys the aggregator
    reads; [calculate_allocation_targets] reads [name] and [allocation]
    of the same entries. *)
Record builder_portfolio := BuilderPortfolio {
  bpf_name : option string;
  bpf_minPositions : option Z;
  bpf_desiredPositions : option Z;
  bpf_allocation : option Q;
  bpf_positions : option (list builder_position)
}.

Definition as_target_portfolio (portfolio : builder_portfolio) : target_portfolio :=
  TargetPortfolio (bpf_name portfolio) (bpf_allocation portfolio).

(** A value of the [portfolio_builder_data] the aggregator returns: the
    five keys of lines 500-506 and the two keys lines 537-538 add to
    some entries. *)
Record builder_config := BuilderConfig {
  bc_data : builder_data;
  bc_use_placeholder_weight : bool;
  bc_placeholder_weight : option Q
}.

(** Truth value of a string read from a row: not [None], not empty. *)
Definition truthy_string (s : option string) : bool :=
  match s with
  | Some s => negb (String.eqb s "")
  | None => false
  end.

(** Truth value of a weight: not [None], not 0. *)
Definition truthy_weight (w : option Q) : bool :=
  match w with
  | Some w => negb (Qeq_bool w 0)
  | None => false
  end.

(** Lines 479-487 and 584-590: the default weight of an investment
    type, [0] for any other type. *)
Definition default_weight_of_type (r : option rules)
           (investment_type : option string) : Q :=
  match investment_type with
  | Some t =>
      if String.eqb t "Stock" then max_stock_pct_of r
      else if String.eqb t "ETF" then max_etf_pct_of r
      else if String.eqb t "Crypto" then max_crypto_pct_of r
      else 0
  | None => 0
  end.

(** [d.setdefault(k, v)] on a dict kept as its items in insertion
    order: a new key goes to the end. *)
Definition alist_setdefault {V} (k : string) (v : V) (d : list (string * V))
  : list (string * V) :=
  if existsb (fun kv => String.eqb (fst kv) k) d then d else d ++ [(k, v)].

(** In-place update of [d[k]]. *)
Definition alist_adjust {V} (k : string) (f : V -> V) (d : list (string * V))
  : list (string * V) :=
  map (fun kv => if String.eqb (fst kv) k then (fst kv, f (snd kv)) else kv) d.

(** [generate_rebalancing_plan] (lines 855-886): the value of the one
    key, ['portfolios'], of the dict it returns. *)
Definition generate_rebalancing_plan
           (portfolios_with_targets : list portfolio_entry)
  : list portfolio_entry :=
  portfolios_with_targets.

Section Aggregator.

(** The columns of a database row that only [calculate_item_value]
    reads (shares, prices, custom values). *)
Variable Columns : Type.

Record row := Row {
  row_portfolio_id : string;
  row_portfolio_name : string;
  row_company_name : option string;
  row_sector : option string;
  row_identifier : option string;
  row_investment_type : option string;
  row_columns : Columns
}.

(** [float(calculate_item_value(row))], of [app.utils.value_calculator],
    whose source is not part of the repository files at hand. *)
Variable calculate_item_value : row -> Q.

(** Lines 467-470. *)
Definition company_investment_types (portfolio_data : list row)
  : gmap string (option string) :=
  foldl (fun m row =>
           match row_company_name row with
           | Some company_name =>
               if truthy_string (Some company_name)
               then <[company_name := row_investment_type row]> m
               else m
           | None => m
           end)
        ∅ portfolio_data.

(** Lines 477-487. [company_investment_types.get(None)] is [None]. *)
Definition get_default_weight (types : gmap string (option string))
           (r : option rules) (company_name : option string) : Q :=
  default_weight_of_type r
    (match company_name with
     | Some company_name => default None (types !! company_name)
     | None => None
     end).

(** Lines 522-533 for one position of a configuration entry. *)
Definition store_target_weight (types : gmap string (option string))
           (r : option rules) (portfolio_name : string)
           (position_target_weights : gmap (string * option string) Q)
           (position : builder_position)
  : gmap (string * option string) Q :=
  if bp_isPlaceholder position then position_target_weights
  else
    let company_name := bp_companyName position in
    let position_key := (portfolio_name, company_name) in
    match bp_weight position with
    | Some explicit_weight =>
        if Qltb 0 explicit_weight
        then <[position_key := explicit_weight]> position_target_weights
        else <[position_key := get_default_weight types r company_name]>
               position_target_weights
    | None =>
        <[position_key := get_default_weight types r company_name]>
          position_target_weights
    end.

(** Lines 493-538, the body of the loop over [target_allocations]. *)
Definition store_builder_entry (types : gmap string (option string))
           (r : option rules)
           (state : gmap (string * option string) Q * gmap string builder_config)
           (portfolio : builder_portfolio)
  : gmap (string * option string) Q * gmap string builder_config :=
  let '(position_target_weights, portfolio_builder_data) := state in
  match bpf_name portfolio with
  | None => state
  | Some portfolio_name =>
      if negb (truthy_string (Some portfolio_name)) then state
      else
        let positions := default [] (bpf_positions portfolio) in
        let portfolio_builder_data :=
          <[portfolio_name :=
              BuilderConfig
                (BuilderData (Some (default 0%Z (bpf_minPositions portfolio)))
                             (bpf_desiredPositions portfolio)
                             (Some (default 0 (bpf_allocation portfolio)))
                             (Some positions))
                false None]> portfolio_builder_data in
        let real_positions :=
          List.filter (fun p => negb (bp_isPlaceholder p)) positions in
        let placeholder_positions := List.filter bp_isPlaceholder positions in
        let has_only_placeholders :=
          Nat.eqb (length real_positions) 0
          && Nat.ltb 0 (length placeholder_positions) in
        let placeholder_weight :=
          if has_only_placeholders
          then match placeholder_positions with
               | p :: _ => bp_weight p
               | [] => None
               end
          else None in
        let position_target_weights :=
          foldl (store_target_weight types r portfolio_name)
                position_target_weights positions in
        let portfolio_builder_data :=
          if has_only_placeholders && truthy_weight placeholder_weight
          then <[portfolio_name :=
                   BuilderConfig
                     (BuilderData (Some (default 0%Z (bpf_minPositions portfolio)))
                                  (bpf_desiredPositions portfolio)
                                  (Some (default 0 (bpf_allocation portfolio)))
                                  (Some positions))
                     true placeholder_weight]> portfolio_builder_data
          else portfolio_builder_data in
        (position_target_weights, portfolio_builder_data)
  end.

(** Line 584: [row.get('investment_type') in ['Stock', 'ETF', 'Crypto']]. *)
Definition has_default_weight (investment_type : option string) : bool :=
  match investment_type with
  | Some t => String.eqb t "Stock" || String.eqb t "ETF" || String.eqb t "Crypto"
  | None => false
  end.

(** Lines 570-590: the target weight of the position of a row. *)
Definition target_weight_of_row
           (position_target_weights : gmap (string * option string) Q)
           (portfolio_builder_data : gmap string builder_config)
           (r : option rules) (row : row) : Q :=
  let lookup_key := (row_portfolio_name row, row_company_name row) in
  let target_weight := default 0 (position_target_weights !! lookup_key) in
  let builder_config := portfolio_builder_data !! row_portfolio_name row in
  let use_placeholder_weight :=
    match builder_config with
    | Some c => bc_use_placeholder_weight c
    | None => false
    end in
  let placeholder_weight_value :=
    match builder_config with
    | Some c => bc_placeholder_weight c
    | None => None
    end in
  if Qeq_bool target_weight 0 then
    if use_placeholder_weight && truthy_weight placeholder_weight_value
    then default 0 placeholder_weight_value
    else if has_default_weight (row_investment_type row)
         then default_weight_of_type r (row_investment_type row)
         else target_weight
  else target_weight.

(** Lines 592-598: [position_data]. *)
Definition position_of_row
           (position_target_weights : gmap (string * option string) Q)
           (portfolio_builder_data : gmap string builder_config)
           (r : option rules) (row : row) : position :=
  Position (default "" (row_company_name row))
           (calculate_item_value row)
           (target_weight_of_row position_target_weights
                                 portfolio_builder_data r row)
           (row_identifier row) false (row_investment_type row)
           None None None.

(** Lines 559-568 and 599: the position and its value go to the sector
    of the portfolio, created empty if it is new. *)
Definition add_position (sector_name : string) (pos : position) (pos_value : Q)
           (pd : pdata) : pdata :=
  PData (pd_name pd)
        (alist_adjust sector_name
           (fun cat => SectorData (sd_positions cat ++ [pos])
                                  (sd_currentValue cat + pos_value))
           (alist_setdefault sector_name (SectorData [] 0) (pd_sectors pd)))
        (pd_currentValue pd + pos_value).

(** Line 558: [row['company_name']] is neither [None] nor empty. *)
Definition has_company (row : row) : bool :=
  truthy_string (row_company_name row).

(** Line 560. *)
Definition sector_name_of (row : row) : string :=
  if truthy_string (row_sector row) then default "" (row_sector row)
  else "Uncategorized".

(** Lines 549-599, the body of the loop over the rows.  The keys of
    [portfolio_map] are the portfolio ids, written as text. *)
Definition add_row
           (position_target_weights : gmap (string * option string) Q)
           (portfolio_builder_data : gmap string builder_config)
           (r : option rules)
           (portfolio_map : list (string * pdata)) (row : row)
  : list (string * pdata) :=
  let pid := row_portfolio_id row in
  let pname := row_portfolio_name row in
  let portfolio_map := alist_setdefault pid (PData pname [] 0) portfolio_map in
  if has_company row then
    alist_adjust pid
      (add_position (sector_name_of row)
         (position_of_row position_target_weights portfolio_builder_data r row)
         (calculate_item_value row))
      portfolio_map
  else portfolio_map.

(** The two dicts built from the configuration (lines 489-538). *)
Definition builder_state (portfolio_data : list row)
           (target_allocations : list builder_portfolio) (r : option rules)
  : gmap (string * option string) Q * gmap string builder_config :=
  foldl (store_builder_entry (company_investment_types portfolio_data) r)
        (∅, ∅) target_allocations.

Definition get_portfolio_positions (portfolio_data : list row)
           (target_allocations : list builder_portfolio) (r : option rules)
  : list (string * pdata) * gmap string builder_config :=
  let state := builder_state portfolio_data target_allocations r in
  (foldl (add_row (fst state) (snd state) r) [] portfolio_data, snd state).

(** The rows of portfolio [pid] that become positions, and those of them
    that go to its sector [sector_name]. *)
Definition in_portfolio (pid : string) (row : row) : bool :=
  String.eqb (row_portfolio_id row) pid && has_company row.

Definition in_sector (pid sector_name : string) (row : row) : bool :=
  in_portfolio pid row && String.eqb (sector_name_of row) sector_name.

(** [_get_simulator_portfolio_data_internal] of
    [app/routes/portfolio_api.py], lines 610-630: the aggregator, the
    total of the current values, the constrained allocation, then the
    plan; the result is the ['portfolios'] of the plan. *)
Definition simulator_portfolio_targets (portfolio_data : list row)
           (target_allocations : list builder_portfolio) (r : option rules)
  : list portfolio_entry :=
  let '(portfolio_map, portfolio_builder_data) :=
    get_portfolio_positions portfolio_data target_allocations r in
  let total_current_value :=
    Qsum (map (fun kv => pd_currentValue (snd kv)) portfolio_map) in
  generate_rebalancing_plan
    (calculate_allocation_targets_with_type_constraints
       portfolio_map (bc_data <$> portfolio_builder_data)
       (map as_target_portfolio target_allocations) total_current_value r).

End Aggregator.

Arguments Row {Columns}.
Arguments row_portfolio_id {Columns}.
Arguments row_portfolio_name {Columns}.
Arguments row_company_name {Columns}.
Arguments row_sector {Columns}.
Arguments row_identifier {Columns}.
Arguments row_investment_type {Columns}.
Arguments row_columns {Columns}.
Arguments company_investment_types {Columns}.
Arguments has_company {Columns}.
Arguments sector_name_of {Columns}.
Arguments target_weight_of_row {Columns}.
Arguments position_of_row {Columns}.
Arguments add_row {Columns}.
Arguments builder_state {Columns}.
Arguments get_portfolio_positions {Columns}.
Arguments in_portfolio {Columns}.
Arguments in_sector {Columns}.
Arguments simulator_portfolio_targets {Columns}.

(** ** Statement vocabulary for the aggregator *)

(** The entry [pd] of portfolio [pid] holds the rows [portfolio_data]:
    its sectors are distinct and are those of the rows of the portfolio
    that name a company, each sector holds the positions of its rows, in
    the order of the rows, and their total value, and the value of the
    portfolio is the total value of its rows and of its sectors. *)
Definition aggregate_of {Columns} (calculate_item_value : row Columns -> Q)
           (position_of : row Columns -> position)
           (portfolio_data : list (row Columns)) (pid : string) (pd : pdata)
  : Prop :=
  NoDup (map fst (pd_sectors pd))
  /\ (forall sector_name,
        In sector_name (map fst (pd_sectors pd))
        <-> In sector_name
               (map sector_name_of
                    (List.filter (in_portfolio pid) portfolio_data)))
  /\ (forall sector_name cat,
        In (sector_name, cat) (pd_sectors pd) ->
        sd_positions cat
        = map position_of
              (List.filter (in_sector pid sector_name) portfolio_data)
        /\ sd_currentValue cat
           == Qsum (map calculate_item_value
                        (List.filter (in_sector pid sector_name) portfolio_data)))
  /\ pd_currentValue pd
     == Qsum (map calculate_item_value
                  (List.filter (in_portfolio pid) portfolio_data))
  /\ pd_currentValue pd
     == Qsum (map (fun kv => sd_currentValue (snd kv)) (pd_sectors pd)).

(** ** Rows and configurations for the aggregator *)

(** Rows that carry their value in their remaining column, and the
    value calculator that reads it. *)
Definition value_of_row (row : row Q) : Q := row_columns row.

(** Two holdings of portfolio 1, one of them without sector, one
    holding of an unknown type in portfolio 2, and portfolio 3 without
    holdings. *)
Definition holdings_rows : list (row Q) :=
  [ Row "1" "Growth" (Some "Acme") (Some "Tech") (Some "ACME") (Some "Stock")
        1000;
    Row "1" "Growth" (Some "Globex") None (Some "GLBX") (Some "ETF") 500;
    Row "2" "Income" (Some "Initech") (Some "Tech") (Some "INIT") (Some "Bond")
        300;
    Row "3" "Empty" None None None None 0 ].

(** "Growth" configured with a placeholder only. *)
Definition placeholder_configuration : list builder_portfolio :=
  [ BuilderPortfolio (Some "Growth") (Some 2%Z) (Some 4%Z) (Some 60)
      (Some [ BuilderPosition true None (Some 25) ]) ].

(** "Growth" configured with Acme at 7%, Globex without weight, and a
    placeholder. *)
Definition listed_configuration : list builder_portfolio :=
  [ BuilderPortfolio (Some "Growth") (Some 2%Z) None (Some 60)
      (Some [ BuilderPosition false (Some "Acme") (Some 7);
              BuilderPosition false (Some "Globex") None;
              BuilderPosition true None (Some 10) ]) ].

(** The positions and entries the aggregator builds from these rows,
    with the target weights left open. *)
Definition acme_at (w : Q) : position :=
  Position "Acme" 1000 w (Some "ACME") false (Some "Stock") None None None.

Definition globex_at (w : Q) : position :=
  Position "Globex" 500 w (Some "GLBX") false (Some "ETF") None None None.

Definition initech : position :=
  Position "Initech" 300 0 (Some "INIT") false (Some "Bond") None None None.

Definition growth_entry (w_acme w_globex : Q) : pdata :=
  PData "Growth"
        [ ("Tech"%string, SectorData [acme_at w_acme] 1000);
          ("Uncategorized"%string, SectorData [globex_at w_globex] 500) ]
        1500.

Definition income_entry : pdata :=
  PData "Income" [ ("Tech"%string, SectorData [initech] 300) ] 300.
(** * Properties *)

(** ** Rational arithmetic *)

Lemma Qltb_lt (x y : Q) : Qltb x y = true <-> x < y.
Proof.
  unfold Qltb. rewrite negb_true_iff, <- not_true_iff_false, Qle_bool_iff.
  split; [apply Qnot_le_lt | apply Qlt_not_le].
Qed.

Lemma Qltb_ge (x y : Q) : Qltb x y = false <-> y <= x.
Proof.
  unfold Qltb. rewrite negb_false_iff, Qle_bool_iff. reflexivity.
Qed.

Lemma Qle_bool_gt (x y : Q) : Qle_bool x y = false <-> y < x.
Proof.
  rewrite <- not_true_iff_false, Qle_bool_iff.
  split; [apply Qnot_le_lt | apply Qlt_not_le].
Qed.

Lemma Qdiv_100 (x : Q) : x / 100 == x * (1 # 100).
Proof. field. Qed.

Lemma fold_left_Qplus (xs : list Q) (a : Q) :
  fold_left Qplus xs a == a + fold_left Qplus xs 0.
Proof.
  revert a. induction xs as [|x xs IH]; intros a; simpl.
  - lra.
  - rewrite (IH (a + x)), (IH (0 + x)). lra.
Qed.

Lemma Qsum_nil : Qsum [] == 0.
Proof. reflexivity. Qed.

Lemma Qsum_cons (x : Q) (xs : list Q) : Qsum (x :: xs) == x + Qsum xs.
Proof.
  unfold Qsum. simpl. rewrite fold_left_Qplus. lra.
Qed.

Lemma Qsum_app (xs ys : list Q) : Qsum (xs ++ ys) == Qsum xs + Qsum ys.
Proof.
  induction xs as [|x xs IH]; simpl.
  - rewrite Qsum_nil. lra.
  - rewrite !Qsum_cons, IH. lra.
Qed.

Lemma Qsum_map_ext {A} (f g : A -> Q) (l : list A) :
  Forall (fun a => f a == g a) l -> Qsum (map f l) == Qsum (map g l).
Proof.
  induction 1 as [|a l Ha _ IH]; simpl.
  - reflexivity.
  - rewrite !Qsum_cons, Ha, IH. reflexivity.
Qed.

Lemma Qsum_map_le {A} (f g : A -> Q) (l : list A) :
  Forall (fun a => f a <= g a) l -> Qsum (map f l) <= Qsum (map g l).
Proof.
  induction 1 as [|a l Ha _ IH]; simpl.
  - apply Qle_refl.
  - rewrite !Qsum_cons. lra.
Qed.

Lemma Qsum_map_scale {A} (f : A -> Q) (c : Q) (l : list A) :
  Qsum (map (fun a => f a * c) l) == Qsum (map f l) * c.
Proof.
  induction l as [|a l IH]; simpl.
  - rewrite Qsum_nil. lra.
  - rewrite !Qsum_cons, IH. lra.
Qed.

Lemma Qsum_map_const {A} (c : Q) (l : list A) :
  Qsum (map (fun _ => c) l) == inject_Z (Z.of_nat (length l)) * c.
Proof.
  induction l as [|a l IH].
  - unfold Qsum. simpl. change (inject_Z (Z.of_nat 0)) with 0. lra.
  - cbn [map length]. rewrite Qsum_cons, IH, Nat2Z.inj_succ.
    unfold Z.succ. rewrite inject_Z_plus. change (inject_Z 1) with 1. lra.
Qed.

Lemma Qsum_map_nonneg {A} (f : A -> Q) (l : list A) :
  Forall (fun a => 0 <= f a) l -> 0 <= Qsum (map f l).
Proof.
  induction 1 as [|a l Ha _ IH]; simpl.
  - rewrite Qsum_nil. lra.
  - rewrite Qsum_cons. lra.
Qed.

(** A sum splits along any boolean test. *)
Lemma Qsum_filter_split {A} (f : A -> Q) (b : A -> bool) (l : list A) :
  Qsum (map f l)
  == Qsum (map f (List.filter b l))
     + Qsum (map f (List.filter (fun a => negb (b a)) l)).
Proof.
  induction l as [|a l IH]; simpl.
  - rewrite Qsum_nil. lra.
  - destruct (b a); simpl; rewrite !Qsum_cons, IH; lra.
Qed.

Lemma inject_length_pos {A} (a : A) (l : list A) :
  0 < inject_Z (Z.of_nat (length (a :: l))).
Proof.
  change 0 with (inject_Z 0). rewrite <- Zlt_Qlt. cbn [length]. lia.
Qed.

(** ** The capping loop of one pass *)

Section AllocatorFacts.

Variable ptv : Q.
Variables ms me mc : Q.

(** The three outcomes of the loop body (lines 97-135). *)
Lemma cap_position_cases (pos : position) :
  (cap_for ms me mc (investment_type pos) = None
   /\ cap_position ptv ms me mc pos = (mark_capped pos 0 "unknown_type", true))
  \/ (exists cap_pct cap_rule,
        cap_for ms me mc (investment_type pos) = Some (cap_pct, cap_rule)
        /\ cap_pct < get_ctv pos / ptv * 100
        /\ cap_position ptv ms me mc pos
           = (mark_capped pos (cap_pct / 100 * ptv) cap_rule, true))
  \/ (exists cap_pct cap_rule,
        cap_for ms me mc (investment_type pos) = Some (cap_pct, cap_rule)
        /\ get_ctv pos / ptv * 100 <= cap_pct
        /\ cap_position ptv ms me mc pos = (pos, false)).
Proof.
  unfold cap_position.
  destruct (cap_for ms me mc (investment_type pos)) as [[cap_pct cap_rule]|] eqn:E.
  - destruct (Qltb cap_pct (get_ctv pos / ptv * 100)) eqn:L.
    + right; left. exists cap_pct, cap_rule. apply Qltb_lt in L. auto.
    + right; right. exists cap_pct, cap_rule. apply Qltb_ge in L. auto.
  - left. auto.
Qed.

Lemma cap_uncapped_fst (positions : list position) :
  fst (cap_uncapped ptv ms me mc positions)
  = map (cap_step ptv ms me mc) positions.
Proof.
  induction positions as [|pos rest IH]; simpl; [reflexivity|].
  unfold cap_step at 1.
  destruct (get_is_capped pos); simpl; rewrite IH; reflexivity.
Qed.

Lemma cap_uncapped_snd (positions : list position) :
  snd (cap_uncapped ptv ms me mc positions)
  = existsb (fun pos => negb (get_is_capped pos)
                        && snd (cap_position ptv ms me mc pos))
            positions.
Proof.
  induction positions as [|pos rest IH]; simpl; [reflexivity|].
  destruct (get_is_capped pos); simpl; rewrite IH; reflexivity.
Qed.

Lemma cap_step_is_capped (pos : position) :
  get_is_capped pos = true -> cap_step ptv ms me mc pos = pos.
Proof. unfold cap_step. intros ->. reflexivity. Qed.

(** A position the loop body does not cap is left as it is. *)
Lemma cap_step_unchanged (pos : position) :
  negb (get_is_capped pos) && snd (cap_position ptv ms me mc pos) = false ->
  cap_step ptv ms me mc pos = pos.
Proof.
  unfold cap_step. destruct (get_is_capped pos); simpl; [reflexivity|].
  destruct (cap_position_cases pos)
    as [[_ E]|[(c & r & _ & _ & E)|(c & r & _ & _ & E)]];
    rewrite E; simpl; congruence.
Qed.

(** A pass that caps nothing changes nothing. *)
Lemma cap_uncapped_unchanged (positions : list position) :
  snd (cap_uncapped ptv ms me mc positions) = false ->
  fst (cap_uncapped ptv ms me mc positions) = positions.
Proof.
  rewrite cap_uncapped_snd, cap_uncapped_fst.
  induction positions as [|pos rest IH]; simpl; [reflexivity|].
  intros H. apply orb_false_iff in H as [H1 H2].
  rewrite (cap_step_unchanged _ H1), (IH H2). reflexivity.
Qed.

Lemma cap_step_utv (pos : position) :
  get_utv (cap_step ptv ms me mc pos) = get_utv pos.
Proof.
  unfold cap_step. destruct (get_is_capped pos); [reflexivity|].
  destruct (cap_position_cases pos)
    as [[_ E]|[(c & r & _ & _ & E)|(c & r & _ & _ & E)]];
    rewrite E; reflexivity.
Qed.

Lemma cap_step_investment_type (pos : position) :
  investment_type (cap_step ptv ms me mc pos) = investment_type pos.
Proof.
  unfold cap_step. destruct (get_is_capped pos); [reflexivity|].
  destruct (cap_position_cases pos)
    as [[_ E]|[(c & r & _ & _ & E)|(c & r & _ & _ & E)]];
    rewrite E; reflexivity.
Qed.

Lemma cap_step_has_meta (pos : position) :
  has_meta pos -> has_meta (cap_step ptv ms me mc pos).
Proof.
  unfold cap_step. destruct (get_is_capped pos); [auto|].
  destruct (cap_position_cases pos)
    as [[_ E]|[(c & r & _ & _ & E)|(c & r & _ & _ & E)]];
    rewrite E; simpl; auto; intros _; discriminate.
Qed.

(** The capping loop establishes [capped_at_cap] on what it caps and
    keeps it on what was capped before. *)
Lemma cap_step_capped_at_cap (pos : position) :
  capped_at_cap ptv ms me mc pos ->
  capped_at_cap ptv ms me mc (cap_step ptv ms me mc pos).
Proof.
  unfold cap_step. destruct (get_is_capped pos) eqn:C; [auto|].
  intros _.
  destruct (cap_position_cases pos)
    as [[T E]|[(c & r & T & _ & E)|(c & r & T & _ & E)]];
    rewrite E; unfold capped_at_cap; simpl.
  - rewrite T. auto.
  - rewrite T. auto.
  - congruence.
Qed.

(** When the loop caps nothing, every uncapped position has a known
    type and is within its cap. *)
Lemma cap_uncapped_false (positions : list position) :
  snd (cap_uncapped ptv ms me mc positions) = false ->
  Forall (fun pos => get_is_capped pos = false ->
                     exists cap_pct cap_rule,
                       cap_for ms me mc (investment_type pos)
                       = Some (cap_pct, cap_rule)
                       /\ get_ctv pos / ptv * 100 <= cap_pct)
         positions.
Proof.
  rewrite cap_uncapped_snd.
  induction positions as [|pos rest IH]; simpl; intros H; constructor.
  - apply orb_false_iff in H as [H _]. intros C. rewrite C in H. simpl in H.
    destruct (cap_position_cases pos)
      as [[_ E]|[(c & r & _ & _ & E)|(c & r & T & L & E)]];
      rewrite E in H; simpl in H; try discriminate.
    exists c, r. auto.
  - apply IH. apply orb_false_iff in H as [_ H]. exact H.
Qed.

End AllocatorFacts.

(** ** Redistribution *)

Section RedistributionFacts.

Variable ptv : Q.

Lemma redistribute_cases (positions : list position) :
  (redistribute ptv positions = positions
   /\ (uncapped_of positions = [] \/ available_value ptv positions <= 0))
  \/ (uncapped_of positions <> []
      /\ 0 < available_value ptv positions
      /\ 0 < total_uncapped_weight positions
      /\ redistribute ptv positions
         = assign_uncapped
             (fun pos => get_utv pos / total_uncapped_weight positions
                         * available_value ptv positions)
             positions)
  \/ (uncapped_of positions <> []
      /\ 0 < available_value ptv positions
      /\ total_uncapped_weight positions <= 0
      /\ redistribute ptv positions
         = assign_uncapped
             (fun _ => available_value ptv positions
                       / inject_Z (Z.of_nat (length (uncapped_of positions))))
             positions).
Proof.
  unfold redistribute.
  destruct (uncapped_of positions) as [|u us] eqn:U; [left; auto|].
  destruct (Qltb 0 (available_value ptv positions)) eqn:A.
  - apply Qltb_lt in A.
    destruct (Qltb 0 (total_uncapped_weight positions)) eqn:T.
    + apply Qltb_lt in T. right; left. repeat split; auto.
    + apply Qltb_ge in T. right; right. repeat split; auto.
  - apply Qltb_ge in A. left. auto.
Qed.

Lemma assign_uncapped_capped_of (share : position -> Q) (positions : list position) :
  capped_of (assign_uncapped share positions) = capped_of positions.
Proof.
  unfold capped_of, assign_uncapped.
  induction positions as [|pos rest IH]; simpl; [reflexivity|].
  destruct (get_is_capped pos) eqn:C; simpl.
  - rewrite C, IH. reflexivity.
  - unfold get_is_capped at 1. simpl. fold (get_is_capped pos). rewrite C. exact IH.
Qed.

Lemma assign_uncapped_uncapped_of (share : position -> Q) (positions : list position) :
  uncapped_of (assign_uncapped share positions)
  = map (fun pos => set_ctv pos (share pos)) (uncapped_of positions).
Proof.
  unfold uncapped_of, assign_uncapped.
  induction positions as [|pos rest IH]; simpl; [reflexivity|].
  destruct (get_is_capped pos) eqn:C; simpl.
  - rewrite C. simpl. exact IH.
  - unfold get_is_capped at 1. simpl. fold (get_is_capped pos). rewrite C.
    simpl. rewrite IH. reflexivity.
Qed.

(** After an assignment the constrained values add up to the capped
    amounts plus the shares handed out. *)
Lemma assign_uncapped_sum (share : position -> Q) (positions : list position) :
  Qsum (map get_ctv (assign_uncapped share positions))
  == Qsum (map get_ctv (capped_of positions))
     + Qsum (map share (uncapped_of positions)).
Proof.
  rewrite (Qsum_filter_split get_ctv get_is_capped).
  fold (capped_of (assign_uncapped share positions)).
  fold (uncapped_of (assign_uncapped share positions)).
  rewrite assign_uncapped_capped_of, assign_uncapped_uncapped_of.
  rewrite map_map. simpl. reflexivity.
Qed.

(** Redistribution hands out all the available value: afterwards the
    constrained values add up to the portfolio target value. *)
Lemma redistribute_sum (positions : list position) :
  uncapped_of positions <> [] ->
  0 < available_value ptv positions ->
  Qsum (map get_ctv (redistribute ptv positions)) == ptv.
Proof.
  intros U A.
  destruct (redistribute_cases positions)
    as [[_ [E|E]]|[(_ & _ & T & E)|(_ & _ & T & E)]].
  - contradiction.
  - lra.
  - rewrite E, assign_uncapped_sum.
    assert (Ha : available_value ptv positions
                 == ptv - Qsum (map get_ctv (capped_of positions)))
      by reflexivity.
    set (t := total_uncapped_weight positions) in *.
    set (a := available_value ptv positions) in *.
    rewrite (Qsum_map_ext (fun pos => get_utv pos / t * a)
                          (fun pos => get_utv pos * (/ t * a))).
    + rewrite Qsum_map_scale. fold (total_uncapped_weight positions). fold t.
      assert (E1 : t * (/ t * a) == a) by (field; lra).
      lra.
    + apply Forall_forall. intros pos _. field. lra.
  - rewrite E, assign_uncapped_sum, Qsum_map_const.
    destruct (uncapped_of positions) as [|u us] eqn:Un; [contradiction|].
    pose proof (inject_length_pos u us) as L.
    assert (Ha : available_value ptv positions
                 == ptv - Qsum (map get_ctv (capped_of positions)))
      by reflexivity.
    set (n := inject_Z (Z.of_nat (length (u :: us)))) in *.
    set (a := available_value ptv positions) in *.
    assert (E1 : n * (a / n) == a) by (field; lra).
    rewrite E1. lra.
Qed.

Lemma redistribute_Forall (P : position -> Prop) (positions : list position) :
  (forall pos v, P pos -> get_is_capped pos = false -> P (set_ctv pos v)) ->
  Forall P positions -> Forall P (redistribute ptv positions).
Proof.
  intros HP H.
  assert (G : forall share, Forall P (assign_uncapped share positions)).
  { intros share. unfold assign_uncapped. apply Forall_map.
    eapply Forall_impl; [exact H|]. simpl. intros pos Hp.
    destruct (get_is_capped pos) eqn:C; auto. }
  destruct (redistribute_cases positions)
    as [[E _]|[(_ & _ & _ & E)|(_ & _ & _ & E)]]; rewrite E; auto.
Qed.

Lemma set_ctv_capped_at_cap (ms me mc : Q) (pos : position) (v : Q) :
  get_is_capped pos = false -> capped_at_cap ptv ms me mc (set_ctv pos v).
Proof.
  intros C. unfold capped_at_cap, set_ctv, get_is_capped at 1. simpl.
  fold (get_is_capped pos). rewrite C. discriminate.
Qed.

End RedistributionFacts.

(** ** The recursion *)

Section LoopInvariant.

Variable ptv : Q.
Variables ms me mc : Q.
Hypothesis ptv_pos : 0 < ptv.

Variable Inv : list position -> Prop.
Hypothesis Inv_pass :
  forall positions,
    Inv positions ->
    uncapped_of positions <> [] ->
    0 < available_value ptv positions ->
    snd (cap_uncapped ptv ms me mc positions) = true ->
    Inv (redistribute ptv (fst (cap_uncapped ptv ms me mc positions))).

(** A property of the positions at the start of a pass that every
    capping pass followed by a redistribution re-establishes holds of
    the returned positions, whichever [return] is taken. *)
Lemma constraints_loop_exit (fuel iteration : nat) (positions : list position) :
  iteration <> 0%nat ->
  Inv positions ->
  exit_state ptv ms me mc Inv
    (fst (constraints_loop ptv ms me mc fuel iteration positions))
    (snd (constraints_loop ptv ms me mc fuel iteration positions)).
Proof.
  revert iteration positions.
  induction fuel as [|fuel IH]; intros iteration positions Hit HI; simpl.
  - exact HI.
  - rewrite (proj2 (Qle_bool_gt _ _) ptv_pos).
    apply Nat.eqb_neq in Hit as ->.
    destruct (uncapped_of positions) as [|u us] eqn:U.
    + simpl. auto.
    + destruct (Qle_bool (available_value ptv positions) 0) eqn:A.
      * apply Qle_bool_iff in A. simpl. rewrite U. repeat split; auto.
      * apply Qle_bool_gt in A.
        destruct (snd (cap_uncapped ptv ms me mc positions)) eqn:S.
        -- apply IH; [lia|]. apply Inv_pass; auto. rewrite U. discriminate.
        -- simpl. rewrite (cap_uncapped_unchanged _ _ _ _ _ S), U.
           repeat split; auto.
Qed.

Lemma constraints_loop_exit_0 (fuel : nat) (positions : list position) :
  Inv (map (init_meta) positions) ->
  exit_state ptv ms me mc Inv
    (fst (constraints_loop ptv ms me mc (S fuel) 0 positions))
    (snd (constraints_loop ptv ms me mc (S fuel) 0 positions)).
Proof.
  intros HI. simpl.
  rewrite (proj2 (Qle_bool_gt _ _) ptv_pos).
  destruct (uncapped_of (map init_meta positions)) as [|u us] eqn:U.
  - simpl. auto.
  - destruct (Qle_bool (available_value ptv (map init_meta positions)) 0) eqn:A.
    + apply Qle_bool_iff in A. simpl. rewrite U. repeat split; auto.
    + apply Qle_bool_gt in A.
      destruct (snd (cap_uncapped ptv ms me mc (map init_meta positions))) eqn:S.
      * apply constraints_loop_exit; [lia|]. apply Inv_pass; auto.
        rewrite U. discriminate.
      * simpl. rewrite (cap_uncapped_unchanged _ _ _ _ _ S), U.
        repeat split; auto.
Qed.

End LoopInvariant.

(** ** Cap respected *)

Section CapRespected.

Variable ptv : Q.
Variables ms me mc : Q.
Hypothesis ptv_pos : 0 < ptv.

Lemma pct_within_cap (v cap_pct : Q) :
  v / ptv * 100 <= cap_pct -> v <= cap_pct / 100 * ptv.
Proof.
  intros H.
  assert (E : v == v / ptv * ptv) by (field; lra).
  rewrite Qdiv_100.
  set (t := v / ptv) in *.
  assert (0 <= (cap_pct * (1 # 100) - t) * ptv)
    by (apply Qmult_le_0_compat; lra).
  lra.
Qed.

Lemma init_meta_capped_at_cap (positions : list position) :
  Forall (capped_at_cap ptv ms me mc) (map init_meta positions).
Proof.
  apply Forall_map, Forall_forall. intros pos _ C. discriminate C.
Qed.

Lemma pass_capped_at_cap (positions : list position) :
  Forall (capped_at_cap ptv ms me mc) positions ->
  Forall (capped_at_cap ptv ms me mc)
         (redistribute ptv (fst (cap_uncapped ptv ms me mc positions))).
Proof.
  intros H. apply redistribute_Forall.
  - intros pos v _ C. apply set_ctv_capped_at_cap, C.
  - rewrite cap_uncapped_fst. apply Forall_map.
    eapply Forall_impl; [exact H|]. apply cap_step_capped_at_cap.
Qed.

(** Capped positions sit on their cap and the uncapped ones passed the
    test of line 122: everyone is within the cap. *)
Lemma within_cap_at_fixpoint (positions : list position) :
  Forall (capped_at_cap ptv ms me mc) positions ->
  (uncapped_of positions = []
   \/ snd (cap_uncapped ptv ms me mc positions) = false) ->
  Forall (within_cap ptv ms me mc) positions.
Proof.
  intros HC HU.
  assert (HF : Forall (fun pos => get_is_capped pos = false ->
                        exists cap_pct cap_rule,
                          cap_for ms me mc (investment_type pos)
                          = Some (cap_pct, cap_rule)
                          /\ get_ctv pos / ptv * 100 <= cap_pct) positions).
  { destruct HU as [HU|HU]; [|apply cap_uncapped_false, HU].
    apply Forall_forall. intros pos Hin C. exfalso.
    assert (Hu : In pos (uncapped_of positions)).
    { apply filter_In. split; [apply list_elem_of_In, Hin|]. rewrite C. reflexivity. }
    rewrite HU in Hu. exact Hu. }
  rewrite Forall_forall in *. intros pos Hin cap_pct cap_rule T.
  destruct (get_is_capped pos) eqn:C.
  - specialize (HC pos Hin C). rewrite T in HC. destruct HC as [-> _].
    apply Qle_refl.
  - destruct (HF pos Hin C) as (c & r & T' & L).
    rewrite T in T'. injection T' as <- <-.
    apply pct_within_cap, L.
Qed.

End CapRespected.

(** C1 (cap respected).  Whenever the allocator, entered at iteration 0,
    stops because a pass capped nothing (the "Converged" exit; the exit
    on an empty uncapped set is covered too), the constrained target
    value of every returned position of type Stock, ETF or Crypto is at
    most [cap_pct / 100 * portfolio_target_value], [cap_pct] being the
    rule of its type.  In exact arithmetic no epsilon is needed. *)
Theorem cap_respected
    (positions : list position) (portfolio_target_value : Q)
    (max_stock_pct max_etf_pct : Q) (portfolio_name : string)
    (max_iterations : nat) (max_crypto_pct : Q)
    (out : list position) (ev : log_event) :
  _apply_type_constraints_recursive positions portfolio_target_value
    max_stock_pct max_etf_pct portfolio_name 0 max_iterations max_crypto_pct
  = (out, ev) ->
  (exists passes, ev = LogConverged passes) \/ ev = LogAllCapped ->
  Forall (within_cap portfolio_target_value max_stock_pct max_etf_pct
                     max_crypto_pct) out.
Proof.
  unfold _apply_type_constraints_recursive. rewrite Nat.sub_0_r.
  intros Hrun Hev.
  destruct max_iterations as [|fuel].
  { simpl in Hrun. injection Hrun as _ <-.
    destruct Hev as [[? ?]|?]; discriminate. }
  destruct (Qle_bool portfolio_target_value 0) eqn:P.
  { simpl in Hrun. rewrite P in Hrun. injection Hrun as _ <-.
    destruct Hev as [[? ?]|?]; discriminate. }
  apply Qle_bool_gt in P.
  pose proof (constraints_loop_exit_0 portfolio_target_value max_stock_pct
                max_etf_pct max_crypto_pct P
                (Forall (capped_at_cap portfolio_target_value max_stock_pct
                                       max_etf_pct max_crypto_pct))
                (fun ps H _ _ _ => pass_capped_at_cap _ _ _ _ ps H)
                fuel positions (init_meta_capped_at_cap _ _ _ _ positions)) as X.
  rewrite Hrun in X. simpl in X.
  destruct Hev as [[passes ->]| ->]; simpl in X.
  - destruct X as (HC & _ & _ & S).
    apply within_cap_at_fixpoint; auto.
  - destruct X as (HC & U).
    apply within_cap_at_fixpoint; auto.
Qed.

Lemma cap_respected_witness :
  Forall (within_cap 10000 50 5 5)
         (fst (_apply_type_constraints_recursive scenario_A 10000 50 5 "A" 0 100 5)).
Proof.
  apply (cap_respected scenario_A 10000 50 5 "A" 100 5 _ (LogConverged 2)).
  - vm_compute. reflexivity.
  - left. exists 2%nat. reflexivity.
Defined.

(** ** Redistribution shape *)

Lemma capped_before_capped_after (ptv ms me mc : Q) (positions : list position) :
  uncapped_of (fst (cap_uncapped ptv ms me mc positions)) <> [] ->
  uncapped_of positions <> [].
Proof.
  rewrite cap_uncapped_fst. unfold uncapped_of.
  induction positions as [|pos rest IH]; [auto|].
  cbn [map List.filter]. destruct (get_is_capped pos) eqn:C.
  - rewrite (cap_step_is_capped _ _ _ _ _ C), C. cbn [negb]. exact IH.
  - intros _. cbn [negb]. discriminate.
Qed.

Lemma assign_uncapped_shares (share : position -> Q) (positions : list position) :
  Forall2 (fun pos pos' =>
             (get_is_capped pos = true -> pos' = pos)
             /\ (get_is_capped pos = false ->
                 get_is_capped pos' = false
                 /\ get_utv pos' = get_utv pos
                 /\ get_ctv pos' = share pos))
          positions (assign_uncapped share positions).
Proof.
  unfold assign_uncapped.
  induction positions as [|pos rest IH]; simpl; constructor; auto.
  destruct (get_is_capped pos) eqn:C; split; intros; try discriminate;
    [reflexivity|].
  split; [exact C|]. split; reflexivity.
Qed.

(** C3 (redistribution shape), as the code has it.  Take a pass of the
    allocator: the portfolio target value is positive, and the value
    left by the positions capped so far is positive (lines 55 and 89).
    If the capping loop of the pass capped at least one position, some
    position is still uncapped and the remaining capacity is positive,
    then the run goes on with the redistributed positions, in which the
    capped positions are untouched and each uncapped position carries
    its original [unconstrained_target_value], divided by the sum of the
    original values of the uncapped positions, times the remaining
    capacity, when that sum is positive; when that sum is 0 or negative
    each of them carries an equal part of the remaining capacity. *)
Theorem redistribution_shape
    (portfolio_target_value max_stock_pct max_etf_pct max_crypto_pct : Q)
    (fuel iteration : nat) (positions : list position) :
  let start :=
    if Nat.eqb iteration 0 then map init_meta positions else positions in
  let positions1 :=
    fst (cap_uncapped portfolio_target_value max_stock_pct max_etf_pct
                      max_crypto_pct start) in
  let positions2 := redistribute portfolio_target_value positions1 in
  0 < portfolio_target_value ->
  0 < portfolio_target_value
      - Qsum (map get_ctv (List.filter get_is_capped start)) ->
  snd (cap_uncapped portfolio_target_value max_stock_pct max_etf_pct
                    max_crypto_pct start) = true ->
  List.filter (fun p => negb (get_is_capped p)) positions1 <> [] ->
  0 < portfolio_target_value
      - Qsum (map get_ctv (List.filter get_is_capped positions1)) ->
  constraints_loop portfolio_target_value max_stock_pct max_etf_pct
                   max_crypto_pct (S fuel) iteration positions
  = constraints_loop portfolio_target_value max_stock_pct max_etf_pct
                     max_crypto_pct fuel (S iteration) positions2
  /\ Forall2 (fun pos pos' =>
                (get_is_capped pos = true -> pos' = pos)
                /\ (get_is_capped pos = false ->
                    redistributed_share portfolio_target_value positions1
                                        pos pos'))
             positions1 positions2.
Proof.
  intros start positions1 positions2 P A0 Capped U A. split.
  - cbn [constraints_loop]. fold start.
    rewrite (proj2 (Qle_bool_gt _ _) P).
    pose proof (capped_before_capped_after _ _ _ _ _ U) as U0.
    destruct (uncapped_of start) as [|u us] eqn:E; [contradiction|].
    change (0 < available_value portfolio_target_value start) in A0.
    rewrite (proj2 (Qle_bool_gt _ _) A0), Capped. reflexivity.
  - change (uncapped_of positions1 <> []) in U.
    change (0 < available_value portfolio_target_value positions1) in A.
    unfold positions2.
    destruct (redistribute_cases portfolio_target_value positions1)
      as [[_ [E|E]]|[(_ & _ & T & E)|(_ & _ & T & E)]].
    + contradiction.
    + lra.
    + rewrite E. eapply Forall2_impl; [apply assign_uncapped_shares|].
      cbv beta. intros pos pos' [H1 H2]. split; [exact H1|].
      intros C. destruct (H2 C) as (C' & W & V).
      unfold redistributed_share. cbv zeta.
      change (Qsum (map get_utv
                (List.filter (fun p => negb (get_is_capped p)) positions1)))
        with (total_uncapped_weight positions1).
      change (portfolio_target_value
              - Qsum (map get_ctv (List.filter get_is_capped positions1)))
        with (available_value portfolio_target_value positions1).
      split; [exact C'|]. split; [exact W|]. split.
      * intros _. rewrite V. reflexivity.
      * intros Z. lra.
    + rewrite E. eapply Forall2_impl; [apply assign_uncapped_shares|].
      cbv beta. intros pos pos' [H1 H2]. split; [exact H1|].
      intros C. destruct (H2 C) as (C' & W & V).
      unfold redistributed_share. cbv zeta.
      change (Qsum (map get_utv
                (List.filter (fun p => negb (get_is_capped p)) positions1)))
        with (total_uncapped_weight positions1).
      change (portfolio_target_value
              - Qsum (map get_ctv (List.filter get_is_capped positions1)))
        with (available_value portfolio_target_value positions1).
      split; [exact C'|]. split; [exact W|]. split.
      * intros Z. lra.
      * intros _. rewrite V. reflexivity.
Qed.

Lemma redistribution_shape_witness :
  let positions1 :=
    fst (cap_uncapped 100 20 40 5 (map init_meta uneven_positions)) in
  let positions2 := redistribute 100 positions1 in
  constraints_loop 100 20 40 5 100 0 uneven_positions
  = constraints_loop 100 20 40 5 99 1 positions2
  /\ Forall2 (fun pos pos' =>
                (get_is_capped pos = true -> pos' = pos)
                /\ (get_is_capped pos = false ->
                    redistributed_share 100 positions1 pos pos'))
             positions1 positions2.
Proof.
  apply (redistribution_shape 100 20 40 5 99 0 uneven_positions).
  - reflexivity.
  - vm_compute. reflexivity.
  - vm_compute. reflexivity.
  - vm_compute. discriminate.
  - vm_compute. reflexivity.
Defined.

(** The redistribution of the witness: the ETF is capped at 40, and the
    60 that remain go to the two others in the proportion of their
    original targets, 5 to 15. *)
Example uneven_positions_evaluation :
  map (fun pos => (name pos, get_is_capped pos, Qred (get_ctv pos)))
      (redistribute 100
         (fst (cap_uncapped 100 20 40 5 (map init_meta uneven_positions))))
  = [("C"%string, true, 40); ("A"%string, false, 15); ("B"%string, false, 45)].
Proof. vm_compute. reflexivity. Qed.

(** C3 as stated fails where the original targets of the uncapped
    positions add up to less than 0.  With targets of -10 and 5 beside
    an ETF that is capped at 40 of 100, the sum is -5, which is not 0,
    and 60 remain; the test of line 152 is [total_uncapped_weight > 0],
    so each of the two gets the equal part, 30, and not its part in
    proportion, which would be 120 and -60. *)
Lemma redistribution_shape_counterexample :
  let start := map init_meta negative_sum_positions in
  let positions1 := fst (cap_uncapped 100 20 40 5 start) in
  let positions2 := redistribute 100 positions1 in
  constraints_loop 100 20 40 5 100 0 negative_sum_positions
  = constraints_loop 100 20 40 5 99 1 positions2
  /\ snd (cap_uncapped 100 20 40 5 start) = true
  /\ map get_is_capped positions1 = [true; false; false]
  /\ Qsum (map get_utv
               (List.filter (fun p => negb (get_is_capped p)) positions1))
     == -5
  /\ 100 - Qsum (map get_ctv (List.filter get_is_capped positions1)) == 60
  /\ map (fun pos => Qred (get_ctv pos)) positions2 = [40; 30; 30]
  /\ ~ Forall2 (fun pos pos' =>
                  get_is_capped pos = false ->
                  proportional_share 100 positions1 pos pos')
               positions1 positions2.
Proof.
  cbv zeta. split; [vm_compute; reflexivity|].
  split; [vm_compute; reflexivity|]. split; [vm_compute; reflexivity|].
  split; [vm_compute; reflexivity|]. split; [vm_compute; reflexivity|].
  split; [vm_compute; reflexivity|].
  intros H. apply Forall2_cons_1 in H as [_ H].
  apply Forall2_cons_1 in H as [H _].
  specialize (H eq_refl). vm_compute in H. discriminate H.
Qed.

(** ** Conservation *)

Lemma exit_state_Inv (ptv ms me mc : Q) (Inv : list position -> Prop)
      (out : list position) (ev : log_event) :
  exit_state ptv ms me mc Inv out ev -> Inv out.
Proof. destruct ev; simpl; tauto. Qed.

Section Conservation.

Variable ptv : Q.
Variables ms me mc : Q.
Hypothesis ptv_pos : 0 < ptv.

Lemma redistribute_is_capped (positions : list position) :
  map get_is_capped (redistribute ptv positions) = map get_is_capped positions.
Proof.
  assert (G : forall share,
             map get_is_capped (assign_uncapped share positions)
             = map get_is_capped positions).
  { intros share. unfold assign_uncapped. rewrite map_map.
    apply map_ext. intros pos. destruct (get_is_capped pos) eqn:C; auto. }
  destruct (redistribute_cases ptv positions)
    as [[E _]|[(_ & _ & _ & E)|(_ & _ & _ & E)]]; rewrite E; auto.
Qed.

(** Monotonic capping across a pass: a pass that caps something leaves
    a capped position behind. *)
Lemma pass_some_capped (positions : list position) :
  snd (cap_uncapped ptv ms me mc positions) = true ->
  Exists (fun b => b = true)
         (map get_is_capped
              (redistribute ptv (fst (cap_uncapped ptv ms me mc positions)))).
Proof.
  rewrite redistribute_is_capped, cap_uncapped_fst, cap_uncapped_snd, map_map.
  induction positions as [|pos rest IH]; simpl; [discriminate|].
  intros H. apply orb_true_iff in H as [H|H].
  - apply Exists_cons_hd. apply andb_true_iff in H as [C S].
    apply negb_true_iff in C. unfold cap_step. rewrite C.
    destruct (cap_position_cases ptv ms me mc pos)
      as [[_ E]|[(c & r & _ & _ & E)|(c & r & _ & _ & E)]];
      rewrite E in *; simpl in *; try reflexivity; discriminate.
  - apply Exists_cons_tl, IH, H.
Qed.

Lemma pass_keeps_capped (positions : list position) :
  Exists (fun b => b = true) (map get_is_capped positions) ->
  Exists (fun b => b = true)
         (map get_is_capped
              (redistribute ptv (fst (cap_uncapped ptv ms me mc positions)))).
Proof.
  rewrite redistribute_is_capped, cap_uncapped_fst, map_map.
  induction positions as [|pos rest IH]; simpl; intros H;
    inversion H; subst.
  - apply Exists_cons_hd. unfold cap_step. rewrite H1. exact H1.
  - apply Exists_cons_tl, IH. assumption.
Qed.

(** If a run returns no capped position, it stopped in its first pass
    and returned the positions as it initialised them. *)
Lemma uncapped_run (fuel : nat) (positions : list position) :
  Forall (fun pos => get_is_capped pos = false)
         (fst (constraints_loop ptv ms me mc (S fuel) 0 positions)) ->
  fst (constraints_loop ptv ms me mc (S fuel) 0 positions)
  = map init_meta positions.
Proof.
  simpl. rewrite (proj2 (Qle_bool_gt _ _) ptv_pos).
  destruct (uncapped_of (map init_meta positions)) as [|u us];
    [reflexivity|].
  destruct (Qle_bool (available_value ptv (map init_meta positions)) 0);
    [reflexivity|].
  destruct (snd (cap_uncapped ptv ms me mc (map init_meta positions))) eqn:S.
  - intros H. exfalso.
    pose proof (constraints_loop_exit ptv ms me mc ptv_pos
                  (fun ps => Exists (fun b => b = true) (map get_is_capped ps))
                  (fun ps Hps _ _ _ => pass_keeps_capped ps Hps)
                  fuel 1 _ (Nat.neq_succ_0 0) (pass_some_capped _ S)) as X.
    apply exit_state_Inv in X.
    apply Exists_exists in X as (b & Hb & ->).
    apply list_elem_of_In, in_map_iff in Hb as (pos & C & Hin).
    rewrite Forall_forall in H. apply list_elem_of_In, H in Hin. congruence.
  - intros _. simpl. apply cap_uncapped_unchanged, S.
Qed.

Lemma cap_below_value (v cap_pct : Q) :
  cap_pct < v / ptv * 100 -> cap_pct / 100 * ptv <= v.
Proof.
  intros H.
  assert (E : v == v / ptv * ptv) by (field; lra).
  rewrite Qdiv_100.
  set (t := v / ptv) in *.
  assert (0 <= (t - cap_pct * (1 # 100)) * ptv)
    by (apply Qmult_le_0_compat; lra).
  lra.
Qed.

(** The capping loop never raises a constrained value. *)
Lemma cap_step_ctv_le (pos : position) :
  (get_is_capped pos = false -> 0 <= get_ctv pos) ->
  get_ctv (cap_step ptv ms me mc pos) <= get_ctv pos.
Proof.
  intros H. unfold cap_step. destruct (get_is_capped pos) eqn:C;
    [apply Qle_refl|].
  destruct (cap_position_cases ptv ms me mc pos)
    as [[_ E]|[(c & r & _ & L & E)|(c & r & _ & _ & E)]];
    rewrite E; simpl.
  - auto.
  - apply cap_below_value, L.
  - apply Qle_refl.
Qed.

Lemma cap_step_nonneg (pos : position) :
  0 <= get_utv pos /\ (get_is_capped pos = false -> 0 <= get_ctv pos) ->
  0 <= get_utv (cap_step ptv ms me mc pos)
  /\ (get_is_capped (cap_step ptv ms me mc pos) = false ->
      0 <= get_ctv (cap_step ptv ms me mc pos)).
Proof.
  intros [U V]. rewrite cap_step_utv. split; [exact U|].
  unfold cap_step. destruct (get_is_capped pos) eqn:C; [congruence|].
  destruct (cap_position_cases ptv ms me mc pos)
    as [[_ E]|[(c & r & _ & L & E)|(c & r & _ & _ & E)]];
    rewrite E; simpl; try discriminate. auto.
Qed.

Lemma assign_uncapped_nonneg (share : position -> Q) (positions : list position) :
  (forall pos, 0 <= get_utv pos -> 0 <= share pos) ->
  Forall (fun pos => 0 <= get_utv pos
                     /\ (get_is_capped pos = false -> 0 <= get_ctv pos))
         positions ->
  Forall (fun pos => 0 <= get_utv pos
                     /\ (get_is_capped pos = false -> 0 <= get_ctv pos))
         (assign_uncapped share positions).
Proof.
  intros Hs H. unfold assign_uncapped. apply Forall_map.
  eapply Forall_impl; [exact H|]. simpl. intros pos [U V].
  destruct (get_is_capped pos) eqn:C.
  - split; [exact U|]. intros C'. congruence.
  - split; [exact U|]. intros _. apply Hs, U.
Qed.

Lemma pass_bounded_state (positions : list position) :
  bounded_state ptv positions ->
  bounded_state ptv
    (redistribute ptv (fst (cap_uncapped ptv ms me mc positions))).
Proof.
  intros [HF HS]. rewrite cap_uncapped_fst.
  set (positions1 := map (cap_step ptv ms me mc) positions).
  assert (HF1 : Forall (fun pos => 0 <= get_utv pos
                          /\ (get_is_capped pos = false -> 0 <= get_ctv pos))
                       positions1).
  { apply Forall_map. eapply Forall_impl; [exact HF|]. apply cap_step_nonneg. }
  assert (HS1 : Qsum (map get_ctv positions1) <= ptv).
  { unfold positions1. rewrite map_map.
    eapply Qle_trans; [|exact HS].
    apply Qsum_map_le. eapply Forall_impl; [exact HF|].
    simpl. intros pos [_ V]. apply cap_step_ctv_le, V. }
  destruct (redistribute_cases ptv positions1)
    as [[E _]|[(U & A & T & E)|(U & A & T & E)]].
  - rewrite E. split; assumption.
  - split.
    + rewrite E. apply assign_uncapped_nonneg; [|exact HF1].
      intros pos Hu. apply Qmult_le_0_compat; [|lra].
      apply Qle_shift_div_l; lra.
    + rewrite (redistribute_sum ptv positions1 U A). apply Qle_refl.
  - split.
    + rewrite E. apply assign_uncapped_nonneg; [|exact HF1].
      intros pos _.
      destruct (uncapped_of positions1) as [|u us] eqn:Un; [contradiction|].
      pose proof (inject_length_pos u us) as L.
      apply Qle_shift_div_l; lra.
    + rewrite (redistribute_sum ptv positions1 U A). apply Qle_refl.
Qed.

Lemma init_bounded_state (positions : list position) :
  Forall (fun pos => 0 <= get_targetValue pos) positions ->
  Qsum (map get_targetValue positions) <= ptv ->
  bounded_state ptv (map init_meta positions).
Proof.
  intros HN HS. split.
  - apply Forall_map. eapply Forall_impl; [exact HN|]. simpl. auto.
  - rewrite map_map. exact HS.
Qed.

End Conservation.

(** C2 (conservation), as the code has it.  For a portfolio with a
    positive target value: if the run returns no capped position, every
    constrained value is the position's unconstrained value, so the two
    sums agree, and they are the sum of the input target values (which
    is the portfolio target value only when the input targets add up to
    it); and if some position is capped, and the input targets are not
    negative and add up to at most the portfolio target value, the
    constrained values add up to at most the portfolio target value. *)
Theorem sum_conservation
    (positions : list position) (portfolio_target_value : Q)
    (max_stock_pct max_etf_pct : Q) (portfolio_name : string)
    (max_iterations : nat) (max_crypto_pct : Q) :
  0 < portfolio_target_value ->
  (0 < max_iterations)%nat ->
  let out :=
    fst (_apply_type_constraints_recursive positions portfolio_target_value
           max_stock_pct max_etf_pct portfolio_name 0 max_iterations
           max_crypto_pct) in
  (Forall (fun pos => get_is_capped pos = false) out ->
   Qsum (map get_ctv out) == Qsum (map get_utv out)
   /\ Qsum (map get_utv out) == Qsum (map get_targetValue positions))
  /\ (Exists (fun pos => get_is_capped pos = true) out ->
      Forall (fun pos => 0 <= get_targetValue pos) positions ->
      Qsum (map get_targetValue positions) <= portfolio_target_value ->
      Qsum (map get_ctv out) <= portfolio_target_value).
Proof.
  intros P M. cbv zeta. unfold _apply_type_constraints_recursive.
  rewrite Nat.sub_0_r.
  destruct max_iterations as [|fuel]; [lia|]. split.
  - intros H.
    rewrite (uncapped_run _ _ _ _ P fuel positions H), !map_map. simpl.
    split; reflexivity.
  - intros _ HN HS.
    pose proof (constraints_loop_exit_0 portfolio_target_value max_stock_pct
                  max_etf_pct max_crypto_pct P
                  (bounded_state portfolio_target_value)
                  (fun ps H _ _ _ => pass_bounded_state _ _ _ _ P ps H)
                  fuel positions
                  (init_bounded_state _ positions HN HS)) as X.
    apply exit_state_Inv in X. exact (proj2 X).
Qed.

Lemma sum_conservation_witness :
  let out := fst (_apply_type_constraints_recursive scenario_A 10000 50 5 "A" 0 100 5) in
  (Forall (fun pos => get_is_capped pos = false) out ->
   Qsum (map get_ctv out) == Qsum (map get_utv out)
   /\ Qsum (map get_utv out) == Qsum (map get_targetValue scenario_A))
  /\ (Exists (fun pos => get_is_capped pos = true) out ->
      Forall (fun pos => 0 <= get_targetValue pos) scenario_A ->
      Qsum (map get_targetValue scenario_A) <= 10000 ->
      Qsum (map get_ctv out) <= 10000).
Proof.
  apply (sum_conservation scenario_A 10000 50 5 "A" 100 5).
  - reflexivity.
  - lia.
Defined.

(** C2 as stated fails on both of its halves.  A single stock targeted
    at 25 in a portfolio worth 100 is never capped (its cap is 50%), and
    the constrained values add up to 25, not to 100.  Three stocks
    targeted at 60 each with a cap of 50% are all capped at 50, and the
    constrained values add up to 150, above the 100 of the portfolio. *)
Lemma sum_conservation_counterexample :
  (let out := fst (_apply_type_constraints_recursive one_stock 100 50 5 "P" 0 100 5) in
   0 < 100
   /\ Forall (fun pos => get_is_capped pos = false) out
   /\ ~ Qsum (map get_ctv out) == 100)
  /\ (let out := fst (_apply_type_constraints_recursive three_stocks 100 50 5 "P" 0 100 5) in
      0 < 100
      /\ Exists (fun pos => get_is_capped pos = true) out
      /\ ~ Qsum (map get_ctv out) <= 100).
Proof.
  split; simpl; (split; [reflexivity|split]).
  - repeat constructor.
  - vm_compute. discriminate.
  - apply Exists_cons_hd. vm_compute. reflexivity.
  - vm_compute. intros H. apply H. reflexivity.
Qed.

(** ** Running the allocator on its own result *)

Section FirstRun.

Variable ptv : Q.
Variables ms me mc : Q.
Hypothesis ptv_pos : 0 < ptv.

Lemma pass_handed_out (positions : list position) :
  handed_out ptv (redistribute ptv positions).
Proof.
  unfold handed_out.
  destruct (redistribute_cases ptv positions)
    as [[E [U|A]]|[(U & A & _ & _)|(U & A & _ & _)]].
  - rewrite E. auto.
  - rewrite E. auto.
  - right; right; right. apply redistribute_sum; assumption.
  - right; right; right. apply redistribute_sum; assumption.
Qed.

Lemma init_handed_out (positions : list position) :
  handed_out ptv (map init_meta positions).
Proof.
  left. apply Forall_map, Forall_forall. reflexivity.
Qed.

(** What a run that ends on the "Converged" message returns. *)
Lemma converged_run (fuel : nat) (positions out : list position) (passes : nat) :
  constraints_loop ptv ms me mc (S fuel) 0 positions = (out, LogConverged passes) ->
  Forall (settled ptv ms me mc) out
  /\ Exists (fun pos => known_type ms me mc pos = true) out
  /\ (Forall (fun pos => known_type ms me mc pos = true) out
      \/ Qsum (map get_ctv out) == ptv).
Proof.
  intros Hrun.
  pose proof (constraints_loop_exit_0 ptv ms me mc ptv_pos
                (fun ps => Forall (capped_at_cap ptv ms me mc) ps
                           /\ handed_out ptv ps)
                (fun ps H _ _ _ =>
                   conj (pass_capped_at_cap ptv ms me mc ps (proj1 H))
                        (pass_handed_out _))
                fuel positions
                (conj (init_meta_capped_at_cap ptv ms me mc positions)
                      (init_handed_out positions))) as X.
  rewrite Hrun in X. simpl in X. destruct X as ([HC HJ] & U & A & S).
  pose proof (cap_uncapped_false ptv ms me mc out S) as HF.
  assert (HK : Forall (fun pos => get_is_capped pos = false ->
                                  known_type ms me mc pos = true) out).
  { eapply Forall_impl; [exact HF|]. simpl. intros pos H C.
    destruct (H C) as (c & r & T & _). unfold known_type. rewrite T.
    reflexivity. }
  split; [|split].
  - rewrite Forall_forall in *. intros pos Hin. unfold settled.
    specialize (HC pos Hin). unfold capped_at_cap in HC.
    specialize (HF pos Hin).
    destruct (get_is_capped pos) eqn:C.
    + specialize (HC eq_refl).
      destruct (cap_for ms me mc (investment_type pos)) as [[c r]|].
      * destruct HC as [-> _]. apply Qle_lteq. right. field. lra.
      * destruct HC as [-> _]. auto.
    + destruct (HF eq_refl) as (c & r & -> & L). exact L.
  - destruct (uncapped_of out) as [|u us] eqn:Un; [contradiction|].
    assert (Hu : In u (uncapped_of out)) by (rewrite Un; left; reflexivity).
    apply filter_In in Hu as [Hin C]. apply negb_true_iff in C.
    apply Exists_exists. exists u. split; [apply list_elem_of_In, Hin|].
    rewrite Forall_forall in HK. apply HK; [apply list_elem_of_In, Hin|exact C].
  - destruct HJ as [HJ|[HJ|[HJ|HJ]]].
    + left. rewrite Forall_forall in *. intros pos Hin. apply HK; auto.
    + contradiction.
    + lra.
    + right. exact HJ.
Qed.

End FirstRun.

Lemma filter_map_comm {A B} (f : B -> bool) (g : A -> B) (l : list A) :
  List.filter f (map g l) = map g (List.filter (fun a => f (g a)) l).
Proof.
  induction l as [|a l IH]; simpl; [reflexivity|].
  destruct (f (g a)); simpl; rewrite IH; reflexivity.
Qed.

Lemma filter_ext_Forall {A} (f g : A -> bool) (l : list A) :
  Forall (fun a => f a = g a) l -> List.filter f l = List.filter g l.
Proof.
  induction 1 as [|a l Ha _ IH]; simpl; [reflexivity|].
  rewrite Ha, IH. reflexivity.
Qed.

Section SecondRun.

Variable ptv : Q.
Variables ms me mc : Q.
Hypothesis ptv_pos : 0 < ptv.

Lemma cap_position_restart (pos : position) :
  settled ptv ms me mc pos ->
  cap_position ptv ms me mc (restart pos)
  = (recapped ms me mc pos, negb (known_type ms me mc pos)).
Proof.
  unfold settled, cap_position, recapped, known_type.
  change (investment_type (restart pos)) with (investment_type pos).
  change (get_ctv (restart pos)) with (get_ctv pos).
  destruct (cap_for ms me mc (investment_type pos)) as [[c r]|].
  - intros L. apply Qltb_ge in L. rewrite L. reflexivity.
  - reflexivity.
Qed.

Lemma cap_uncapped_restart (out : list position) :
  Forall (settled ptv ms me mc) out ->
  cap_uncapped ptv ms me mc (map restart out)
  = (map (recapped ms me mc) out,
     existsb (fun pos => negb (known_type ms me mc pos)) out).
Proof.
  induction 1 as [|pos out Hp _ IH]; simpl; [reflexivity|].
  rewrite IH, (cap_position_restart _ Hp). reflexivity.
Qed.

Lemma available_value_restart (out : list position) :
  available_value ptv (map restart out) == ptv.
Proof.
  unfold available_value, capped_of.
  rewrite filter_map_comm.
  assert (E : List.filter (fun a => get_is_capped (restart a)) out = [])
    by (induction out; simpl; auto).
  rewrite E. unfold Qsum. simpl. lra.
Qed.

Lemma uncapped_of_restart (out : list position) :
  uncapped_of (map restart out) = map restart out.
Proof.
  unfold uncapped_of. induction out as [|pos out IH]; simpl; [reflexivity|].
  fold (restart pos). rewrite IH. reflexivity.
Qed.

(** When every returned position has a known type the second run
    stops in its first pass. *)
Lemma second_run_known (fuel : nat) (out : list position) :
  out <> [] ->
  Forall (settled ptv ms me mc) out ->
  Forall (fun pos => known_type ms me mc pos = true) out ->
  constraints_loop ptv ms me mc (S fuel) 0 (map as_new_input out)
  = (map restart out, LogConverged 1).
Proof.
  intros Hne HS HK. simpl.
  rewrite (proj2 (Qle_bool_gt _ _) ptv_pos), map_map.
  change (map (fun x => init_meta (as_new_input x)) out) with (map restart out).
  rewrite uncapped_of_restart.
  destruct (map restart out) as [|u us] eqn:E.
  { destruct out; [contradiction|discriminate]. }
  rewrite <- E.
  assert (A : Qle_bool (available_value ptv (map restart out)) 0 = false).
  { apply Qle_bool_gt. rewrite available_value_restart. exact ptv_pos. }
  rewrite A, (cap_uncapped_restart _ HS). simpl.
  replace (existsb (fun pos => negb (known_type ms me mc pos)) out) with false.
  - assert (R : map (recapped ms me mc) out = map restart out).
    { clear -HK. induction HK as [|pos out Hp _ IH]; simpl; [reflexivity|].
      unfold recapped at 1. rewrite Hp, IH. reflexivity. }
    rewrite R. reflexivity.
  - clear -HK. induction HK as [|pos out Hp _ IH]; simpl; [reflexivity|].
    rewrite Hp. simpl. exact IH.
Qed.


Lemma recapped_is_capped (pos : position) :
  get_is_capped (recapped ms me mc pos) = negb (known_type ms me mc pos).
Proof. unfold recapped. destruct (known_type ms me mc pos); reflexivity. Qed.

Lemma reshared_is_capped (total available : Q) (pos : position) :
  get_is_capped (reshared ms me mc total available pos)
  = negb (known_type ms me mc pos).
Proof. unfold reshared. destruct (known_type ms me mc pos); reflexivity. Qed.

Lemma available_value_unknown_capped (f : position -> position)
      (out : list position) :
  (forall pos, get_is_capped (f pos) = negb (known_type ms me mc pos)) ->
  (forall pos, known_type ms me mc pos = false -> get_ctv (f pos) = 0) ->
  available_value ptv (map f out) == ptv.
Proof.
  intros Hc Hz. unfold available_value, capped_of.
  rewrite filter_map_comm, map_map.
  rewrite (Qsum_map_ext _ (fun _ => 0)).
  - rewrite Qsum_map_const. lra.
  - apply Forall_forall. intros pos Hin.
    apply list_elem_of_In, filter_In in Hin as [_ C].
    rewrite Hc in C. apply negb_true_iff in C. rewrite (Hz pos C). reflexivity.
Qed.

Lemma uncapped_of_known (f : position -> position) (out : list position) :
  (forall pos, get_is_capped (f pos) = negb (known_type ms me mc pos)) ->
  uncapped_of (map f out) = map f (List.filter (known_type ms me mc) out).
Proof.
  intros Hc. unfold uncapped_of. rewrite filter_map_comm. f_equal.
  apply filter_ext_Forall, Forall_forall. intros pos _.
  rewrite Hc. apply negb_involutive.
Qed.

Lemma filter_known_nonempty (out : list position) :
  Exists (fun pos => known_type ms me mc pos = true) out ->
  List.filter (known_type ms me mc) out <> [].
Proof.
  intros H. apply Exists_exists in H as (pos & Hin & K).
  intros E. assert (Hf : In pos (List.filter (known_type ms me mc) out)).
  { apply filter_In. split; [apply list_elem_of_In, Hin|exact K]. }
  rewrite E in Hf. exact Hf.
Qed.

(** The positions of unknown type hold nothing, so the positions of
    known type hold the whole sum. *)
Lemma total_uncapped_weight_recapped (out : list position) :
  Forall (settled ptv ms me mc) out ->
  total_uncapped_weight (map (recapped ms me mc) out)
  == Qsum (map get_ctv out).
Proof.
  intros HS. unfold total_uncapped_weight.
  rewrite (uncapped_of_known _ _ recapped_is_capped), map_map.
  rewrite (Qsum_filter_split get_ctv (known_type ms me mc) out).
  rewrite (Qsum_map_ext get_ctv (fun _ => 0)
             (List.filter (fun a => negb (known_type ms me mc a)) out)).
  - rewrite Qsum_map_const.
    rewrite (Qsum_map_ext (fun x => get_utv (recapped ms me mc x)) get_ctv).
    + lra.
    + apply Forall_forall. intros pos _. unfold recapped.
      destruct (known_type ms me mc pos); reflexivity.
  - apply Forall_forall. intros pos Hin.
    apply list_elem_of_In, filter_In in Hin as [Hin K].
    apply negb_true_iff in K.
    rewrite Forall_forall in HS. apply list_elem_of_In, HS in Hin.
    unfold settled in Hin. unfold known_type in K.
    destruct (cap_for ms me mc (investment_type pos)) as [[c r]|];
      [discriminate|].
    destruct Hin as [_ ->]. reflexivity.
Qed.

Lemma redistribute_recapped (out : list position) :
  Exists (fun pos => known_type ms me mc pos = true) out ->
  0 < total_uncapped_weight (map (recapped ms me mc) out) ->
  redistribute ptv (map (recapped ms me mc) out)
  = map (reshared ms me mc
           (total_uncapped_weight (map (recapped ms me mc) out))
           (available_value ptv (map (recapped ms me mc) out)))
        out.
Proof.
  intros HK HT.
  assert (HA : available_value ptv (map (recapped ms me mc) out) == ptv).
  { apply available_value_unknown_capped; [apply recapped_is_capped|].
    intros pos K. unfold recapped. rewrite K. reflexivity. }
  assert (HU : uncapped_of (map (recapped ms me mc) out) <> []).
  { rewrite (uncapped_of_known _ _ recapped_is_capped).
    intros E. apply map_eq_nil in E.
    exact (filter_known_nonempty _ HK E). }
  destruct (redistribute_cases ptv (map (recapped ms me mc) out))
    as [[_ [E|E]]|[(_ & _ & _ & E)|(_ & _ & T & _)]].
  - contradiction.
  - lra.
  - rewrite E. unfold assign_uncapped. rewrite map_map.
    apply map_ext. intros pos. rewrite recapped_is_capped.
    unfold reshared, recapped.
    destruct (known_type ms me mc pos); reflexivity.
  - lra.
Qed.

Lemma cap_position_reshared (total available : Q) (pos : position) :
  total == ptv -> available == ptv ->
  settled ptv ms me mc pos ->
  negb (get_is_capped (reshared ms me mc total available pos))
  && snd (cap_position ptv ms me mc (reshared ms me mc total available pos))
  = false.
Proof.
  intros HT HA. rewrite reshared_is_capped, negb_involutive.
  unfold settled, reshared, known_type, cap_position.
  destruct (cap_for ms me mc (investment_type pos)) as [[c r]|] eqn:T;
    [|reflexivity].
  intros L. simpl. rewrite T.
  assert (F : Qltb c (get_ctv (set_ctv (restart pos)
                                 (get_ctv pos / total * available))
                      / ptv * 100) = false).
  { apply Qltb_ge.
    change (get_ctv (set_ctv (restart pos) (get_ctv pos / total * available)))
      with (get_ctv pos / total * available).
    rewrite HT, HA.
    assert (E : get_ctv pos / ptv * ptv / ptv * 100 == get_ctv pos / ptv * 100)
      by (field; lra).
    rewrite E. exact L. }
  rewrite F. reflexivity.
Qed.

(** When some returned position has an unknown type, the second run
    caps it again in its first pass, hands every other position its
    own value back, and stops in its second pass. *)
Lemma second_run_unknown (fuel : nat) (out : list position) :
  Forall (settled ptv ms me mc) out ->
  Exists (fun pos => known_type ms me mc pos = true) out ->
  Exists (fun pos => known_type ms me mc pos = false) out ->
  Qsum (map get_ctv out) == ptv ->
  exists total available,
    total == ptv /\ available == ptv
    /\ constraints_loop ptv ms me mc (S (S fuel)) 0 (map as_new_input out)
       = (map (reshared ms me mc total available) out, LogConverged 2).
Proof.
  intros HS HK HU Hsum.
  set (total := total_uncapped_weight (map (recapped ms me mc) out)).
  set (available := available_value ptv (map (recapped ms me mc) out)).
  assert (HT : total == ptv).
  { unfold total. rewrite total_uncapped_weight_recapped; assumption. }
  assert (HA : available == ptv).
  { apply available_value_unknown_capped; [apply recapped_is_capped|].
    intros pos K. unfold recapped. rewrite K. reflexivity. }
  exists total, available. split; [exact HT|]. split; [exact HA|].
  assert (Hne : map restart out <> []).
  { intros E. apply map_eq_nil in E. subst out. inversion HK. }
  cbn [constraints_loop].
  rewrite (proj2 (Qle_bool_gt _ _) ptv_pos), map_map.
  change (map (fun x => init_meta (as_new_input x)) out) with (map restart out).
  cbn [Nat.eqb].
  rewrite uncapped_of_restart.
  destruct (map restart out) as [|u us] eqn:E; [contradiction|].
  rewrite <- E. clear u us E Hne.
  assert (A0 : Qle_bool (available_value ptv (map restart out)) 0 = false).
  { apply Qle_bool_gt. rewrite available_value_restart. exact ptv_pos. }
  rewrite A0, (cap_uncapped_restart _ HS). cbn [fst snd].
  replace (existsb (fun pos => negb (known_type ms me mc pos)) out) with true.
  2:{ symmetry. apply existsb_exists.
      apply Exists_exists in HU as (pos & Hin & K).
      exists pos. split; [apply list_elem_of_In, Hin|]. rewrite K. reflexivity. }
  rewrite redistribute_recapped; [|exact HK|fold total; lra].
  fold total. fold available.
  set (out' := map (reshared ms me mc total available) out).
  assert (U' : uncapped_of out' <> []).
  { unfold out'.
    rewrite (uncapped_of_known _ _ (reshared_is_capped total available)).
    intros E. apply map_eq_nil in E.
    exact (filter_known_nonempty _ HK E). }
  destruct (uncapped_of out') as [|u us]; [contradiction|].
  assert (A' : Qle_bool (available_value ptv out') 0 = false).
  { apply Qle_bool_gt. unfold out'.
    rewrite (available_value_unknown_capped _ _
               (reshared_is_capped total available)); [exact ptv_pos|].
    intros pos K. unfold reshared. rewrite K. reflexivity. }
  rewrite A'.
  assert (S' : snd (cap_uncapped ptv ms me mc out') = false).
  { rewrite cap_uncapped_snd. unfold out'. clearbody total available.
    clear -HS HT HA ptv_pos.
    induction HS as [|pos out Hp _ IH]; simpl; [reflexivity|].
    rewrite (cap_position_reshared _ _ _ HT HA Hp). exact IH. }
  rewrite S', (cap_uncapped_unchanged _ _ _ _ _ S'). reflexivity.
Qed.

Lemma rerun_of_restart (out : list position) :
  Forall (fun pos => known_type ms me mc pos = true) out ->
  Forall2 (rerun_of ms me mc) out (map restart out).
Proof.
  intros HK. apply Forall2_fmap_r, Forall_Forall2_diag.
  eapply Forall_impl; [exact HK|]. simpl. intros pos K.
  unfold rerun_of. rewrite K. repeat split; reflexivity.
Qed.

Lemma rerun_of_reshared (total available : Q) (out : list position) :
  total == ptv -> available == ptv ->
  Forall (settled ptv ms me mc) out ->
  Forall2 (rerun_of ms me mc) out (map (reshared ms me mc total available) out).
Proof.
  intros HT HA HS. apply Forall2_fmap_r, Forall_Forall2_diag.
  eapply Forall_impl; [exact HS|]. simpl. intros pos Hp.
  unfold rerun_of, reshared, settled, known_type in *.
  destruct (cap_for ms me mc (investment_type pos)) as [[c r]|].
  - repeat split; try reflexivity.
    change (get_ctv pos / total * available == get_ctv pos).
    rewrite HT, HA. field. lra.
  - destruct Hp as [_ Hz]. repeat split; try reflexivity.
    change (0 == get_ctv pos). rewrite Hz. reflexivity.
Qed.

End SecondRun.

Lemma converged_in_one_pass (ptv ms me mc : Q) (positions out : list position)
      (passes : nat) :
  constraints_loop ptv ms me mc 1 0 positions = (out, LogConverged passes) ->
  Forall (fun pos => known_type ms me mc pos = true) out.
Proof.
  simpl. destruct (Qle_bool ptv 0); [discriminate|].
  destruct (uncapped_of (map init_meta positions)); [discriminate|].
  destruct (Qle_bool (available_value ptv (map init_meta positions)) 0);
    [discriminate|].
  destruct (snd (cap_uncapped ptv ms me mc (map init_meta positions))) eqn:S;
    [discriminate|].
  intros H. injection H as <- _.
  rewrite (cap_uncapped_unchanged _ _ _ _ _ S).
  apply cap_uncapped_false in S.
  apply Forall_map. apply Forall_map in S.
  eapply Forall_impl; [exact S|]. intros pos H.
  destruct (H eq_refl) as (c & r & T & _).
  unfold known_type. cbv beta. rewrite T. reflexivity.
Qed.

(** The second run in exact arithmetic.  When a run entered at iteration
    0 ends on the "Converged" message, the run on the returned positions,
    each constrained value taken as the new target value, ends on that
    message again, with the same constrained value for every position. *)
Lemma second_run_in_exact_arithmetic
    (positions : list position) (portfolio_target_value : Q)
    (max_stock_pct max_etf_pct : Q) (portfolio_name : string)
    (max_iterations : nat) (max_crypto_pct : Q)
    (out : list position) (passes : nat) :
  _apply_type_constraints_recursive positions portfolio_target_value
    max_stock_pct max_etf_pct portfolio_name 0 max_iterations max_crypto_pct
  = (out, LogConverged passes) ->
  exists out' passes',
    _apply_type_constraints_recursive (map as_new_input out)
      portfolio_target_value max_stock_pct max_etf_pct portfolio_name 0
      max_iterations max_crypto_pct
    = (out', LogConverged passes')
    /\ Forall2 (rerun_of max_stock_pct max_etf_pct max_crypto_pct) out out'.
Proof.
  unfold _apply_type_constraints_recursive. rewrite Nat.sub_0_r.
  intros Hrun.
  destruct max_iterations as [|fuel]; [discriminate|].
  destruct (Qle_bool portfolio_target_value 0) eqn:P.
  { simpl in Hrun. rewrite P in Hrun. discriminate. }
  apply Qle_bool_gt in P.
  destruct (converged_run _ _ _ _ P _ _ _ _ Hrun) as (HS & HK & Hsum).
  destruct (Forall_Exists_dec
              (fun pos => known_type max_stock_pct max_etf_pct max_crypto_pct pos
                          = true)
              (fun pos => known_type max_stock_pct max_etf_pct max_crypto_pct pos
                          = false)
              (fun pos => sumbool_of_bool _) out) as [K|U'].
  - exists (map restart out), 1%nat. split.
    + apply second_run_known; auto.
      intros ->. inversion HK.
    + apply rerun_of_restart, K.
  - 
    assert (NK : ~ Forall (fun pos => known_type max_stock_pct max_etf_pct
                                        max_crypto_pct pos = true) out).
    { intros F. apply Exists_exists in U' as (pos & Hin & E).
      rewrite Forall_forall in F. rewrite (F pos Hin) in E. discriminate. }
    destruct fuel as [|fuel].
    { exfalso. apply NK. eapply converged_in_one_pass, Hrun. }
    destruct Hsum as [F|Hsum]; [contradiction|].
    destruct (second_run_unknown _ _ _ _ P fuel out HS HK U' Hsum)
      as (total & available & HT & HA & E).
    exists (map (reshared max_stock_pct max_etf_pct max_crypto_pct total available)
                out), 2%nat.
    split; [exact E|].
    apply (rerun_of_reshared _ _ _ _ P); assumption.
Qed.

(** C5 (idempotence), as the code has it.  When a run entered at
    iteration 0 ends on the "Converged" message, that is, when its last
    pass capped nothing, running the allocator again on the returned
    positions, each constrained value taken as the new target value,
    returns the same constrained value for every position.  The capping
    keys are not the same: the unconstrained value of a position is now
    its former constrained value. *)
Theorem idempotence_of_values
    (positions : list position) (portfolio_target_value : Q)
    (max_stock_pct max_etf_pct : Q) (portfolio_name : string)
    (max_iterations : nat) (max_crypto_pct : Q)
    (out : list position) (passes : nat) :
  _apply_type_constraints_recursive positions portfolio_target_value
    max_stock_pct max_etf_pct portfolio_name 0 max_iterations max_crypto_pct
  = (out, LogConverged passes) ->
  Forall2 rerun_value out
          (fst (_apply_type_constraints_recursive (map as_new_input out)
                  portfolio_target_value max_stock_pct max_etf_pct
                  portfolio_name 0 max_iterations max_crypto_pct)).
Proof.
  intros Hrun.
  destruct (second_run_in_exact_arithmetic _ _ _ _ _ _ _ _ _ Hrun)
    as (out' & passes' & -> & H).
  cbn [fst]. eapply Forall2_impl; [exact H|].
  intros pos pos' (N & T & V & U & _). repeat split; assumption.
Qed.

Lemma idempotence_of_values_witness :
  Forall2 rerun_value
    (fst (_apply_type_constraints_recursive scenario_A 10000 50 5 "A" 0 100 5))
    (fst (_apply_type_constraints_recursive
            (map as_new_input
               (fst (_apply_type_constraints_recursive scenario_A 10000 50 5
                       "A" 0 100 5)))
            10000 50 5 "A" 0 100 5)).
Proof.
  apply (idempotence_of_values scenario_A 10000 50 5 "A" 100 5
           (fst (_apply_type_constraints_recursive scenario_A 10000 50 5
                   "A" 0 100 5))
           2).
  vm_compute. reflexivity.
Defined.

(** C5 as stated fails in both of its parts.  The values: three stocks
    targeted at 60 and a bond, in a portfolio worth 100 with stocks
    capped at 50%, end with every position capped, at 50, 50, 50 and 0;
    run again on this result, the bond is capped at 0 once more, the
    stocks, sitting exactly on their cap, are not, and the 100 are
    handed out again over them: a third of 100 each.  The capping keys:
    on Scenario A the first run ends on the "Converged" message with P1
    capped under "maxPerStock" at 5,000 and original targets of 9,000
    and 1,000; the second run returns the same values with unconstrained
    values of 5,000 and 5,000, and P1 uncapped and without a rule, 5,000
    being exactly its cap and the test of line 122 being strict. *)
Lemma idempotence_counterexample :
  let capped :=
    _apply_type_constraints_recursive three_stocks_and_a_bond
                                      100 50 5 "P" 0 100 5 in
  let capped_again :=
    _apply_type_constraints_recursive (map as_new_input (fst capped))
                                      100 50 5 "P" 0 100 5 in
  let first := _apply_type_constraints_recursive scenario_A 10000 50 5 "A" 0 100 5 in
  let second :=
    _apply_type_constraints_recursive (map as_new_input (fst first))
                                      10000 50 5 "A" 0 100 5 in
  (snd capped = LogAllCapped
   /\ map (fun pos => Qred (get_ctv pos)) (fst capped) = [50; 50; 50; 0]
   /\ map (fun pos => Qred (get_ctv pos)) (fst capped_again)
      = [100 # 3; 100 # 3; 100 # 3; 0]
   /\ ~ Forall2 (fun pos pos' => get_ctv pos' == get_ctv pos)
                (fst capped) (fst capped_again))
  /\ (snd first = LogConverged 2
      /\ map (fun pos => Qred (get_ctv pos)) (fst first) = [5000; 5000]
      /\ map (fun pos => Qred (get_ctv pos)) (fst second) = [5000; 5000]
      /\ map get_utv (fst first) = [9000; 1000]
      /\ map (fun pos => Qred (get_utv pos)) (fst second) = [5000; 5000]
      /\ map get_is_capped (fst first) = [true; false]
      /\ map get_is_capped (fst second) = [false; false]
      /\ map get_rule (fst first) = [Some "maxPerStock"%string; None]
      /\ map get_rule (fst second) = [None; None]).
Proof.
  cbv zeta. split.
  - split; [vm_compute; reflexivity|]. split; [vm_compute; reflexivity|].
    split; [vm_compute; reflexivity|].
    intros H. apply Forall2_cons_1 in H as [H _].
    vm_compute in H. discriminate H.
  - vm_compute. repeat split.
Qed.


(** ** The capping keys are always there when they are read *)

Lemma Forall_has_meta_init (positions : list position) :
  Forall has_meta (map init_meta positions).
Proof.
  apply Forall_map, Forall_forall. intros pos _. discriminate.
Qed.

Lemma pass_has_meta (ptv ms me mc : Q) (positions : list position) :
  Forall has_meta positions ->
  Forall has_meta (redistribute ptv (fst (cap_uncapped ptv ms me mc positions))).
Proof.
  intros H. apply redistribute_Forall.
  - intros pos v _ _. discriminate.
  - rewrite cap_uncapped_fst. apply Forall_map.
    eapply Forall_impl; [exact H|]. apply cap_step_has_meta.
Qed.

(** Every position a run entered at iteration 0 returns holds the four
    capping keys, so no read of them inside the run meets a missing
    key. *)
Lemma run_has_meta (positions : list position) (ptv ms me : Q)
      (portfolio_name : string) (max_iterations : nat) (mc : Q) :
  (0 < max_iterations)%nat ->
  Forall has_meta
         (fst (_apply_type_constraints_recursive positions ptv ms me
                 portfolio_name 0 max_iterations mc)).
Proof.
  intros M. unfold _apply_type_constraints_recursive. rewrite Nat.sub_0_r.
  destruct max_iterations as [|fuel]; [lia|].
  destruct (Qle_bool ptv 0) eqn:P.
  - simpl. rewrite P. simpl. apply Forall_map, Forall_forall.
    intros pos _. discriminate.
  - apply Qle_bool_gt in P.
    eapply exit_state_Inv.
    apply (constraints_loop_exit_0 ptv ms me mc P (Forall has_meta)
             (fun ps H _ _ _ => pass_has_meta ptv ms me mc ps H)
             fuel positions (Forall_has_meta_init positions)).
Qed.

(** ** Portfolios with a target value of 0 *)

Lemma constrain_portfolio_zero (r : option rules) (portfolio : portfolio_entry) :
  default 0 (pe_targetValue portfolio) == 0 ->
  constrain_portfolio r portfolio = portfolio.
Proof.
  intros Z. unfold constrain_portfolio.
  apply Qeq_bool_iff in Z. rewrite Z. reflexivity.
Qed.

(** What the allocator itself does when it is entered with a target
    value that is not positive (lines 55-63): every position is capped
    at 0 under "zero_portfolio_value". *)
Lemma zero_value_exit (positions : list position) (ptv ms me : Q)
      (portfolio_name : string) (max_iterations : nat) (mc : Q) :
  ptv <= 0 -> (0 < max_iterations)%nat ->
  _apply_type_constraints_recursive positions ptv ms me portfolio_name 0
                                    max_iterations mc
  = (map zero_value positions, LogZeroPortfolioValue)
  /\ Forall (fun pos => get_ctv pos = 0 /\ get_is_capped pos = true
                        /\ get_rule pos = Some "zero_portfolio_value"%string)
            (map zero_value positions).
Proof.
  intros P M. unfold _apply_type_constraints_recursive. rewrite Nat.sub_0_r.
  destruct max_iterations as [|fuel]; [lia|]. simpl.
  apply Qle_bool_iff in P. rewrite P. split; [reflexivity|].
  apply Forall_map, Forall_forall. intros pos _. repeat split.
Qed.

(** C4 (zero portfolio target value), as the code has it.  A portfolio
    whose target value is 0 is passed over by the type-constrained
    allocation (the guard of line 784): it is returned exactly as the
    unconstrained allocation computed it, so none of its positions gets a
    constrained value, a capped mark or a cap reason.  Nothing is
    raised: the function is total. *)
Theorem zero_target_portfolio_untouched
    (portfolio_map : list (string * pdata))
    (portfolio_builder_data : gmap string builder_data)
    (target_allocations : list target_portfolio)
    (total_current_value : Q) (r : option rules) :
  Forall2 (fun portfolio portfolio' =>
             default 0 (pe_targetValue portfolio) == 0 ->
             portfolio' = portfolio)
          (calculate_allocation_targets portfolio_map portfolio_builder_data
             target_allocations total_current_value)
          (calculate_allocation_targets_with_type_constraints portfolio_map
             portfolio_builder_data target_allocations total_current_value r).
Proof.
  unfold calculate_allocation_targets_with_type_constraints.
  apply Forall2_fmap_r, Forall_Forall2_diag, Forall_forall.
  intros portfolio _ Z. apply constrain_portfolio_zero, Z.
Qed.

(** C4 as stated fails on a portfolio "Main" with one stock and an
    allocation of 0%: its target value is 0 and its position comes back
    without any capping key, hence neither capped nor carrying the
    reason "zero_portfolio_value". *)
Lemma zero_target_counterexample :
  let out :=
    calculate_allocation_targets_with_type_constraints
      zero_weight_map ∅ zero_weight_targets 1000 None in
  map (fun p => Qeq_bool (default 0 (pe_targetValue p)) 0) out = [true]
  /\ map (fun p => map (fun s => map meta (sector_positions s)) (pe_sectors p))
         out = [[[None]]]
  /\ map (fun p => map (fun s => map get_is_capped (sector_positions s))
                       (pe_sectors p)) out = [[[false]]]
  /\ map (fun p => map (fun s => map get_rule (sector_positions s))
                       (pe_sectors p)) out = [[[None]]].
Proof.
  vm_compute. repeat split.
Qed.

(** ** Skipped positions *)

Lemma position_lookup_of_None (l : list position) (n : string) :
  Forall (fun v => name v <> n) l ->
  position_lookup_of l !! n = None.
Proof.
  unfold position_lookup_of.
  assert (G : forall m : gmap string position,
             m !! n = None ->
             Forall (fun v => name v <> n) l ->
             foldl (fun m pos => <[name pos := pos]> m) m l !! n = None).
  { induction l as [|v l IH]; intros m Hm H; simpl; [exact Hm|].
    inversion H; subst. apply IH; [|assumption].
    rewrite lookup_insert_ne; auto. }
  apply G. apply lookup_empty.
Qed.

Section Names.

Variable ptv : Q.
Variables ms me mc : Q.

Lemma cap_step_name (pos : position) :
  name (cap_step ptv ms me mc pos) = name pos.
Proof.
  unfold cap_step. destruct (get_is_capped pos); [reflexivity|].
  destruct (cap_position_cases ptv ms me mc pos)
    as [[_ E]|[(c & r & _ & _ & E)|(c & r & _ & _ & E)]];
    rewrite E; reflexivity.
Qed.

Lemma redistribute_name (positions : list position) :
  map name (redistribute ptv positions) = map name positions.
Proof.
  assert (G : forall share,
             map name (assign_uncapped share positions) = map name positions).
  { intros share. unfold assign_uncapped. rewrite map_map.
    apply map_ext. intros pos. destruct (get_is_capped pos); reflexivity. }
  destruct (redistribute_cases ptv positions)
    as [[E _]|[(_ & _ & _ & E)|(_ & _ & _ & E)]]; rewrite E; auto.
Qed.

Lemma pass_name (names : list string) (positions : list position) :
  map name positions = names ->
  map name (redistribute ptv (fst (cap_uncapped ptv ms me mc positions)))
  = names.
Proof.
  intros <-. rewrite redistribute_name, cap_uncapped_fst, map_map.
  apply map_ext, cap_step_name.
Qed.

End Names.

(** The allocator returns the positions it was given, name for name. *)
Lemma run_names (positions : list position) (ptv ms me : Q)
      (portfolio_name : string) (max_iterations : nat) (mc : Q) :
  map name (fst (_apply_type_constraints_recursive positions ptv ms me
                   portfolio_name 0 max_iterations mc))
  = map name positions.
Proof.
  unfold _apply_type_constraints_recursive. rewrite Nat.sub_0_r.
  destruct max_iterations as [|fuel]; [reflexivity|].
  destruct (Qle_bool ptv 0) eqn:P.
  - simpl. rewrite P. simpl. rewrite map_map. reflexivity.
  - apply Qle_bool_gt in P.
    apply (exit_state_Inv ptv ms me mc
             (fun ps => map name ps = map name positions) _
             (snd (constraints_loop ptv ms me mc (S fuel) 0 positions))).
    apply (constraints_loop_exit_0 ptv ms me mc P
             (fun ps => map name ps = map name positions)
             (fun ps H _ _ _ => pass_name ptv ms me mc _ ps H)).
    rewrite map_map. reflexivity.
Qed.

Lemma valid_positions_not_skipped (sectors : list sector) :
  Forall (fun pos => ~ skipped pos) (valid_positions_of sectors).
Proof.
  apply Forall_forall. intros pos Hin.
  apply list_elem_of_In, filter_In in Hin as [Hin V].
  unfold is_valid in V. apply andb_true_iff in V as [I T].
  apply bool_decide_eq_true in T.
  unfold all_positions_of in Hin. apply in_flat_map in Hin as (s & _ & Hin).
  destruct (sector_isPlaceholder s); [contradiction|].
  apply filter_In in Hin as [_ Ph]. apply negb_true_iff in Ph.
  intros [H|[H|H]]; congruence.
Qed.

Lemma skipped_not_valid (pos : position) :
  skipped pos -> negb (isPlaceholder pos) && is_valid pos = false.
Proof.
  unfold is_valid. intros [H|[H|H]]; rewrite H; simpl.
  - reflexivity.
  - apply andb_false_r.
  - rewrite andb_false_r. apply andb_false_r.
Qed.

Lemma valid_of_sector_same (l1 l2 : list position) :
  Forall2 (fun p1 p2 => p1 = p2 \/ (skipped p1 /\ skipped p2)) l1 l2 ->
  List.filter is_valid (List.filter (fun pos => negb (isPlaceholder pos)) l1)
  = List.filter is_valid (List.filter (fun pos => negb (isPlaceholder pos)) l2).
Proof.
  induction 1 as [|p1 p2 l1 l2 Hp _ IH]; [reflexivity|].
  destruct Hp as [->|[S1 S2]].
  - simpl. destruct (negb (isPlaceholder p2)); simpl; rewrite IH; reflexivity.
  - apply skipped_not_valid in S1, S2. simpl.
    destruct (negb (isPlaceholder p1)), (negb (isPlaceholder p2)); simpl in *;
      rewrite ?S1, ?S2; exact IH.
Qed.

(** The list the allocator runs on does not depend on the left-out
    positions. *)
Lemma valid_positions_same (sectors1 sectors2 : list sector) :
  Forall2 same_but_skipped sectors1 sectors2 ->
  valid_positions_of sectors2 = valid_positions_of sectors1.
Proof.
  unfold valid_positions_of, all_positions_of.
  induction 1 as [|s1 s2 l1 l2 [Hf Hp] _ IH]; [reflexivity|].
  simpl. rewrite !List.filter_app, IH. f_equal.
  rewrite <- Hf. destruct (sector_isPlaceholder s1); [reflexivity|].
  destruct Hp as [Hp|Hp]; [discriminate|].
  symmetry. apply valid_of_sector_same, Hp.
Qed.

Lemma update_position_name_free (l : list position) (pos : position) :
  Forall (fun v => name v <> name pos) l ->
  update_position (position_lookup_of l) pos = pos.
Proof.
  intros H. unfold update_position.
  rewrite (position_lookup_of_None _ _ H). reflexivity.
Qed.

Lemma sector_positions_updated (lookup : gmap string position) (ptv : Q)
      (s : sector) :
  sector_positions (recalculate_sector ptv (update_sector lookup s))
  = if sector_isPlaceholder s then sector_positions s
    else map (update_position lookup) (sector_positions s).
Proof.
  destruct s as [n ps cv pc ph tv tw].
  unfold recalculate_sector, update_sector. simpl.
  destruct ph; reflexivity.
Qed.

(** C6 (skip correctness), as the code has it.  In a portfolio whose
    skipped positions do
    not bear the name of a valid position, a position that is a
    placeholder, or has no identifier, or has no investment type, is
    left out of the constraint iteration altogether: it is not in the
    list the allocator runs on (so it is never capped, and its target
    value is not part of the capped sum that is taken off the capacity);
    the output holds it unchanged, hence without a constrained value, a
    capped mark or a rule; and the list the allocator runs on is the same
    whatever the left-out positions hold. *)
Theorem skip_correctness (r : option rules) (portfolio : portfolio_entry) :
  skipped_names_distinct (pe_sectors portfolio) ->
  Forall (fun pos => ~ skipped pos) (valid_positions_of (pe_sectors portfolio))
  /\ Forall2 (fun s s' =>
                Forall2 (fun pos pos' => left_out s pos -> pos' = pos)
                        (sector_positions s) (sector_positions s'))
             (pe_sectors portfolio)
             (pe_sectors (constrain_portfolio r portfolio))
  /\ (forall sectors2,
        Forall2 same_but_skipped (pe_sectors portfolio) sectors2 ->
        valid_positions_of sectors2 = valid_positions_of (pe_sectors portfolio)).
Proof.
  intros HD. split; [apply valid_positions_not_skipped|].
  split; [|apply valid_positions_same].
  assert (Same : Forall2 (fun s s' =>
                   Forall2 (fun pos pos' => left_out s pos -> pos' = pos)
                           (sector_positions s) (sector_positions s'))
                 (pe_sectors portfolio) (pe_sectors portfolio)).
  { apply Forall_Forall2_diag, Forall_forall. intros s _.
    apply Forall_Forall2_diag, Forall_forall. reflexivity. }
  unfold constrain_portfolio.
  destruct (Qeq_bool (default 0 (pe_targetValue portfolio)) 0); [exact Same|].
  destruct (valid_positions_of (pe_sectors portfolio)) as [|v vs] eqn:V;
    [exact Same|].
  rewrite <- V. clear Same. simpl.
  rewrite map_map. apply Forall2_fmap_r.
  apply Forall_Forall2_diag.
  unfold skipped_names_distinct in HD.
  eapply Forall_impl; [exact HD|]. simpl. intros s Hs.
  rewrite sector_positions_updated.
  destruct (sector_isPlaceholder s) eqn:Ph.
  - apply Forall_Forall2_diag, Forall_forall. reflexivity.
  - apply Forall2_fmap_r, Forall_Forall2_diag.
    eapply Forall_impl; [exact (Hs eq_refl)|]. simpl.
    intros pos Hfree [C|S]; [congruence|].
    apply update_position_name_free.
    specialize (Hfree S). unfold name_free in Hfree.
    apply Forall_forall. intros w Hw.
    apply list_elem_of_In, (in_map name) in Hw. rewrite run_names in Hw.
    apply in_map_iff in Hw as (v' & <- & Hv').
    rewrite Forall_forall in Hfree. apply Hfree, list_elem_of_In, Hv'.
Qed.

Lemma skip_correctness_witness :
  Forall (fun pos => ~ skipped pos) (valid_positions_of (pe_sectors scenario_C))
  /\ Forall2 (fun s s' =>
                Forall2 (fun pos pos' => left_out s pos -> pos' = pos)
                        (sector_positions s) (sector_positions s'))
             (pe_sectors scenario_C)
             (pe_sectors (constrain_portfolio None scenario_C))
  /\ (forall sectors2,
        Forall2 same_but_skipped (pe_sectors scenario_C) sectors2 ->
        valid_positions_of sectors2 = valid_positions_of (pe_sectors scenario_C)).
Proof.
  apply (skip_correctness None scenario_C).
  vm_compute. constructor; [|constructor]. intros _.
  constructor; [|constructor; [|constructor; [|constructor]]].
  - intros [H|[H|H]]; discriminate H.
  - intros [H|[H|H]]; discriminate H.
  - intros _. constructor; [|constructor; [|constructor]];
      intros E; discriminate E.
Defined.

(** Scenario C evaluated: the stock and the ETF are capped (2% and 5%
    of 10,000), the position without investment type comes back with no
    capping key and its unconstrained target of 3,000. *)
Example scenario_C_evaluation :
  map (fun s => map (fun pos => (name pos, get_is_capped pos, get_rule pos,
                                 Qred (get_targetValue pos),
                                 match meta pos with None => true | Some _ => false end))
                    (sector_positions s))
      (pe_sectors (constrain_portfolio None scenario_C))
  = [[("ACME"%string, true, Some "maxPerStock"%string, 200, false);
      ("WORLD"%string, true, Some "maxPerETF"%string, 500, false);
      ("MYSTERY"%string, false, None, 3000, true)]].
Proof. vm_compute. reflexivity. Qed.

(** ** Missing-position placeholders *)





(** With an explicit weight of 40 the two missing positions are
    synthesized. *)
Example missing_position_evaluation :
  map (fun s => (sector_name s,
                 map (fun pos => (name pos, targetAllocation pos, currentValue pos))
                     (sector_positions s)))
      (option_list (missing_positions_sector nearly_full_pdata open_builder))
  = [("Missing Positions"%string,
      [("Position Slot 1 (Unfilled)"%string, 5, 0);
       ("Position Slot 2 (Unfilled)"%string, 5, 0)])].
Proof. vm_compute. reflexivity. Qed.

(** C6 as stated, for every input, fails where a left-out position
    bears the name of a valid one.  The loop of lines 829-840 finds the
    capping data of a position by its name; in a portfolio worth 10,000
    that holds a stock "ACME" and a position "ACME" without investment
    type, the allocator runs on the stock alone and caps it at 2%, and
    the position without investment type then receives the capping keys
    of the stock and its constrained value, 200, as target value. *)
Lemma skip_correctness_counterexample :
  map (fun pos => (name pos, investment_type pos))
      (valid_positions_of (pe_sectors same_name_portfolio))
  = [("ACME"%string, Some "Stock"%string)]
  /\ map (fun s => map (fun pos => (name pos, investment_type pos,
                                    get_is_capped pos, get_rule pos,
                                    Qred (get_targetValue pos)))
                       (sector_positions s))
         (pe_sectors (constrain_portfolio None same_name_portfolio))
     = [[("ACME"%string, Some "Stock"%string, true,
          Some "maxPerStock"%string, 200);
         ("ACME"%string, None, true, Some "maxPerStock"%string, 200)]]
  /\ ~ Forall2 (fun s s' =>
                  Forall2 (fun pos pos' => left_out s pos -> pos' = pos)
                          (sector_positions s) (sector_positions s'))
               (pe_sectors same_name_portfolio)
               (pe_sectors (constrain_portfolio None same_name_portfolio)).
Proof.
  split; [vm_compute; reflexivity|]. split; [vm_compute; reflexivity|].
  intros H. apply Forall2_cons_1 in H as [H _].
  apply Forall2_cons_1 in H as [_ H]. apply Forall2_cons_1 in H as [H _].
  assert (L : left_out
                (Sector "Tech"
                   [ Position "ACME" 4000 40 (Some "US0001"%string) false
                              (Some "Stock"%string) (Some 4000) None None;
                     Position "ACME" 3000 30 (Some "XX0003"%string) false
                              None (Some 3000) None None ]
                   7000 2 false (Some 7000) (Some 70))
                (Position "ACME" 3000 30 (Some "XX0003"%string) false
                          None (Some 3000) None None)).
  { right. right. right. reflexivity. }
  specialize (H L). vm_compute in H. discriminate H.
Qed.


(** ** Cash deployment *)

(** C8 (Scenario D), as the code has it.  In target-weights mode, with X
    worth 8,000 at a target of 0%, Y worth 0 and priced 50 at a target
    of 100%, and 2,000 to invest, whatever the price of X: X gets no
    recommendation (its gap is not positive), and Y is recommended for
    the whole gap to its target, 10,000 - 0 = 10,000, that is 200
    shares; the amount is not limited to the 2,000 invested. *)
Theorem scenario_D_target_weights (price_X : option Q) :
  exists recommendation,
    AllocationService.calculate_rebalancing (AllocationService.init None)
      [scenario_D_X price_X; scenario_D_Y] scenario_D_targets 2000
      "target_weights"
    = inr [recommendation]
    /\ AllocationService.company_name recommendation = "Y"%string
    /\ AllocationService.target_value recommendation == 10000
    /\ AllocationService.amount_to_buy recommendation == 10000
    /\ AllocationService.shares_to_buy recommendation == 200
    /\ AllocationService.current_price recommendation == 50.
Proof.
  unfold AllocationService.calculate_rebalancing. cbn [String.eqb Ascii.eqb Bool.eqb].
  unfold AllocationService._calculate_target_weights, scenario_D_targets.
  cbn [flat_map AllocationService.find_company List.find scenario_D_X scenario_D_Y
       AllocationService.id String.eqb Ascii.eqb Bool.eqb].
  assert (X : forall total,
             (if negb (AllocationService.has_price (scenario_D_X price_X))
              then []
              else
                if Qltb 0 (AllocationService.py_max 0
                             (total * (0 / 100)
                              - AllocationService.current_value_of
                                  (scenario_D_X price_X)))
                then [ {| AllocationService.company_name := "X";
                          AllocationService.rec_identifier := "X";
                          AllocationService.rec_current_value :=
                            AllocationService.current_value_of (scenario_D_X price_X);
                          AllocationService.target_value := total * (0 / 100);
                          AllocationService.amount_to_buy :=
                            AllocationService.py_max 0
                              (total * (0 / 100)
                               - AllocationService.current_value_of
                                   (scenario_D_X price_X));
                          AllocationService.shares_to_buy :=
                            AllocationService.py_max 0
                              (total * (0 / 100)
                               - AllocationService.current_value_of
                                   (scenario_D_X price_X))
                            / AllocationService.price_of (scenario_D_X price_X);
                          AllocationService.current_price :=
                            AllocationService.price_of (scenario_D_X price_X) |} ]
                else []) = []).
  { intros total.
    destruct (negb (AllocationService.has_price (scenario_D_X price_X)));
      [reflexivity|].
    replace (Qltb 0 (AllocationService.py_max 0
                       (total * (0 / 100)
                        - AllocationService.current_value_of (scenario_D_X price_X))))
      with false; [reflexivity|].
    symmetry. apply Qltb_ge. unfold AllocationService.py_max.
    change (AllocationService.current_value_of (scenario_D_X price_X)) with 8000.
    destruct (Qltb 0 (total * (0 / 100) - 8000)) eqn:G.
    - apply Qltb_lt in G.
      assert (E : total * (0 / 100) == 0) by (unfold Qdiv; ring).
      rewrite E in G. lra.
    - apply Qle_refl. }
  fold (scenario_D_X price_X). fold scenario_D_Y.
  rewrite X. eexists. split; [vm_compute; reflexivity|].
  repeat split; vm_compute; reflexivity.
Qed.

(** C8 as stated fails for Y: the code recommends buying 10,000 of Y
    (200 shares), not 2,000 (40 shares). *)
Lemma scenario_D_counterexample :
  let result :=
    AllocationService.calculate_rebalancing (AllocationService.init None)
      [scenario_D_X (Some 100); scenario_D_Y] scenario_D_targets 2000
      "target_weights" in
  match result with
  | inr [recommendation] =>
      AllocationService.company_name recommendation = "Y"%string
      /\ ~ AllocationService.amount_to_buy recommendation == 2000
      /\ ~ AllocationService.shares_to_buy recommendation == 40
  | _ => False
  end.
Proof.
  vm_compute. repeat split; discriminate.
Qed.

(** ** Validation of an allocation map *)

(** What [validate_allocations] accepts: the percentages add up to 100
    within 0.01 and none of them is above the stock maximum of the
    rules. *)
Lemma validate_allocations_true (self : AllocationService.t)
      (allocations : list (string * Q)) :
  fst (AllocationService.validate_allocations self allocations) = true
  <-> Qabs (Qsum (map snd allocations) - 100) <= 1 # 100
      /\ Forall (fun pct =>
                   pct <= AllocationService.max_stock_percentage
                            (AllocationService.rules self))
                (map snd allocations).
Proof.
  unfold AllocationService.validate_allocations,
    AllocationService.first_above_max.
  destruct (Qltb (1 # 100) (Qabs (Qsum (map snd allocations) - 100))) eqn:T.
  - apply Qltb_lt in T. simpl. split; [discriminate|].
    intros [H _]. exfalso. exact (Qlt_not_le _ _ T H).
  - apply Qltb_ge in T.
    destruct (List.find _ (map snd allocations)) as [pct|] eqn:F; simpl.
    + split; [discriminate|]. intros [_ H].
      apply find_some in F as [Hin L]. apply Qltb_lt in L.
      rewrite Forall_forall in H. apply list_elem_of_In, H in Hin.
      exfalso. exact (Qlt_not_le _ _ L Hin).
    + split; [|reflexivity]. intros _. split; [exact T|].
      apply Forall_forall. intros pct Hin.
      apply list_elem_of_In in Hin.
      pose proof (find_none _ _ F pct Hin) as L. apply Qltb_ge in L. exact L.
Qed.

(** C9 at the map of the comment of lines 407-408: 60% and 40% add up
    to 100% exactly, and validation under the default rules fails all
    the same, on the per-position maximum of 5%. *)
Theorem validate_allocations_sixty_forty :
  Qsum (map snd sixty_forty) == 100
  /\ AllocationService.validate_allocations (AllocationService.init None)
       sixty_forty
     = (false, Some (AllocationService.ExceedsMax 60 5)).
Proof.
  split; vm_compute; reflexivity.
Qed.

(** ** Unknown rebalancing mode *)

(** C10.  Called with a mode that is none of "proportional",
    "target_weights" and "equal_weight", [calculate_rebalancing] raises
    [ValueError] and returns no list, whatever the holdings, the target
    allocations and the amount. *)
Theorem unknown_mode_raises (self : AllocationService.t)
    (portfolio_data : list AllocationService.company)
    (target_allocations : list (string * Q)) (investment_amount : Q)
    (mode : string) :
  mode <> "proportional"%string ->
  mode <> "target_weights"%string ->
  mode <> "equal_weight"%string ->
  AllocationService.calculate_rebalancing self portfolio_data
    target_allocations investment_amount mode
  = inl (AllocationService.ValueError ("Unknown allocation mode: " +:+ mode)).
Proof.
  intros H1 H2 H3. unfold AllocationService.calculate_rebalancing.
  apply String.eqb_neq in H1, H2, H3. rewrite H1, H2, H3. reflexivity.
Qed.

Lemma unknown_mode_raises_witness :
  AllocationService.calculate_rebalancing (AllocationService.init None)
    [scenario_D_X (Some 100); scenario_D_Y] scenario_D_targets 2000 "sell_all"
  = inl (AllocationService.ValueError "Unknown allocation mode: sell_all").
Proof.
  apply (unknown_mode_raises (AllocationService.init None)
           [scenario_D_X (Some 100); scenario_D_Y] scenario_D_targets 2000
           "sell_all"); discriminate.
Defined.

(** The three known modes return a list. *)
Lemma known_mode_returns (self : AllocationService.t)
    (portfolio_data : list AllocationService.company)
    (target_allocations : list (string * Q)) (investment_amount : Q)
    (mode : string) :
  mode = "proportional"%string \/ mode = "target_weights"%string
  \/ mode = "equal_weight"%string ->
  exists recommendations,
    AllocationService.calculate_rebalancing self portfolio_data
      target_allocations investment_amount mode
    = inr recommendations.
Proof.
  intros [-> | [-> | ->]]; eexists; reflexivity.
Qed.

(** * Further properties of the allocator *)

Lemma Forall2_chain {A B C} (R : A -> B -> Prop) (S : B -> C -> Prop)
      (T : A -> C -> Prop) (l : list A) (k : list B) (m : list C) :
  (forall x y z, R x y -> S y z -> T x z) ->
  Forall2 R l k -> Forall2 S k m -> Forall2 T l m.
Proof.
  intros H HR. revert m.
  induction HR as [|x y l k Hxy _ IH]; intros m HS; inversion HS; subst.
  - constructor.
  - constructor; eauto.
Qed.

Section AllocatorRun.

Variable ptv : Q.
Variables ms me mc : Q.
Hypothesis ptv_pos : 0 < ptv.

Lemma available_value_init (positions : list position) :
  available_value ptv (map init_meta positions) == ptv.
Proof.
  unfold available_value, capped_of. rewrite filter_map_comm.
  assert (E : List.filter (fun a => get_is_capped (init_meta a)) positions = [])
    by (induction positions; simpl; auto).
  rewrite E. unfold Qsum. simpl. lra.
Qed.

(** The first pass of a run entered at iteration 0, spelled out: either
    nothing is capped and the initialised positions are returned, or the
    run goes on from the second pass. *)
Lemma first_pass (fuel : nat) (positions : list position) :
  (snd (cap_uncapped ptv ms me mc (map init_meta positions)) = false
   /\ fst (constraints_loop ptv ms me mc (S fuel) 0 positions)
      = map init_meta positions
   /\ (positions = []
       \/ snd (constraints_loop ptv ms me mc (S fuel) 0 positions)
          = LogConverged 1))
  \/ (snd (cap_uncapped ptv ms me mc (map init_meta positions)) = true
      /\ constraints_loop ptv ms me mc (S fuel) 0 positions
         = constraints_loop ptv ms me mc fuel 1
             (redistribute ptv
                (fst (cap_uncapped ptv ms me mc (map init_meta positions))))).
Proof.
  simpl. rewrite (proj2 (Qle_bool_gt _ _) ptv_pos).
  destruct positions as [|p ps].
  { left. simpl. auto. }
  assert (U : uncapped_of (map init_meta (p :: ps)) = init_meta p :: uncapped_of (map init_meta ps))
    by reflexivity.
  rewrite U.
  assert (A : Qle_bool (available_value ptv (map init_meta (p :: ps))) 0 = false).
  { apply Qle_bool_gt. rewrite available_value_init. exact ptv_pos. }
  rewrite A.
  destruct (snd (cap_uncapped ptv ms me mc (map init_meta (p :: ps)))) eqn:S.
  - right. split; reflexivity.
  - left. split; [reflexivity|]. split; [|right; reflexivity].
    cbn [fst]. apply cap_uncapped_unchanged, S.
Qed.

Lemma redistribute_map (positions : list position) :
  exists f,
    redistribute ptv positions = map f positions
    /\ forall pos,
         f pos = pos
         \/ (get_is_capped pos = false /\ exists v, f pos = set_ctv pos v).
Proof.
  destruct (redistribute_cases ptv positions)
    as [[E _]|[(_ & _ & _ & E)|(_ & _ & _ & E)]].
  - exists (fun pos => pos). rewrite map_id. auto.
  - eexists. split; [exact E|]. intros pos. simpl.
    destruct (get_is_capped pos); eauto.
  - eexists. split; [exact E|]. intros pos. simpl.
    destruct (get_is_capped pos); eauto.
Qed.

Lemma cap_step_same_but_meta (pos : position) :
  same_but_meta pos (cap_step ptv ms me mc pos).
Proof.
  unfold cap_step. destruct (get_is_capped pos); [repeat split; reflexivity|].
  destruct (cap_position_cases ptv ms me mc pos)
    as [[_ E]|[(c & r & _ & _ & E)|(c & r & _ & _ & E)]];
    rewrite E; repeat split; reflexivity.
Qed.

(** Whatever a pass does, it does to the capping keys only, it keeps
    the unconstrained value, and it leaves a position that was capped
    before the pass as it is. *)
Lemma pass_position (positions : list position) :
  Forall2 carried_over positions
          (redistribute ptv (fst (cap_uncapped ptv ms me mc positions))).
Proof.
  rewrite cap_uncapped_fst.
  destruct (redistribute_map (map (cap_step ptv ms me mc) positions))
    as (f & -> & Hf).
  rewrite map_map. apply Forall2_fmap_r, Forall_Forall2_diag, Forall_forall.
  intros pos _. unfold compose, carried_over.
  pose proof (cap_step_same_but_meta pos) as M.
  pose proof (cap_step_utv ptv ms me mc pos) as U.
  destruct (Hf (cap_step ptv ms me mc pos)) as [E|(C & v & E)]; rewrite E.
  - split; [exact M|]. split; [exact U|]. apply cap_step_is_capped.
  - split; [|split].
    + unfold same_but_meta in *. simpl. exact M.
    + simpl. exact U.
    + intros K. rewrite (cap_step_is_capped _ _ _ _ _ K) in C. congruence.
Qed.


Lemma carried_over_refl (pos : position) : carried_over pos pos.
Proof. repeat split; reflexivity. Qed.

Lemma carried_over_trans (a b c : position) :
  carried_over a b -> carried_over b c -> carried_over a c.
Proof.
  unfold carried_over, same_but_meta.
  intros (M1 & U1 & K1) (M2 & U2 & K2). split; [|split].
  - intuition congruence.
  - congruence.
  - intros K. specialize (K1 K). subst b. auto.
Qed.

Lemma pass_carried_over (start positions : list position) :
  Forall2 carried_over start positions ->
  Forall2 carried_over start
          (redistribute ptv (fst (cap_uncapped ptv ms me mc positions))).
Proof.
  intros H.
  eapply Forall2_chain; [|exact H|apply pass_position].
  apply carried_over_trans.
Qed.

(** From the start of any pass after the first to the end of the run. *)
Lemma rest_of_run_carried_over (fuel iteration : nat) (positions : list position) :
  iteration <> 0%nat ->
  Forall2 carried_over positions
          (fst (constraints_loop ptv ms me mc fuel iteration positions)).
Proof.
  intros Hit.
  apply (exit_state_Inv ptv ms me mc (Forall2 carried_over positions) _
           (snd (constraints_loop ptv ms me mc fuel iteration positions))).
  apply (constraints_loop_exit ptv ms me mc ptv_pos
           (Forall2 carried_over positions)
           (fun ps H _ _ _ => pass_carried_over positions ps H)); [exact Hit|].
  apply Forall_Forall2_diag, Forall_forall. intros pos _.
  apply carried_over_refl.
Qed.

Lemma init_meta_carried (positions : list position) :
  Forall2 (fun pos pos' => same_but_meta pos pos'
                           /\ get_utv pos' = get_targetValue pos)
          positions (map init_meta positions).
Proof.
  apply Forall2_fmap_r, Forall_Forall2_diag, Forall_forall.
  intros pos _. repeat split; reflexivity.
Qed.

(** From the input of a run entered at iteration 0 to its end. *)
Lemma run_carried (fuel : nat) (positions : list position) :
  Forall2 (fun pos pos' => same_but_meta pos pos'
                           /\ get_utv pos' = get_targetValue pos)
          positions
          (fst (constraints_loop ptv ms me mc (S fuel) 0 positions)).
Proof.
  destruct (first_pass fuel positions) as [(_ & E & _)|(_ & E)]; rewrite E.
  - apply init_meta_carried.
  - eapply Forall2_chain;
      [|apply init_meta_carried
       |eapply Forall2_chain;
          [apply carried_over_trans
          |apply pass_position
          |apply rest_of_run_carried_over; discriminate]].
    unfold carried_over, same_but_meta.
    intros a b c (M1 & U1) (M2 & U2 & _). split; [intuition congruence|congruence].
Qed.

End AllocatorRun.

(** X1 (monotonic capping).  A recursive call of the allocator, that is
    a call at an iteration other than 0, with a positive portfolio target
    value, returns every position that is capped when the call is made
    exactly as it is: capped, at the same constrained value, under the
    same rule. *)
Theorem capping_is_monotonic
    (positions : list position) (portfolio_target_value : Q)
    (max_stock_pct max_etf_pct : Q) (portfolio_name : string)
    (iteration max_iterations : nat) (max_crypto_pct : Q) :
  0 < portfolio_target_value ->
  iteration <> 0%nat ->
  Forall2 (fun pos pos' => get_is_capped pos = true -> pos' = pos)
          positions
          (fst (_apply_type_constraints_recursive positions
                  portfolio_target_value max_stock_pct max_etf_pct
                  portfolio_name iteration max_iterations max_crypto_pct)).
Proof.
  intros P Hit. unfold _apply_type_constraints_recursive.
  eapply Forall2_impl;
    [apply (rest_of_run_carried_over _ _ _ _ P _ _ _ Hit)|].
  intros pos pos' (_ & _ & K). exact K.
Qed.

Lemma capping_is_monotonic_witness :
  Forall2 (fun pos pos' => get_is_capped pos = true -> pos' = pos)
          scenario_A_second_pass
          (fst (_apply_type_constraints_recursive scenario_A_second_pass
                  10000 50 5 "A" 1 100 5)).
Proof.
  apply (capping_is_monotonic scenario_A_second_pass 10000 50 5 "A" 1 100 5).
  - reflexivity.
  - discriminate.
Defined.

Lemma run_carried_positions
    (positions : list position) (portfolio_target_value : Q)
    (max_stock_pct max_etf_pct : Q) (portfolio_name : string)
    (max_iterations : nat) (max_crypto_pct : Q) :
  (0 < max_iterations)%nat ->
  Forall2 (fun pos pos' => same_but_meta pos pos'
                           /\ get_utv pos' = get_targetValue pos)
          positions
          (fst (_apply_type_constraints_recursive positions
                  portfolio_target_value max_stock_pct max_etf_pct
                  portfolio_name 0 max_iterations max_crypto_pct)).
Proof.
  intros M. unfold _apply_type_constraints_recursive. rewrite Nat.sub_0_r.
  destruct max_iterations as [|fuel]; [lia|].
  destruct (Qle_bool portfolio_target_value 0) eqn:P.
  - simpl. rewrite P. simpl.
    apply Forall2_fmap_r, Forall_Forall2_diag, Forall_forall.
    intros pos _. repeat split; reflexivity.
  - apply Qle_bool_gt in P. apply run_carried, P.
Qed.

(** X2 (the allocator only writes the capping keys).  A run entered at
    iteration 0 with a ceiling of at least one pass returns the positions
    it was given, in the same order, each with every key other than the
    four capping keys unchanged and with its input target value (0 when
    the key is missing) as unconstrained target value; this holds for any
    portfolio target value, positive or not. *)
Theorem run_keeps_positions
    (positions : list position) (portfolio_target_value : Q)
    (max_stock_pct max_etf_pct : Q) (portfolio_name : string)
    (max_iterations : nat) (max_crypto_pct : Q) :
  (0 < max_iterations)%nat ->
  Forall2 (fun pos pos' => same_but_meta pos pos'
                           /\ get_utv pos' = get_targetValue pos)
          positions
          (fst (_apply_type_constraints_recursive positions
                  portfolio_target_value max_stock_pct max_etf_pct
                  portfolio_name 0 max_iterations max_crypto_pct)).
Proof. apply run_carried_positions. Qed.

Lemma run_keeps_positions_witness :
  Forall2 (fun pos pos' => same_but_meta pos pos'
                           /\ get_utv pos' = get_targetValue pos)
          scenario_A
          (fst (_apply_type_constraints_recursive scenario_A
                  10000 50 5 "A" 0 100 5)).
Proof.
  apply (run_keeps_positions scenario_A 10000 50 5 "A" 100 5). lia.
Defined.

(** X3 (capped means exactly at the cap).  Whatever the exit of a run
    entered at iteration 0 with a positive portfolio target value, the
    iteration ceiling included, every returned position that is marked
    capped holds exactly [cap_pct / 100 * portfolio_target_value] and the
    rule name of its type, or 0 and "unknown_type" when its type has no
    rule. *)
Theorem capped_exactly_at_cap
    (positions : list position) (portfolio_target_value : Q)
    (max_stock_pct max_etf_pct : Q) (portfolio_name : string)
    (max_iterations : nat) (max_crypto_pct : Q) :
  0 < portfolio_target_value ->
  (0 < max_iterations)%nat ->
  Forall (capped_at_cap portfolio_target_value max_stock_pct max_etf_pct
                        max_crypto_pct)
         (fst (_apply_type_constraints_recursive positions
                 portfolio_target_value max_stock_pct max_etf_pct
                 portfolio_name 0 max_iterations max_crypto_pct)).
Proof.
  intros P M. unfold _apply_type_constraints_recursive. rewrite Nat.sub_0_r.
  destruct max_iterations as [|fuel]; [lia|].
  eapply exit_state_Inv.
  apply (constraints_loop_exit_0 portfolio_target_value max_stock_pct
           max_etf_pct max_crypto_pct P
           (Forall (capped_at_cap portfolio_target_value max_stock_pct
                                  max_etf_pct max_crypto_pct))
           (fun ps H _ _ _ => pass_capped_at_cap _ _ _ _ ps H)
           fuel positions (init_meta_capped_at_cap _ _ _ _ positions)).
Qed.

Lemma capped_exactly_at_cap_witness :
  Forall (capped_at_cap 100 50 5 5)
         (fst (_apply_type_constraints_recursive three_stocks
                 100 50 5 "P" 0 100 5)).
Proof.
  apply (capped_exactly_at_cap three_stocks 100 50 5 "P" 100 5).
  - reflexivity.
  - lia.
Defined.

(** X4 (a converged run that capped something hands out everything).
    When a run entered at iteration 0 ends on the "Converged" message and
    returns at least one capped position, the constrained target values
    of the returned positions add up to the portfolio target value. *)
Theorem converged_after_capping_hands_out_all
    (positions : list position) (portfolio_target_value : Q)
    (max_stock_pct max_etf_pct : Q) (portfolio_name : string)
    (max_iterations : nat) (max_crypto_pct : Q)
    (out : list position) (passes : nat) :
  _apply_type_constraints_recursive positions portfolio_target_value
    max_stock_pct max_etf_pct portfolio_name 0 max_iterations max_crypto_pct
  = (out, LogConverged passes) ->
  Exists (fun pos => get_is_capped pos = true) out ->
  Qsum (map get_ctv out) == portfolio_target_value.
Proof.
  unfold _apply_type_constraints_recursive. rewrite Nat.sub_0_r.
  intros Hrun HC.
  destruct max_iterations as [|fuel]; [discriminate|].
  destruct (Qle_bool portfolio_target_value 0) eqn:P.
  { simpl in Hrun. rewrite P in Hrun. discriminate. }
  apply Qle_bool_gt in P.
  pose proof (constraints_loop_exit_0 portfolio_target_value max_stock_pct
                max_etf_pct max_crypto_pct P
                (handed_out portfolio_target_value)
                (fun ps _ _ _ _ => pass_handed_out portfolio_target_value _)
                fuel positions
                (init_handed_out portfolio_target_value positions)) as X.
  rewrite Hrun in X. simpl in X. destruct X as (HJ & U & A & _).
  destruct HJ as [HJ|[HJ|[HJ|HJ]]].
  - exfalso. apply Exists_exists in HC as (pos & Hin & C).
    rewrite Forall_forall in HJ. rewrite (HJ pos Hin) in C. discriminate.
  - contradiction.
  - lra.
  - exact HJ.
Qed.

Lemma converged_after_capping_hands_out_all_witness :
  Qsum (map get_ctv
            (fst (_apply_type_constraints_recursive scenario_A
                    10000 50 5 "A" 0 100 5)))
  == 10000.
Proof.
  apply (converged_after_capping_hands_out_all scenario_A 10000 50 5 "A" 100 5
           _ 2).
  - vm_compute. reflexivity.
  - apply Exists_cons_hd. vm_compute. reflexivity.
Defined.

Section UnknownTypes.

Variable ptv : Q.
Variables ms me mc : Q.
Hypothesis ptv_pos : 0 < ptv.

Lemma cap_step_unknown_capped (pos : position) :
  (get_is_capped pos = true -> unknown_capped ms me mc pos) ->
  unknown_capped ms me mc (cap_step ptv ms me mc pos).
Proof.
  intros H. unfold cap_step. destruct (get_is_capped pos) eqn:C; [auto|].
  unfold unknown_capped, known_type.
  destruct (cap_position_cases ptv ms me mc pos)
    as [[T E]|[(c & r & T & _ & E)|(c & r & T & _ & E)]];
    rewrite E; simpl; rewrite T; try discriminate.
  intros _. repeat split.
Qed.

Lemma pass_unknown_capped (positions : list position) :
  Forall (fun pos => get_is_capped pos = true -> unknown_capped ms me mc pos)
         positions ->
  Forall (unknown_capped ms me mc)
         (redistribute ptv (fst (cap_uncapped ptv ms me mc positions))).
Proof.
  intros H. rewrite cap_uncapped_fst.
  destruct (redistribute_map ptv (map (cap_step ptv ms me mc) positions))
    as (f & -> & Hf).
  rewrite map_map. apply Forall_map.
  eapply Forall_impl; [exact H|]. simpl. intros pos Hp.
  pose proof (cap_step_unknown_capped pos Hp) as K.
  destruct (Hf (cap_step ptv ms me mc pos)) as [E|(C & v & E)]; rewrite E;
    [exact K|].
  unfold unknown_capped, known_type in *. simpl. intros T.
  destruct (K T) as (C' & _). congruence.
Qed.

End UnknownTypes.

(** X5 (unknown investment type).  A run entered at iteration 0 with a
    positive portfolio target value returns every position whose
    investment type is none of Stock, ETF and Crypto capped, with a
    constrained target value of 0 and the rule "unknown_type". *)
Theorem unknown_type_capped_at_zero
    (positions : list position) (portfolio_target_value : Q)
    (max_stock_pct max_etf_pct : Q) (portfolio_name : string)
    (max_iterations : nat) (max_crypto_pct : Q) :
  0 < portfolio_target_value ->
  (0 < max_iterations)%nat ->
  Forall (unknown_capped max_stock_pct max_etf_pct max_crypto_pct)
         (fst (_apply_type_constraints_recursive positions
                 portfolio_target_value max_stock_pct max_etf_pct
                 portfolio_name 0 max_iterations max_crypto_pct)).
Proof.
  intros P M. unfold _apply_type_constraints_recursive. rewrite Nat.sub_0_r.
  destruct max_iterations as [|fuel]; [lia|].
  destruct (first_pass portfolio_target_value max_stock_pct max_etf_pct
              max_crypto_pct P fuel positions) as [(S & E & _)|(_ & E)];
    rewrite E.
  - apply cap_uncapped_false in S.
    apply Forall_map. apply Forall_map in S.
    eapply Forall_impl; [exact S|]. simpl. intros pos H.
    unfold unknown_capped, known_type. intros T.
    destruct (H eq_refl) as (c & r & T' & _).
    change (investment_type (init_meta pos)) with (investment_type pos) in *.
    rewrite T' in T. discriminate.
  - apply (exit_state_Inv portfolio_target_value max_stock_pct max_etf_pct
             max_crypto_pct
             (Forall (unknown_capped max_stock_pct max_etf_pct max_crypto_pct))
             _ (snd (constraints_loop portfolio_target_value max_stock_pct
                       max_etf_pct max_crypto_pct fuel 1
                       (redistribute portfolio_target_value
                          (fst (cap_uncapped portfolio_target_value
                                  max_stock_pct max_etf_pct max_crypto_pct
                                  (map init_meta positions))))))).
    apply (constraints_loop_exit portfolio_target_value max_stock_pct
             max_etf_pct max_crypto_pct P
             (Forall (unknown_capped max_stock_pct max_etf_pct max_crypto_pct))).
    + intros ps H _ _ _. apply pass_unknown_capped.
      eapply Forall_impl; [exact H|]. auto.
    + discriminate.
    + apply pass_unknown_capped, Forall_map, Forall_forall.
      intros pos _ C. discriminate C.
Qed.

Lemma unknown_type_capped_at_zero_witness :
  Forall (unknown_capped 50 5 5)
         (fst (_apply_type_constraints_recursive stock_and_bond
                 100 50 5 "P" 0 100 5)).
Proof.
  apply (unknown_type_capped_at_zero stock_and_bond 100 50 5 "P" 100 5).
  - reflexivity.
  - lia.
Defined.

(** The stock of [stock_and_bond], targeted at 10, is handed the whole
    portfolio once the unknown type is capped at 0, and is then capped at
    its own 50%: the target of a position of unknown type goes to the
    others. *)
Example stock_and_bond_evaluation :
  (map (fun pos => (name pos, get_is_capped pos, get_rule pos, Qred (get_ctv pos)))
       (fst (_apply_type_constraints_recursive stock_and_bond
               100 50 5 "P" 0 100 5)),
   snd (_apply_type_constraints_recursive stock_and_bond 100 50 5 "P" 0 100 5))
  = ([("S"%string, true, Some "maxPerStock"%string, 50);
      ("B"%string, true, Some "unknown_type"%string, 0)],
     LogAllCapped).
Proof. vm_compute. reflexivity. Qed.

Section NonNegative.

Variable ptv : Q.
Variables ms me mc : Q.
Hypothesis ptv_pos : 0 < ptv.
Hypothesis ms_nonneg : 0 <= ms.
Hypothesis me_nonneg : 0 <= me.
Hypothesis mc_nonneg : 0 <= mc.

Lemma cap_for_nonneg (t : option string) (cap_pct : Q) (cap_rule : string) :
  cap_for ms me mc t = Some (cap_pct, cap_rule) -> 0 <= cap_pct.
Proof.
  unfold cap_for. destruct t as [t|]; [|discriminate].
  destruct (String.eqb t "Stock"); [intros H; injection H as <- _; assumption|].
  destruct (String.eqb t "ETF"); [intros H; injection H as <- _; assumption|].
  destruct (String.eqb t "Crypto"); [intros H; injection H as <- _; assumption|].
  discriminate.
Qed.

Lemma pass_nonneg (positions : list position) :
  Forall (fun pos => 0 <= get_utv pos /\ 0 <= get_ctv pos) positions ->
  Forall (fun pos => 0 <= get_utv pos /\ 0 <= get_ctv pos)
         (redistribute ptv (fst (cap_uncapped ptv ms me mc positions))).
Proof.
  intros H. rewrite cap_uncapped_fst.
  set (positions1 := map (cap_step ptv ms me mc) positions).
  assert (H1 : Forall (fun pos => 0 <= get_utv pos /\ 0 <= get_ctv pos) positions1).
  { apply Forall_map. eapply Forall_impl; [exact H|]. simpl.
    intros pos [U V]. rewrite cap_step_utv. split; [exact U|].
    unfold cap_step. destruct (get_is_capped pos); [exact V|].
    destruct (cap_position_cases ptv ms me mc pos)
      as [[_ E]|[(c & r & T & _ & E)|(c & r & _ & _ & E)]];
      rewrite E;
      cbn [fst get_ctv mark_capped set_meta meta constrained_target_value].
    - apply Qle_refl.
    - apply cap_for_nonneg in T.
      apply Qmult_le_0_compat; [|lra].
      apply Qle_shift_div_l; [reflexivity|lra].
    - exact V. }
  assert (G : forall share,
             (forall pos, 0 <= get_utv pos -> 0 <= share pos) ->
             Forall (fun pos => 0 <= get_utv pos /\ 0 <= get_ctv pos)
                    (assign_uncapped share positions1)).
  { intros share Hs. unfold assign_uncapped. apply Forall_map.
    eapply Forall_impl; [exact H1|]. simpl. intros pos [U V].
    destruct (get_is_capped pos); split; auto. apply Hs, U. }
  destruct (redistribute_cases ptv positions1)
    as [[E _]|[(U & A & T & E)|(U & A & T & E)]]; rewrite E.
  - exact H1.
  - apply G. intros pos Hu. apply Qmult_le_0_compat; [|lra].
    apply Qle_shift_div_l; lra.
  - apply G. intros pos _.
    destruct (uncapped_of positions1) as [|u us] eqn:Un; [contradiction|].
    pose proof (inject_length_pos u us) as L.
    apply Qle_shift_div_l; lra.
Qed.

End NonNegative.

(** X7 (constrained values are not negative).  With a positive
    portfolio target value, caps that are not negative and input targets
    that are not negative, every position a run entered at iteration 0
    returns has a constrained target value that is not negative, whatever
    the exit. *)
Theorem constrained_values_nonneg
    (positions : list position) (portfolio_target_value : Q)
    (max_stock_pct max_etf_pct : Q) (portfolio_name : string)
    (max_iterations : nat) (max_crypto_pct : Q) :
  0 < portfolio_target_value ->
  (0 < max_iterations)%nat ->
  0 <= max_stock_pct -> 0 <= max_etf_pct -> 0 <= max_crypto_pct ->
  Forall (fun pos => 0 <= get_targetValue pos) positions ->
  Forall (fun pos => 0 <= get_ctv pos)
         (fst (_apply_type_constraints_recursive positions
                 portfolio_target_value max_stock_pct max_etf_pct
                 portfolio_name 0 max_iterations max_crypto_pct)).
Proof.
  intros P M Hs He Hc HN. unfold _apply_type_constraints_recursive.
  rewrite Nat.sub_0_r. destruct max_iterations as [|fuel]; [lia|].
  assert (X : Forall (fun pos => 0 <= get_utv pos /\ 0 <= get_ctv pos)
                     (fst (constraints_loop portfolio_target_value max_stock_pct
                             max_etf_pct max_crypto_pct (S fuel) 0 positions))).
  { eapply exit_state_Inv.
    apply (constraints_loop_exit_0 portfolio_target_value max_stock_pct
             max_etf_pct max_crypto_pct P
             (Forall (fun pos => 0 <= get_utv pos /\ 0 <= get_ctv pos))
             (fun ps H _ _ _ => pass_nonneg _ _ _ _ P Hs He Hc ps H)).
    apply Forall_map. eapply Forall_impl; [exact HN|]. simpl. auto. }
  eapply Forall_impl; [exact X|]. simpl. tauto.
Qed.

Lemma constrained_values_nonneg_witness :
  Forall (fun pos => 0 <= get_ctv pos)
         (fst (_apply_type_constraints_recursive stock_and_bond
                 100 50 5 "P" 0 100 5)).
Proof.
  apply (constrained_values_nonneg stock_and_bond 100 50 5 "P" 100 5);
    try (vm_compute; discriminate).
  - reflexivity.
  - lia.
  - repeat constructor; vm_compute; discriminate.
Defined.

Section Termination.

Variable ptv : Q.
Variables ms me mc : Q.
Hypothesis ptv_pos : 0 < ptv.

Lemma uncapped_count_flags (positions : list position) :
  length (uncapped_of positions)
  = length (List.filter negb (map get_is_capped positions)).
Proof.
  unfold uncapped_of. rewrite filter_map_comm, length_map. reflexivity.
Qed.

(** Every pass that caps something has fewer uncapped positions after
    it than before it. *)
Lemma cap_uncapped_count (positions : list position) :
  (length (uncapped_of (fst (cap_uncapped ptv ms me mc positions)))
   + (if snd (cap_uncapped ptv ms me mc positions) then 1 else 0)
   <= length (uncapped_of positions))%nat.
Proof.
  induction positions as [|pos rest IH]; [simpl; lia|].
  cbn [cap_uncapped]. destruct (get_is_capped pos) eqn:C.
  - cbn [fst snd]. unfold uncapped_of in *. cbn [List.filter].
    rewrite C. cbn [negb]. exact IH.
  - cbn [fst snd]. unfold uncapped_of in *. cbn [List.filter].
    rewrite C. cbn [negb length].
    destruct (cap_position_cases ptv ms me mc pos)
      as [[_ E]|[(c & r & _ & _ & E)|(c & r & _ & _ & E)]];
      rewrite E; cbn [fst snd orb].
    + change (get_is_capped (mark_capped pos 0 "unknown_type")) with true.
      cbn [negb].
      destruct (snd (cap_uncapped ptv ms me mc rest)); lia.
    + change (get_is_capped (mark_capped pos (c / 100 * ptv) r)) with true.
      cbn [negb].
      destruct (snd (cap_uncapped ptv ms me mc rest)); lia.
    + rewrite C. cbn [negb length]. lia.
Qed.

Lemma uncapped_of_init (positions : list position) :
  uncapped_of (map init_meta positions) = map init_meta positions.
Proof.
  unfold uncapped_of. induction positions as [|pos rest IH]; [reflexivity|].
  cbn [map List.filter].
  change (get_is_capped (init_meta pos)) with false. cbn [negb].
  rewrite IH. reflexivity.
Qed.

Lemma pass_count (positions : list position) :
  snd (cap_uncapped ptv ms me mc positions) = true ->
  (length (uncapped_of
             (redistribute ptv (fst (cap_uncapped ptv ms me mc positions))))
   < length (uncapped_of positions))%nat.
Proof.
  intros S. pose proof (cap_uncapped_count positions) as H. rewrite S in H.
  rewrite uncapped_count_flags, redistribute_is_capped, <- uncapped_count_flags.
  lia.
Qed.

Lemma rest_of_run_below_ceiling (fuel iteration : nat) (positions : list position) :
  iteration <> 0%nat ->
  (length (uncapped_of positions) < fuel)%nat ->
  snd (constraints_loop ptv ms me mc fuel iteration positions)
  <> LogMaxIterations.
Proof.
  revert iteration positions.
  induction fuel as [|fuel IH]; intros iteration positions Hit L; [lia|].
  simpl. rewrite (proj2 (Qle_bool_gt _ _) ptv_pos).
  apply Nat.eqb_neq in Hit. rewrite Hit.
  destruct (uncapped_of positions) as [|u us] eqn:U; [discriminate|].
  destruct (Qle_bool (available_value ptv positions) 0); [discriminate|].
  destruct (snd (cap_uncapped ptv ms me mc positions)) eqn:S; [|discriminate].
  apply IH; [discriminate|].
  pose proof (pass_count positions S) as H. rewrite U in H.
  simpl in *. lia.
Qed.

End Termination.

(** X8 (the iteration ceiling is out of reach of short lists).  Every
    pass that goes on caps at least one more position, so a run entered
    at iteration 0 on fewer positions than [max_iterations] never returns
    through the iteration ceiling of line 50: with the ceiling of 100 the
    call site uses, 99 positions or fewer always end on one of the other
    exits. *)
Theorem iteration_ceiling_not_reached
    (positions : list position) (portfolio_target_value : Q)
    (max_stock_pct max_etf_pct : Q) (portfolio_name : string)
    (max_iterations : nat) (max_crypto_pct : Q) :
  (length positions < max_iterations)%nat ->
  snd (_apply_type_constraints_recursive positions portfolio_target_value
         max_stock_pct max_etf_pct portfolio_name 0 max_iterations
         max_crypto_pct)
  <> LogMaxIterations.
Proof.
  intros L. unfold _apply_type_constraints_recursive. rewrite Nat.sub_0_r.
  destruct max_iterations as [|fuel]; [lia|].
  destruct (Qle_bool portfolio_target_value 0) eqn:P.
  { simpl. rewrite P. discriminate. }
  apply Qle_bool_gt in P.
  destruct positions as [|p ps].
  { simpl. rewrite (proj2 (Qle_bool_gt _ _) P). discriminate. }
  destruct (first_pass portfolio_target_value max_stock_pct max_etf_pct
              max_crypto_pct P fuel (p :: ps)) as [(_ & _ & [N|E])|(S & E)].
  - discriminate.
  - rewrite E. discriminate.
  - rewrite E. apply rest_of_run_below_ceiling; [exact P|discriminate|].
    pose proof (pass_count portfolio_target_value max_stock_pct max_etf_pct
                  max_crypto_pct _ S) as H.
    rewrite (uncapped_of_init (p :: ps)) in H.
    rewrite length_map in H. lia.
Qed.

Lemma iteration_ceiling_not_reached_witness :
  snd (_apply_type_constraints_recursive scenario_A 10000 50 5 "A" 0 100 5)
  <> LogMaxIterations.
Proof.
  apply (iteration_ceiling_not_reached scenario_A 10000 50 5 "A" 100 5).
  simpl. lia.
Defined.

(** * Further properties of the cash deployment calculator *)

Section CashDeployment.

Import AllocationService.

Lemma has_price_nonzero (c : company) :
  has_price c = true -> ~ price_of c == 0.
Proof.
  unfold has_price, price_of. destruct (price_eur c) as [p|]; [|discriminate].
  simpl. intros H Z. apply negb_true_iff in H.
  apply Qeq_bool_iff in Z. congruence.
Qed.

Lemma shares_times_price (amount price : Q) :
  ~ price == 0 -> amount / price * price == amount.
Proof. intros H. field. exact H. Qed.

Lemma py_max_0_pos (x : Q) : 0 < py_max 0 x -> py_max 0 x = x /\ 0 < x.
Proof.
  unfold py_max. destruct (Qltb 0 x) eqn:L.
  - apply Qltb_lt in L. auto.
  - intros H. exfalso. revert H. apply Qlt_irrefl.
Qed.

(** X10 (a recommendation is for a priced holding).  In each of the
    three modes, every recommendation returned is for a holding of
    [portfolio_data] whose price is present and not 0: it carries the
    name, the identifier, the current value and the price of that
    holding.  A holding without price, and a key of the target
    allocation map that is the id of no holding, never get one. *)
Theorem recommendations_are_priced (self : t) (portfolio_data : list company)
    (target_allocations : list (string * Q)) (investment_amount : Q)
    (mode : string) (recommendations : list RebalancingRecommendation) :
  calculate_rebalancing self portfolio_data target_allocations
                        investment_amount mode
  = inr recommendations ->
  Forall (fun r =>
            exists c, In c portfolio_data
                      /\ has_price c = true
                      /\ company_name r = name c
                      /\ rec_identifier r = identifier c
                      /\ rec_current_value r = current_value_of c
                      /\ current_price r = price_of c
                      /\ ~ current_price r == 0)
         recommendations.
Proof.
  unfold calculate_rebalancing.
  destruct (String.eqb mode "proportional").
  { intros H. injection H as <-. apply Forall_forall. intros r Hin.
    apply list_elem_of_In in Hin.
    unfold _calculate_proportional in Hin.
    apply in_flat_map in Hin as ([company_id target_pct] & _ & Hin).
    destruct (find_company portfolio_data company_id) as [c|] eqn:F;
      [|contradiction].
    apply find_some in F as [Hc _].
    destruct (has_price c) eqn:Hp; simpl in Hin; [|contradiction].
    destruct Hin as [<-|[]]. simpl.
    pose proof (has_price_nonzero c Hp) as N.
    exists c. repeat split; auto. }
  destruct (String.eqb mode "target_weights").
  { intros H. injection H as <-. apply Forall_forall. intros r Hin.
    apply list_elem_of_In in Hin.
    unfold _calculate_target_weights in Hin.
    apply in_flat_map in Hin as ([company_id target_pct] & _ & Hin).
    destruct (find_company portfolio_data company_id) as [c|] eqn:F;
      [|contradiction].
    apply find_some in F as [Hc _].
    destruct (has_price c) eqn:Hp; simpl in Hin; [|contradiction].
    destruct (Qltb 0 _) in Hin; [|contradiction].
    destruct Hin as [<-|[]]. simpl.
    pose proof (has_price_nonzero c Hp) as N.
    exists c. repeat split; auto. }
  destruct (String.eqb mode "equal_weight"); [|discriminate].
  intros H. injection H as <-. unfold _calculate_equal_weight.
  destruct (List.filter _ portfolio_data) as [|v vs] eqn:V;
    [constructor|].
  rewrite <- V. apply Forall_map, Forall_forall. intros c Hin.
  apply list_elem_of_In, filter_In in Hin as [Hc Hv].
  apply andb_true_iff in Hv as [Hp _].
  pose proof (has_price_nonzero c Hp) as N. simpl.
  exists c. repeat split; auto.
Qed.

Lemma recommendations_are_priced_witness :
  Forall (fun r =>
            exists c, In c three_holdings
                      /\ has_price c = true
                      /\ company_name r = name c
                      /\ rec_identifier r = identifier c
                      /\ rec_current_value r = current_value_of c
                      /\ current_price r = price_of c
                      /\ ~ current_price r == 0)
         (_calculate_proportional (init None) three_holdings two_targets 2000).
Proof.
  apply (recommendations_are_priced (init None) three_holdings two_targets
           2000 "proportional").
  reflexivity.
Defined.


(** X11 (target-weights mode only buys what is missing).  Every
    recommendation of the target-weights mode comes from an entry of the
    target allocation map whose key is the id of a priced holding: it
    carries the current value of that holding, its target value is the
    percentage of that entry of the total held plus the amount invested,
    and its amount to buy is positive and is the gap between that target
    value and the current value of the holding. *)
Theorem target_weights_only_buys_the_gap (self : t)
    (portfolio_data : list company) (target_allocations : list (string * Q))
    (investment_amount : Q) :
  let new_total_value :=
    Qsum (map current_value_of portfolio_data) + investment_amount in
  Forall (fun r =>
            exists company_id target_pct c,
              In (company_id, target_pct) target_allocations
              /\ find_company portfolio_data company_id = Some c
              /\ has_price c = true
              /\ company_name r = name c
              /\ rec_identifier r = identifier c
              /\ rec_current_value r = current_value_of c
              /\ target_value r = new_total_value * (target_pct / 100)
              /\ amount_to_buy r = target_value r - current_value_of c
              /\ 0 < amount_to_buy r)
         (_calculate_target_weights self portfolio_data target_allocations
                                    investment_amount).
Proof.
  cbv zeta. apply Forall_forall. intros r Hin. apply list_elem_of_In in Hin.
  unfold _calculate_target_weights in Hin.
  apply in_flat_map in Hin as ([company_id target_pct] & He & Hin).
  destruct (find_company portfolio_data company_id) as [c|] eqn:F;
    [|contradiction].
  destruct (has_price c) eqn:Hp; cbn [negb] in Hin; [|contradiction].
  destruct (Qltb 0 _) eqn:L in Hin; [|contradiction].
  destruct Hin as [<-|[]]. simpl.
  apply Qltb_lt in L. destruct (py_max_0_pos _ L) as [E G].
  exists company_id, target_pct, c. repeat split; auto.
Qed.


(** X12 (equal-weight mode gives every priced holding the same amount).
    The equal-weight mode returns one recommendation per holding that
    has a positive price, in the order of [portfolio_data]; each is for
    the same amount, the investment amount divided by the number of such
    holdings, whatever the holding is worth, and targets the current
    value of the holding plus that amount; when no holding has a
    positive price nothing is returned and nothing is divided. *)
Theorem equal_weight_splits_the_amount (self : t)
    (portfolio_data : list company) (investment_amount : Q) :
  let valid_holdings :=
    List.filter (fun c => has_price c && Qltb 0 (price_of c)) portfolio_data in
  let recommendations :=
    _calculate_equal_weight self portfolio_data investment_amount in
  Forall2 (fun c r =>
             company_name r = name c
             /\ rec_identifier r = identifier c
             /\ rec_current_value r = current_value_of c
             /\ current_price r = price_of c
             /\ 0 < current_price r
             /\ amount_to_buy r
                = investment_amount
                  / inject_Z (Z.of_nat (length valid_holdings))
             /\ target_value r = current_value_of c + amount_to_buy r)
          valid_holdings recommendations
  /\ (valid_holdings = [] -> recommendations = []).
Proof.
  intros valid_holdings recommendations.
  unfold recommendations, _calculate_equal_weight. fold valid_holdings.
  assert (HV : Forall (fun c => 0 < price_of c) valid_holdings).
  { apply Forall_forall. intros c Hin.
    apply list_elem_of_In, filter_In in Hin as [_ Hv].
    apply andb_true_iff in Hv as [_ Hp]. apply Qltb_lt, Hp. }
  clearbody valid_holdings. clear recommendations.
  destruct valid_holdings as [|v vs].
  { split; [constructor|reflexivity]. }
  split; [|discriminate].
  apply Forall2_fmap_r, Forall_Forall2_diag.
  eapply Forall_impl; [exact HV|].
  intros c Hc. cbn. repeat split. exact Hc.
Qed.


(** Scenario E of the specification: 3,000 over three priced holdings is
    1,000 each, whatever they are worth. *)
Example scenario_E_evaluation :
  map (fun r => (company_name r, Qred (amount_to_buy r), Qred (shares_to_buy r)))
      (_calculate_equal_weight (init None)
         (three_holdings
          ++ [ {| id := "d"; name := "Delta"; identifier := "DDD";
                  price_eur := Some 10; current_value := None |} ])
         3000)
  = [("Alpha"%string, 1000, 50); ("Beta"%string, 1000, 20);
     ("Delta"%string, 1000, 100)].
Proof. vm_compute. reflexivity. Qed.

End CashDeployment.

Section CashDeploymentTotals.

Import AllocationService.

(** X13 (proportional mode, one recommendation per key).  When every key
    of the target allocation map is the id of a holding with a price,
    the proportional mode returns one recommendation per entry, in the
    order of the map; the recommendation of an entry is for the holding
    of its key, its amount to buy is the investment amount times the
    percentage of the entry over 100, whatever the other percentages add
    up to, and its target value is that amount, not the current value
    plus that amount. *)
Theorem proportional_one_per_entry (self : t) (portfolio_data : list company)
    (target_allocations : list (string * Q)) (investment_amount : Q) :
  Forall (fun entry =>
            exists c, find_company portfolio_data (fst entry) = Some c
                      /\ has_price c = true)
         target_allocations ->
  Forall2 (fun entry r =>
             (exists c, find_company portfolio_data (fst entry) = Some c
                        /\ company_name r = name c
                        /\ rec_identifier r = identifier c
                        /\ rec_current_value r = current_value_of c
                        /\ current_price r = price_of c)
             /\ amount_to_buy r = investment_amount * (snd entry / 100)
             /\ target_value r = amount_to_buy r)
          target_allocations
          (_calculate_proportional self portfolio_data target_allocations
                                   investment_amount).
Proof.
  intros H. unfold _calculate_proportional.
  induction H as [|[company_id target_pct] rest (c & F & P) _ IH].
  - constructor.
  - cbn [fst] in F. cbn [flat_map]. rewrite F, P. cbn [negb app].
    constructor; [|exact IH].
    cbn. split; [|split; reflexivity].
    exists c. repeat split. exact F.
Qed.

Lemma proportional_one_per_entry_witness :
  Forall2 (fun entry r =>
             (exists c, find_company three_holdings (fst entry) = Some c
                        /\ company_name r = name c
                        /\ rec_identifier r = identifier c
                        /\ rec_current_value r = current_value_of c
                        /\ current_price r = price_of c)
             /\ amount_to_buy r = 2000 * (snd entry / 100)
             /\ target_value r = amount_to_buy r)
          two_targets
          (_calculate_proportional (init None) three_holdings two_targets 2000).
Proof.
  apply (proportional_one_per_entry (init None) three_holdings two_targets
           2000).
  repeat constructor; eexists; split; vm_compute; reflexivity.
Defined.


Lemma find_company_unpriced (portfolio_data : list company) (company_id : string)
      (c : company) :
  Forall (fun c => has_price c = false) portfolio_data ->
  find_company portfolio_data company_id = Some c ->
  has_price c = false.
Proof.
  intros H F. apply find_some in F as [Hin _].
  rewrite Forall_forall in H. apply H, list_elem_of_In, Hin.
Qed.

(** X14 (no price, no recommendation).  When no holding of
    [portfolio_data] has a price (the key is missing, or the price is 0),
    each of the three modes returns the empty list: nothing is raised, and
    in particular the equal-weight mode does not divide by the number of
    priced holdings. *)
Theorem unpriced_holdings_get_nothing (self : t) (portfolio_data : list company)
    (target_allocations : list (string * Q)) (investment_amount : Q)
    (mode : string) :
  Forall (fun c => has_price c = false) portfolio_data ->
  mode = "proportional"%string \/ mode = "target_weights"%string
  \/ mode = "equal_weight"%string ->
  calculate_rebalancing self portfolio_data target_allocations
                        investment_amount mode
  = inr [].
Proof.
  intros H [-> | [-> | ->]]; unfold calculate_rebalancing;
    cbn [String.eqb Ascii.eqb Bool.eqb]; f_equal.
  - unfold _calculate_proportional.
    induction target_allocations as [|[company_id target_pct] rest IH];
      [reflexivity|].
    cbn [flat_map]. rewrite IH.
    destruct (find_company portfolio_data company_id) as [c|] eqn:F;
      [|reflexivity].
    rewrite (find_company_unpriced _ _ _ H F). reflexivity.
  - unfold _calculate_target_weights.
    induction target_allocations as [|[company_id target_pct] rest IH];
      [reflexivity|].
    cbn [flat_map]. rewrite IH.
    destruct (find_company portfolio_data company_id) as [c|] eqn:F;
      [|reflexivity].
    rewrite (find_company_unpriced _ _ _ H F). reflexivity.
  - unfold _calculate_equal_weight.
    assert (E : List.filter (fun c => has_price c && Qltb 0 (price_of c))
                            portfolio_data = []).
    { induction H as [|c l Hc _ IH]; [reflexivity|].
      cbn [List.filter]. rewrite Hc. exact IH. }
    rewrite E. reflexivity.
Qed.

Lemma unpriced_holdings_get_nothing_witness :
  calculate_rebalancing (init None) unpriced_holdings two_targets 2000
                        "equal_weight"
  = inr [].
Proof.
  apply (unpriced_holdings_get_nothing (init None) unpriced_holdings
           two_targets 2000 "equal_weight").
  - repeat constructor.
  - right; right; reflexivity.
Defined.

Lemma normalize_allocations_cases (self : t)
    (allocations : list (string * Q)) :
  let total := Qsum (map snd allocations) in
  map fst (normalize_allocations self allocations) = map fst allocations
  /\ (total == 0 -> normalize_allocations self allocations = allocations)
  /\ (~ total == 0 ->
      Qsum (map snd (normalize_allocations self allocations)) == 100
      /\ Forall2 (fun entry entry' => snd entry' * total == snd entry * 100)
                 allocations (normalize_allocations self allocations)).
Proof.
  intros total. unfold normalize_allocations. fold total.
  destruct (Qeq_bool total 0) eqn:Z.
  - apply Qeq_bool_iff in Z. repeat split; auto; contradiction.
  - apply Qeq_bool_neq in Z. split; [|split].
    + rewrite map_map. reflexivity.
    + contradiction.
    + intros _. split.
      * rewrite map_map.
        rewrite (Qsum_map_ext (fun x => snd (fst x, snd x / total * 100))
                              (fun x => snd x * (/ total * 100))).
        -- rewrite Qsum_map_scale.
           change (Qsum (map snd allocations)) with total. field. exact Z.
        -- apply Forall_forall. intros x _. simpl. field. exact Z.
      * apply Forall2_fmap_r, Forall_Forall2_diag, Forall_forall.
        intros x _. unfold compose. simpl. field. exact Z.
Qed.

(** X16 (what normalisation does).  [normalize_allocations] keeps the
    keys and their order; it returns the map unchanged when its
    percentages add up to 0, and otherwise scales them so that they add
    up to 100, keeping their proportions. *)
Theorem normalize_allocations_scales (self : t)
    (allocations : list (string * Q)) :
  let total := Qsum (map snd allocations) in
  map fst (normalize_allocations self allocations) = map fst allocations
  /\ (total == 0 -> normalize_allocations self allocations = allocations)
  /\ (~ total == 0 ->
      Qsum (map snd (normalize_allocations self allocations)) == 100
      /\ Forall2 (fun entry entry' => snd entry' * total == snd entry * 100)
                 allocations (normalize_allocations self allocations)).
Proof. apply normalize_allocations_cases. Qed.

(** X17 (normalise, then validate).  A map whose percentages do not add
    up to 0 passes, once normalised, the sum check of
    [validate_allocations]: validation of the normalised map succeeds or
    fails on the stock maximum, never on the sum. *)
Theorem normalized_allocations_pass_sum_check (self : t)
    (allocations : list (string * Q)) :
  ~ Qsum (map snd allocations) == 0 ->
  validate_allocations self (normalize_allocations self allocations)
  = (true, None)
  \/ exists pct,
       validate_allocations self (normalize_allocations self allocations)
       = (false, Some (ExceedsMax pct (max_stock_percentage (rules self)))).
Proof.
  intros Z.
  destruct (normalize_allocations_cases self allocations) as (_ & _ & H).
  destruct (H Z) as [S _]. unfold validate_allocations.
  assert (T : Qltb (1 # 100)
                   (Qabs (Qsum (map snd (normalize_allocations self allocations))
                          - 100)) = false).
  { apply Qltb_ge. rewrite S.
    assert (E : 100 - 100 == 0) by ring. rewrite E. simpl. discriminate. }
  rewrite T.
  destruct (first_above_max self (normalize_allocations self allocations));
    eauto.
Qed.

Lemma normalized_allocations_pass_sum_check_witness :
  validate_allocations (init None) (normalize_allocations (init None) three_to_one)
  = (true, None)
  \/ exists pct,
       validate_allocations (init None)
         (normalize_allocations (init None) three_to_one)
       = (false, Some (ExceedsMax pct (max_stock_percentage (rules (init None))))).
Proof.
  apply (normalized_allocations_pass_sum_check (init None) three_to_one).
  vm_compute. discriminate.
Defined.

End CashDeploymentTotals.

(** * Further properties of the tree functions *)

Lemma set_sector_targets_totals (portfolio_target_value : Q) (s : sector) :
  let s' := set_sector_targets portfolio_target_value s in
  Forall (fun pos =>
            targetValue pos
            = Some ((targetAllocation pos / 100) * portfolio_target_value))
         (sector_positions s')
  /\ sector_consistent portfolio_target_value s'
  /\ (exists w, sector_targetWeight s' = Some w
                /\ (0 < portfolio_target_value ->
                    w == Qsum (map targetAllocation (sector_positions s')))
                /\ (portfolio_target_value <= 0 -> w = 0)).
Proof.
  cbv zeta. unfold set_sector_targets. cbn [sector_positions].
  split; [|split].
  - apply Forall_map, Forall_forall. intros pos _. reflexivity.
  - split; reflexivity.
  - cbn [sector_targetWeight]. eexists. split; [reflexivity|].
    set (l := sector_positions s).
    set (setf := fun pos => set_targetValue pos
                              (targetAllocation pos / 100 * portfolio_target_value)).
    assert (E1 : Qsum (map get_targetValue (map setf l))
                 == Qsum (map targetAllocation l)
                    * (/ 100 * portfolio_target_value)).
    { rewrite map_map, <- Qsum_map_scale. apply Qsum_map_ext, Forall_forall.
      intros pos _.
      change (targetAllocation pos / 100 * portfolio_target_value
              == targetAllocation pos * (/ 100 * portfolio_target_value)).
      field. }
    assert (E2 : map targetAllocation (map setf l) = map targetAllocation l)
      by (rewrite map_map; reflexivity).
    split.
    + intros P. rewrite (proj2 (Qltb_lt _ _) P), E2, E1. field. lra.
    + intros P. rewrite (proj2 (Qltb_ge _ _) P). reflexivity.
Qed.

Lemma allocation_targets_sectors
    (portfolio_builder_data : gmap string builder_data)
    (target_allocations : list target_portfolio)
    (total_current_value : Q) (pd : pdata) :
  let entry := allocation_targets_of_portfolio portfolio_builder_data
                 target_allocations total_current_value pd in
  let portfolio_target_value :=
    (pe_targetWeight entry / 100) * total_current_value in
  pe_targetValue entry = Some portfolio_target_value
  /\ Forall (fun s =>
               Forall (fun pos =>
                         targetValue pos
                         = Some ((targetAllocation pos / 100)
                                 * portfolio_target_value))
                      (sector_positions s)
               /\ sector_consistent portfolio_target_value s
               /\ (exists w, sector_targetWeight s = Some w
                             /\ (0 < portfolio_target_value ->
                                 w == Qsum (map targetAllocation
                                                (sector_positions s)))
                             /\ (portfolio_target_value <= 0 -> w = 0)))
            (pe_sectors entry).
Proof.
  intros entry portfolio_target_value. split; [reflexivity|].
  unfold portfolio_target_value, entry.
  cbn [allocation_targets_of_portfolio pe_sectors pe_targetWeight].
  apply Forall_map, Forall_forall. intros s _.
  apply set_sector_targets_totals.
Qed.

(** X18 (sector totals of the unconstrained allocation).  In every
    sector of a portfolio returned by the unconstrained allocator, the
    "Missing Positions" sector included, each position has its target
    weight over 100 times the portfolio target value as target value, the
    sector target value is the sum of these, and the sector target weight
    is the sum of the target weights of its positions when the portfolio
    target value is positive and 0 otherwise, the division being
    guarded. *)
Theorem unconstrained_sector_totals
    (portfolio_builder_data : gmap string builder_data)
    (target_allocations : list target_portfolio)
    (total_current_value : Q) (pd : pdata) :
  let entry := allocation_targets_of_portfolio portfolio_builder_data
                 target_allocations total_current_value pd in
  let portfolio_target_value :=
    (pe_targetWeight entry / 100) * total_current_value in
  pe_targetValue entry = Some portfolio_target_value
  /\ Forall (fun s =>
               Forall (fun pos =>
                         targetValue pos
                         = Some ((targetAllocation pos / 100)
                                 * portfolio_target_value))
                      (sector_positions s)
               /\ sector_consistent portfolio_target_value s
               /\ (exists w, sector_targetWeight s = Some w
                             /\ (0 < portfolio_target_value ->
                                 w == Qsum (map targetAllocation
                                                (sector_positions s)))
                             /\ (portfolio_target_value <= 0 -> w = 0)))
            (pe_sectors entry).
Proof. apply allocation_targets_sectors. Qed.

(** X19 (a portfolio without configuration).  A portfolio whose name is
    the name of no entry of the target allocations gets a target weight
    of 0 and a target value of 0, and so does each of its positions; the
    type-constrained allocation then returns it as it is. *)
Theorem unconfigured_portfolio
    (portfolio_builder_data : gmap string builder_data)
    (target_allocations : list target_portfolio)
    (total_current_value : Q) (r : option rules) (pd : pdata) :
  Forall (fun p => tp_name p <> Some (pd_name pd)) target_allocations ->
  let entry := allocation_targets_of_portfolio portfolio_builder_data
                 target_allocations total_current_value pd in
  pe_targetWeight entry = 0
  /\ default 0 (pe_targetValue entry) == 0
  /\ Forall (fun s => Forall (fun pos => get_targetValue pos == 0)
                             (sector_positions s))
            (pe_sectors entry)
  /\ constrain_portfolio r entry = entry.
Proof.
  intros H entry.
  assert (W : portfolio_target_weight_of target_allocations (pd_name pd) = 0).
  { unfold portfolio_target_weight_of.
    destruct (List.find _ target_allocations) as [p|] eqn:F; [|reflexivity].
    apply find_some in F as [Hin E]. apply bool_decide_eq_true in E.
    rewrite Forall_forall in H. apply list_elem_of_In, H in Hin. contradiction. }
  assert (V : default 0 (pe_targetValue entry) == 0).
  { unfold entry. cbn [allocation_targets_of_portfolio pe_targetValue default].
    rewrite W. simpl. field. }
  split; [exact W|]. split; [exact V|]. split.
  - destruct (allocation_targets_sectors portfolio_builder_data
                target_allocations total_current_value pd) as [_ S].
    fold entry in S. eapply Forall_impl; [exact S|]. simpl.
    intros s (HP & _). eapply Forall_impl; [exact HP|]. simpl.
    intros pos E. unfold get_targetValue. rewrite E. simpl.
    change (pe_targetWeight entry)
      with (portfolio_target_weight_of target_allocations (pd_name pd)).
    rewrite W. field.
  - apply constrain_portfolio_zero, V.
Qed.

Lemma unconfigured_portfolio_witness :
  let entry := allocation_targets_of_portfolio ∅ [] 10000
                 (default (PData "" [] 0) (snd <$> head scenario_C_map)) in
  pe_targetWeight entry = 0
  /\ default 0 (pe_targetValue entry) == 0
  /\ Forall (fun s => Forall (fun pos => get_targetValue pos == 0)
                             (sector_positions s))
            (pe_sectors entry)
  /\ constrain_portfolio None entry = entry.
Proof.
  apply (unconfigured_portfolio ∅ [] 10000 None
           (default (PData "" [] 0) (snd <$> head scenario_C_map))).
  constructor.
Defined.

Lemma position_lookup_fold_other (l : list position) (n : string)
      (m : gmap string position) :
  Forall (fun v => name v <> n) l ->
  foldl (fun m pos => <[name pos := pos]> m) m l !! n = m !! n.
Proof.
  revert m. induction l as [|v l IH]; intros m H; [reflexivity|].
  inversion H; subst. simpl. rewrite IH by assumption.
  apply lookup_insert_ne. assumption.
Qed.

(** Insert, then look up: in a list of distinct names each position is
    found under its own name. *)
Lemma position_lookup_of_NoDup (l : list position) (q : position) :
  NoDup (map name l) -> In q l ->
  position_lookup_of l !! name q = Some q.
Proof.
  unfold position_lookup_of. generalize (∅ : gmap string position).
  induction l as [|v l IH]; intros m ND Hin; [contradiction|].
  cbn [map] in ND. apply NoDup_cons in ND as [Hv ND].
  simpl. destruct Hin as [->|Hin].
  - rewrite position_lookup_fold_other.
    + apply lookup_insert_eq.
    + apply Forall_forall. intros w Hw E. apply Hv.
      rewrite <- E. apply list_elem_of_In, in_map, list_elem_of_In, Hw.
  - apply IH; assumption.
Qed.

(** With several positions of one name the last one is found: the dict
    comprehension of line 827 overwrites. *)
Lemma position_lookup_of_last (l : list position) (q : position) :
  position_lookup_of (l ++ [q]) !! name q = Some q.
Proof.
  unfold position_lookup_of. rewrite foldl_app. simpl.
  apply lookup_insert_eq.
Qed.

(** X20 (the tree receives the allocator's results).  In a portfolio
    whose target value is not 0 and whose valid positions have distinct
    names, every valid position of a sector that is not a placeholder
    sector comes back carrying the result the allocator returned for it:
    the four capping keys of that result, and its constrained target
    value as target value; its other keys are unchanged. *)
Theorem valid_positions_receive_their_result
    (r : option rules) (portfolio : portfolio_entry) :
  ~ default 0 (pe_targetValue portfolio) == 0 ->
  NoDup (map name (valid_positions_of (pe_sectors portfolio))) ->
  let valid_positions := valid_positions_of (pe_sectors portfolio) in
  let all_positions_data :=
    fst (_apply_type_constraints_recursive valid_positions
           (default 0 (pe_targetValue portfolio))
           (max_stock_pct_of r) (max_etf_pct_of r) (pe_name portfolio)
           0 100 (max_crypto_pct_of r)) in
  Forall2 (fun s s' =>
             sector_isPlaceholder s = false ->
             Forall2 (fun pos pos' =>
                        isPlaceholder pos = false ->
                        is_valid pos = true ->
                        exists i q,
                          valid_positions !! i = Some pos
                          /\ all_positions_data !! i = Some q
                          /\ carries_result q pos pos')
                     (sector_positions s) (sector_positions s'))
          (pe_sectors portfolio)
          (pe_sectors (constrain_portfolio r portfolio)).
Proof.
  intros Z ND. cbv zeta.
  remember (valid_positions_of (pe_sectors portfolio)) as valid_positions
    eqn:V.
  assert (InValid : forall s pos,
             In s (pe_sectors portfolio) ->
             sector_isPlaceholder s = false ->
             In pos (sector_positions s) ->
             isPlaceholder pos = false -> is_valid pos = true ->
             In pos valid_positions).
  { intros s pos Hs Ph Hp Pp Vp. rewrite V. apply filter_In.
    split; [|exact Vp].
    unfold all_positions_of. apply in_flat_map. exists s. split; [exact Hs|].
    rewrite Ph. apply filter_In. split; [exact Hp|]. rewrite Pp. reflexivity. }
  unfold constrain_portfolio. rewrite <- V.
  destruct (Qeq_bool (default 0 (pe_targetValue portfolio)) 0) eqn:Zb;
    [apply Qeq_bool_iff in Zb; contradiction|].
  clear V.
  destruct valid_positions as [|v vs].
  { apply Forall_Forall2_diag, Forall_forall. intros s Hs Ph.
    apply Forall_Forall2_diag, Forall_forall. intros pos Hp Pp Vp.
    destruct (InValid s pos (proj1 (list_elem_of_In _ _) Hs) Ph
                (proj1 (list_elem_of_In _ _) Hp) Pp Vp). }
  set (valid_positions := v :: vs) in *.
  set (all_positions_data :=
         fst (_apply_type_constraints_recursive valid_positions
                (default 0 (pe_targetValue portfolio))
                (max_stock_pct_of r) (max_etf_pct_of r) (pe_name portfolio)
                0 100 (max_crypto_pct_of r))).
  cbn [set_sectors pe_sectors]. rewrite map_map.
  apply Forall2_fmap_r, Forall_Forall2_diag, Forall_forall.
  intros s Hs Ph. unfold compose. rewrite sector_positions_updated, Ph.
  apply Forall2_fmap_r, Forall_Forall2_diag, Forall_forall.
  intros pos Hp Pp Vp. unfold compose.
  pose proof (InValid s pos (proj1 (list_elem_of_In _ _) Hs) Ph
                (proj1 (list_elem_of_In _ _) Hp) Pp Vp) as Hin.
  apply list_elem_of_In, list_elem_of_lookup in Hin as [i Hi].
  pose proof (run_carried_positions valid_positions
                (default 0 (pe_targetValue portfolio))
                (max_stock_pct_of r) (max_etf_pct_of r) (pe_name portfolio)
                100 (max_crypto_pct_of r) ltac:(lia)) as K.
  fold all_positions_data in K.
  destruct (Forall2_lookup_l _ _ _ _ _ K Hi) as (q & Hq & (M & _)).
  exists i, q. split; [exact Hi|]. split; [exact Hq|].
  assert (L : position_lookup_of all_positions_data !! name pos = Some q).
  { destruct M as (N & _). rewrite <- N.
    apply position_lookup_of_NoDup.
    - unfold all_positions_data. rewrite run_names. exact ND.
    - apply list_elem_of_In, list_elem_of_lookup. eauto. }
  unfold update_position. rewrite L.
  repeat split.
Qed.

Lemma valid_positions_receive_their_result_witness :
  let valid_positions := valid_positions_of (pe_sectors scenario_C) in
  let all_positions_data :=
    fst (_apply_type_constraints_recursive valid_positions
           (default 0 (pe_targetValue scenario_C))
           (max_stock_pct_of None) (max_etf_pct_of None) (pe_name scenario_C)
           0 100 (max_crypto_pct_of None)) in
  Forall2 (fun s s' =>
             sector_isPlaceholder s = false ->
             Forall2 (fun pos pos' =>
                        isPlaceholder pos = false ->
                        is_valid pos = true ->
                        exists i q,
                          valid_positions !! i = Some pos
                          /\ all_positions_data !! i = Some q
                          /\ carries_result q pos pos')
                     (sector_positions s) (sector_positions s'))
          (pe_sectors scenario_C)
          (pe_sectors (constrain_portfolio None scenario_C)).
Proof.
  apply (valid_positions_receive_their_result None scenario_C).
  - intros H. vm_compute in H. discriminate H.
  - apply (bool_decide_unpack _). vm_compute. exact I.
Defined.

Lemma constrain_portfolio_targetValue (r : option rules) (portfolio : portfolio_entry) :
  pe_targetValue (constrain_portfolio r portfolio) = pe_targetValue portfolio.
Proof.
  unfold constrain_portfolio.
  destruct (Qeq_bool _ 0); [reflexivity|].
  destruct (valid_positions_of _); reflexivity.
Qed.

Lemma constrain_portfolio_consistent (r : option rules) (portfolio : portfolio_entry) :
  Forall (sector_consistent (default 0 (pe_targetValue portfolio)))
         (pe_sectors portfolio) ->
  Forall (sector_consistent (default 0 (pe_targetValue portfolio)))
         (pe_sectors (constrain_portfolio r portfolio)).
Proof.
  intros H. unfold constrain_portfolio.
  destruct (Qeq_bool _ 0); [exact H|].
  destruct (valid_positions_of _) as [|v vs]; [exact H|].
  cbn [set_sectors pe_sectors]. rewrite map_map. apply Forall_map.
  eapply Forall_impl; [exact H|]. intros s Hs. cbv beta.
  destruct s as [n ps cv pc ph tv tw].
  unfold recalculate_sector, update_sector. cbn [sector_isPlaceholder].
  destruct ph; cbn [sector_isPlaceholder]; [exact Hs|].
  split; reflexivity.
Qed.

(** X21 (sector totals stay consistent).  In every portfolio the
    type-constrained allocation returns, whether it was passed over or
    constrained, every sector, the "Missing Positions" sector included,
    has as target value the sum of the target values of its positions as
    they are returned, and as target weight that sum as a percentage of
    the portfolio target value, or 0 when the portfolio target value is
    not positive. *)
Theorem sector_totals_are_consistent
    (portfolio_map : list (string * pdata))
    (portfolio_builder_data : gmap string builder_data)
    (target_allocations : list target_portfolio)
    (total_current_value : Q) (r : option rules) :
  Forall (fun portfolio =>
            Forall (sector_consistent (default 0 (pe_targetValue portfolio)))
                   (pe_sectors portfolio))
         (calculate_allocation_targets_with_type_constraints portfolio_map
            portfolio_builder_data target_allocations total_current_value r).
Proof.
  unfold calculate_allocation_targets_with_type_constraints,
    calculate_allocation_targets.
  rewrite map_map. apply Forall_map, Forall_forall. intros [pid pd] _.
  cbn [snd]. rewrite constrain_portfolio_targetValue.
  apply constrain_portfolio_consistent.
  destruct (allocation_targets_sectors portfolio_builder_data
              target_allocations total_current_value pd) as [E S].
  rewrite E. cbn [default].
  eapply Forall_impl; [exact S|]. intros s (_ & C & _). exact C.
Qed.

(** X9 (portfolio target value that is not positive).  Entered at
    iteration 0 with a portfolio target value of 0 or less and a ceiling
    of at least one pass, the allocator makes no pass: it logs the
    zero-value warning and returns every position capped, with a
    constrained target value of 0, the rule "zero_portfolio_value" and its
    input target as unconstrained target value, whatever its type. *)
Theorem nonpositive_target_value_caps_everything
    (positions : list position) (portfolio_target_value : Q)
    (max_stock_pct max_etf_pct : Q) (portfolio_name : string)
    (max_iterations : nat) (max_crypto_pct : Q) :
  portfolio_target_value <= 0 ->
  (0 < max_iterations)%nat ->
  snd (_apply_type_constraints_recursive positions portfolio_target_value
         max_stock_pct max_etf_pct portfolio_name 0 max_iterations
         max_crypto_pct)
  = LogZeroPortfolioValue
  /\ Forall2 (fun pos pos' =>
                same_but_meta pos pos'
                /\ get_is_capped pos' = true
                /\ get_ctv pos' = 0
                /\ get_utv pos' = get_targetValue pos
                /\ get_rule pos' = Some "zero_portfolio_value"%string)
             positions
             (fst (_apply_type_constraints_recursive positions
                     portfolio_target_value max_stock_pct max_etf_pct
                     portfolio_name 0 max_iterations max_crypto_pct)).
Proof.
  intros P M.
  destruct (zero_value_exit positions portfolio_target_value max_stock_pct
              max_etf_pct portfolio_name max_iterations max_crypto_pct P M)
    as [E _].
  rewrite E. split; [reflexivity|]. cbn [fst].
  apply Forall2_fmap_r, Forall_Forall2_diag, Forall_forall.
  intros pos _. repeat split.
Qed.

Lemma nonpositive_target_value_caps_everything_witness :
  snd (_apply_type_constraints_recursive scenario_A (-100) 50 5 "A" 0 100 5)
  = LogZeroPortfolioValue
  /\ Forall2 (fun pos pos' =>
                same_but_meta pos pos'
                /\ get_is_capped pos' = true
                /\ get_ctv pos' = 0
                /\ get_utv pos' = get_targetValue pos
                /\ get_rule pos' = Some "zero_portfolio_value"%string)
             scenario_A
             (fst (_apply_type_constraints_recursive scenario_A (-100) 50 5
                     "A" 0 100 5)).
Proof.
  apply (nonpositive_target_value_caps_everything scenario_A (-100) 50 5 "A"
           100 5).
  - vm_compute. discriminate.
  - lia.
Defined.

Section Validation.

Import AllocationService.



End Validation.

(** ** The position aggregator *)

(** *** Dicts kept as their items *)

Lemma alist_has_key {V} (k : string) (d : list (string * V)) :
  existsb (fun kv => String.eqb (fst kv) k) d = true <-> In k (map fst d).
Proof.
  rewrite existsb_exists, in_map_iff. split.
  - intros (kv & Hin & E). apply String.eqb_eq in E. eauto.
  - intros (kv & E & Hin). exists kv. split; [exact Hin|].
    apply String.eqb_eq, E.
Qed.

Lemma alist_setdefault_In {V} (k : string) (v : V) (d : list (string * V))
      (kv : string * V) :
  In kv (alist_setdefault k v d)
  <-> In kv d \/ (~ In k (map fst d) /\ kv = (k, v)).
Proof.
  unfold alist_setdefault.
  destruct (existsb _ d) eqn:E.
  - apply alist_has_key in E. tauto.
  - assert (~ In k (map fst d)) as N.
    { intros H. apply alist_has_key in H. congruence. }
    rewrite in_app_iff. simpl. split.
    + intros [H | [<- | []]]; auto.
    + intros [H | [_ ->]]; auto.
Qed.

Lemma alist_setdefault_keys {V} (k : string) (v : V) (d : list (string * V)) :
  In k (map fst (alist_setdefault k v d)).
Proof.
  unfold alist_setdefault.
  destruct (existsb _ d) eqn:E.
  - apply alist_has_key, E.
  - rewrite map_app, in_app_iff. right. left. reflexivity.
Qed.

Lemma alist_setdefault_key_In {V} (k k' : string) (v : V)
      (d : list (string * V)) :
  In k' (map fst (alist_setdefault k v d)) <-> In k' (map fst d) \/ k' = k.
Proof.
  unfold alist_setdefault.
  destruct (existsb _ d) eqn:E.
  - apply alist_has_key in E. split; [auto|]. intros [H | ->]; assumption.
  - rewrite map_app, in_app_iff. simpl. split.
    + intros [H | [<- | []]]; auto.
    + intros [H | ->]; auto.
Qed.

Lemma alist_setdefault_NoDup {V} (k : string) (v : V) (d : list (string * V)) :
  NoDup (map fst d) -> NoDup (map fst (alist_setdefault k v d)).
Proof.
  intros ND. unfold alist_setdefault.
  destruct (existsb _ d) eqn:E; [exact ND|].
  rewrite map_app. apply NoDup_app. split; [exact ND|]. split.
  - intros x Hx Hk. apply list_elem_of_In in Hk. destruct Hk as [<- | []].
    apply list_elem_of_In in Hx. apply (proj2 (alist_has_key _ _)) in Hx.
    cbn [fst] in Hx. congruence.
  - apply NoDup_singleton.
Qed.

Lemma alist_adjust_keys {V} (k : string) (f : V -> V) (d : list (string * V)) :
  map fst (alist_adjust k f d) = map fst d.
Proof.
  unfold alist_adjust. rewrite map_map. apply map_ext.
  intros [k' v]. simpl. destruct (String.eqb k' k); reflexivity.
Qed.

Lemma alist_adjust_In {V} (k : string) (f : V -> V) (d : list (string * V))
      (k' : string) (v' : V) :
  In (k', v') (alist_adjust k f d)
  <-> exists v, In (k', v) d /\ v' = if String.eqb k' k then f v else v.
Proof.
  unfold alist_adjust. rewrite in_map_iff. split.
  - intros ([k0 v0] & E & Hin). simpl in E.
    destruct (String.eqb k0 k) eqn:B; injection E as Ek Ev; subst k';
      exists v0; rewrite B; split; auto.
  - intros (v & Hin & ->). exists (k', v). simpl.
    destruct (String.eqb k' k); auto.
Qed.

(** Updating the value of one key of a dict adds to a sum over the
    values what it adds to that value. *)
Lemma alist_adjust_Qsum {V} (g : V -> Q) (delta : Q) (k : string)
      (f : V -> V) (d : list (string * V)) :
  NoDup (map fst d) -> In k (map fst d) ->
  (forall v, g (f v) == g v + delta) ->
  Qsum (map (fun kv => g (snd kv)) (alist_adjust k f d))
  == Qsum (map (fun kv => g (snd kv)) d) + delta.
Proof.
  intros ND Hin Hf. induction d as [|[k0 v0] d IH]; [contradiction|].
  cbn [map fst] in ND. apply NoDup_cons in ND as [Hk0 ND].
  unfold alist_adjust in *. cbn [map fst snd]. rewrite !Qsum_cons.
  destruct (String.eqb k0 k) eqn:B.
  - apply String.eqb_eq in B. subst k0. cbn [snd]. rewrite Hf.
    assert (map (fun kv : string * V =>
                   if String.eqb (fst kv) k then (fst kv, f (snd kv)) else kv) d
            = d) as ->.
    { rewrite <- (map_id d) at 2. apply map_ext_in. intros [k1 v1] H1. simpl.
      destruct (String.eqb k1 k) eqn:B1; [|reflexivity].
      apply String.eqb_eq in B1. subst k1. exfalso. apply Hk0.
      apply list_elem_of_In. apply (in_map fst) in H1. exact H1. }
    lra.
  - cbn [snd]. rewrite IH; [lra|exact ND|].
    destruct Hin as [E | Hin]; [|exact Hin].
    simpl in E. subst k0. rewrite String.eqb_refl in B. discriminate.
Qed.

Lemma alist_setdefault_Qsum {V} (g : V -> Q) (k : string) (v : V)
      (d : list (string * V)) :
  g v == 0 ->
  Qsum (map (fun kv => g (snd kv)) (alist_setdefault k v d))
  == Qsum (map (fun kv => g (snd kv)) d).
Proof.
  intros Hv. unfold alist_setdefault. destruct (existsb _ d); [reflexivity|].
  rewrite map_app, Qsum_app. cbn [map snd]. rewrite Qsum_cons, Qsum_nil, Hv.
  lra.
Qed.

(** *** The loop over the rows *)

Section AggregatorRows.

Context {Columns : Type} (calculate_item_value : row Columns -> Q).
Context (position_target_weights : gmap (string * option string) Q).
Context (portfolio_builder_data : gmap string builder_config).
Context (r : option rules).

Lemma filter_snoc {A} (f : A -> bool) (l : list A) (a : A) :
  List.filter f (l ++ [a]) = List.filter f l ++ (if f a then [a] else []).
Proof. rewrite List.filter_app. reflexivity. Qed.

Lemma in_sector_none (pid sector_name : string) (rows : list (row Columns)) :
  ~ In sector_name (map sector_name_of (List.filter (in_portfolio pid) rows)) ->
  List.filter (in_sector pid sector_name) rows = [].
Proof.
  induction rows as [|row rows IH]; intros N; [reflexivity|].
  simpl in *. unfold in_sector at 1.
  destruct (in_portfolio pid row) eqn:B; simpl in *.
  - destruct (String.eqb (sector_name_of row) sector_name) eqn:S.
    + apply String.eqb_eq in S. tauto.
    + apply IH. tauto.
  - apply IH, N.
Qed.

Lemma in_portfolio_none (pid : string) (rows : list (row Columns)) :
  ~ In pid (map row_portfolio_id rows) ->
  List.filter (in_portfolio pid) rows = [].
Proof.
  induction rows as [|row rows IH]; intros N; [reflexivity|].
  simpl in *. unfold in_portfolio at 1.
  destruct (String.eqb (row_portfolio_id row) pid) eqn:B; simpl.
  - apply String.eqb_eq in B. tauto.
  - apply IH. tauto.
Qed.

Lemma in_sector_of_portfolio_none (pid sector_name : string)
      (rows : list (row Columns)) :
  List.filter (in_portfolio pid) rows = [] ->
  List.filter (in_sector pid sector_name) rows = [].
Proof.
  intros E. apply in_sector_none. rewrite E. simpl. tauto.
Qed.

(** What the entry [pd] of portfolio [pid] holds once the rows [rows]
    have been read. *)
Lemma entry_of_no_rows (pid pname : string) (rows : list (row Columns)) :
  ~ In pid (map row_portfolio_id rows) ->
  aggregate_of calculate_item_value
    (position_of_row calculate_item_value position_target_weights
                     portfolio_builder_data r)
    rows pid (PData pname [] 0).
Proof.
  intros N. apply in_portfolio_none in N.
  unfold aggregate_of. cbn [pd_sectors pd_currentValue map]. rewrite N.
  split; [apply NoDup_nil_2|]. split; [intros s; simpl; tauto|].
  split; [intros s cat []|]. split; reflexivity.
Qed.

Lemma entry_after_row (pid : string) (pd : pdata) (rows : list (row Columns))
      (row : row Columns) :
  aggregate_of calculate_item_value
    (position_of_row calculate_item_value position_target_weights
                     portfolio_builder_data r)
    rows pid pd ->
  aggregate_of calculate_item_value
    (position_of_row calculate_item_value position_target_weights
                     portfolio_builder_data r)
    (rows ++ [row]) pid
    (if in_portfolio pid row
     then add_position (sector_name_of row)
            (position_of_row calculate_item_value position_target_weights
                             portfolio_builder_data r row)
            (calculate_item_value row) pd
     else pd).
Proof.
  intros (ND & Keys & Cats & Val & Sum).
  unfold aggregate_of. destruct (in_portfolio pid row) eqn:B.
  - (* the row adds a position to this portfolio *)
    cbn [add_position pd_sectors pd_currentValue].
    rewrite (filter_snoc (in_portfolio pid)), B.
    rewrite !map_app, Qsum_app. cbn [map]. rewrite Qsum_cons, Qsum_nil.
    split; [|split; [|split; [|split]]].
    + rewrite alist_adjust_keys. apply alist_setdefault_NoDup, ND.
    + intros s. rewrite alist_adjust_keys, alist_setdefault_key_In, in_app_iff.
      rewrite Keys. simpl. intuition.
    + intros s cat' Hin.
      apply alist_adjust_In in Hin as (cat & Hin & ->).
      rewrite (filter_snoc (in_sector pid s)).
      assert (in_sector pid s row = String.eqb (sector_name_of row) s) as ->
        by (unfold in_sector; rewrite B; reflexivity).
      apply alist_setdefault_In in Hin as [Hin | [New E]].
      * destruct (Cats s cat Hin) as [Ps Vs].
        rewrite String.eqb_sym.
        destruct (String.eqb (sector_name_of row) s); cbn [sd_positions sd_currentValue].
        -- rewrite !map_app, Qsum_app, Ps, Vs. cbn [map].
           rewrite Qsum_cons, Qsum_nil. split; [reflexivity|lra].
        -- rewrite !app_nil_r. split; assumption.
      * injection E as -> ->. rewrite String.eqb_refl.
        rewrite Keys in New. apply in_sector_none in New. rewrite New.
        cbn [sd_positions sd_currentValue app map].
        rewrite Qsum_cons, Qsum_nil. split; [reflexivity|lra].
    + rewrite Val. lra.
    + rewrite (alist_adjust_Qsum sd_currentValue (calculate_item_value row)).
      * rewrite (alist_setdefault_Qsum sd_currentValue);
          [rewrite Sum; reflexivity|reflexivity].
      * apply alist_setdefault_NoDup, ND.
      * apply alist_setdefault_keys.
      * intros cat. reflexivity.
  - (* the row leaves this portfolio as it is *)
    rewrite (filter_snoc (in_portfolio pid)), B, app_nil_r.
    split; [exact ND|]. split; [exact Keys|]. split; [|split; assumption].
    intros s cat Hin. rewrite (filter_snoc (in_sector pid s)).
    assert (in_sector pid s row = false) as ->
      by (unfold in_sector; rewrite B; reflexivity).
    rewrite app_nil_r.
    apply Cats, Hin.
Qed.

Lemma find_snoc {A} (f : A -> bool) (l : list A) (a : A) :
  List.find f (l ++ [a])
  = match List.find f l with
    | Some x => Some x
    | None => if f a then Some a else None
    end.
Proof.
  induction l as [|x l IH]; simpl; [reflexivity|].
  destruct (f x); [reflexivity|exact IH].
Qed.

Lemma find_no_row (pid : string) (rows : list (row Columns)) :
  ~ In pid (map row_portfolio_id rows) ->
  List.find (fun row => String.eqb (row_portfolio_id row) pid) rows = None.
Proof.
  induction rows as [|row rows IH]; intros N; [reflexivity|].
  simpl in *. destruct (String.eqb (row_portfolio_id row) pid) eqn:B.
  - apply String.eqb_eq in B. tauto.
  - apply IH. tauto.
Qed.

(** The entries of the map after a row: that of the row's portfolio,
    created if it is new, receives the position of the row if the row
    names a company; the others are untouched. *)
Lemma add_row_In (portfolio_map : list (string * pdata)) (row : row Columns)
      (pid : string) (pd' : pdata) :
  In (pid, pd')
     (add_row calculate_item_value position_target_weights
              portfolio_builder_data r portfolio_map row)
  <-> exists pd,
        In (pid, pd)
           (alist_setdefault (row_portfolio_id row)
              (PData (row_portfolio_name row) [] 0) portfolio_map)
        /\ pd' = if in_portfolio pid row
                 then add_position (sector_name_of row)
                        (position_of_row calculate_item_value
                           position_target_weights portfolio_builder_data r row)
                        (calculate_item_value row) pd
                 else pd.
Proof.
  unfold add_row, in_portfolio. cbv zeta.
  destruct (has_company row).
  - rewrite alist_adjust_In, andb_true_r, String.eqb_sym. reflexivity.
  - rewrite andb_false_r. split; [eauto|]. intros (pd & Hin & ->). exact Hin.
Qed.

Lemma add_row_keys (portfolio_map : list (string * pdata)) (row : row Columns) :
  map fst (add_row calculate_item_value position_target_weights
                   portfolio_builder_data r portfolio_map row)
  = map fst (alist_setdefault (row_portfolio_id row)
               (PData (row_portfolio_name row) [] 0) portfolio_map).
Proof.
  unfold add_row. cbv zeta.
  destruct (has_company row); [apply alist_adjust_keys|reflexivity].
Qed.

Lemma add_row_Qsum (portfolio_map : list (string * pdata)) (row : row Columns) :
  NoDup (map fst portfolio_map) ->
  Qsum (map (fun kv => pd_currentValue (snd kv))
            (add_row calculate_item_value position_target_weights
                     portfolio_builder_data r portfolio_map row))
  == Qsum (map (fun kv => pd_currentValue (snd kv)) portfolio_map)
     + (if has_company row then calculate_item_value row else 0).
Proof.
  intros ND. unfold add_row. cbv zeta.
  destruct (has_company row).
  - rewrite (alist_adjust_Qsum pd_currentValue (calculate_item_value row)).
    + rewrite (alist_setdefault_Qsum pd_currentValue); reflexivity.
    + apply alist_setdefault_NoDup, ND.
    + apply alist_setdefault_keys.
    + intros pd. reflexivity.
  - rewrite (alist_setdefault_Qsum pd_currentValue); [lra|reflexivity].
Qed.

(** The invariant of the loop of lines 549-599. *)
Lemma rows_aggregated (rows : list (row Columns)) :
  let portfolio_map :=
    foldl (add_row calculate_item_value position_target_weights
                   portfolio_builder_data r) [] rows in
  NoDup (map fst portfolio_map)
  /\ (forall pid, In pid (map fst portfolio_map)
                  <-> In pid (map row_portfolio_id rows))
  /\ (forall pid pd,
        In (pid, pd) portfolio_map ->
        aggregate_of calculate_item_value
          (position_of_row calculate_item_value position_target_weights
                           portfolio_builder_data r)
          rows pid pd
        /\ exists row0,
             List.find (fun row => String.eqb (row_portfolio_id row) pid) rows
             = Some row0
             /\ pd_name pd = row_portfolio_name row0)
  /\ Qsum (map (fun kv => pd_currentValue (snd kv)) portfolio_map)
     == Qsum (map calculate_item_value (List.filter has_company rows)).
Proof.
  cbv zeta. induction rows as [|row rows IH] using rev_ind.
  - simpl. split; [apply NoDup_nil_2|]. split; [tauto|].
    split; [intros pid pd []|reflexivity].
  - destruct IH as (ND & Keys & Entries & Total).
    rewrite foldl_app. cbn [foldl].
    set (portfolio_map := foldl _ [] rows) in *.
    split; [|split; [|split]].
    + rewrite add_row_keys. apply alist_setdefault_NoDup, ND.
    + intros pid. rewrite add_row_keys, alist_setdefault_key_In, Keys.
      rewrite map_app, in_app_iff. simpl. intuition.
    + intros pid pd' Hin. apply add_row_In in Hin as (pd & Hin & ->).
      apply alist_setdefault_In in Hin as [Hin | [New E]].
      * destruct (Entries pid pd Hin) as (Agg & row0 & F & N).
        split; [apply entry_after_row, Agg|].
        exists row0. rewrite find_snoc, F. split; [reflexivity|].
        destruct (in_portfolio pid row); exact N.
      * injection E as -> ->. rewrite Keys in New. split.
        -- apply entry_after_row, entry_of_no_rows, New.
        -- exists row. rewrite find_snoc, (find_no_row _ _ New).
           rewrite String.eqb_refl. split; [reflexivity|].
           destruct (in_portfolio _ row); reflexivity.
    + rewrite add_row_Qsum by exact ND. rewrite Total.
      rewrite (filter_snoc has_company), map_app, Qsum_app.
      destruct (has_company row); cbn [map];
        rewrite ?Qsum_cons, Qsum_nil; lra.
Qed.

End AggregatorRows.

(** *** The loop over the saved configuration *)

Lemma no_real_positions (positions : list builder_position) :
  Forall (fun p => bp_isPlaceholder p = true) positions ->
  List.filter (fun p => negb (bp_isPlaceholder p)) positions = [].
Proof.
  induction 1 as [|p positions P _ IH]; [reflexivity|].
  cbn [List.filter]. rewrite P. exact IH.
Qed.

Section AggregatorConfiguration.

Context (types : gmap string (option string)) (r : option rules).

(** The weight stored for a real position of a configuration entry
    (lines 528-533). *)
Lemma store_target_weight_real (portfolio_name : string)
      (position_target_weights : gmap (string * option string) Q)
      (position : builder_position) :
  bp_isPlaceholder position = false ->
  store_target_weight types r portfolio_name position_target_weights position
  = <[(portfolio_name, bp_companyName position) :=
        match bp_weight position with
        | Some explicit_weight =>
            if Qltb 0 explicit_weight then explicit_weight
            else get_default_weight types r (bp_companyName position)
        | None => get_default_weight types r (bp_companyName position)
        end]> position_target_weights.
Proof.
  intros R. unfold store_target_weight. rewrite R.
  destruct (bp_weight position) as [w|]; [|reflexivity].
  destruct (Qltb 0 w); reflexivity.
Qed.

Lemma store_target_weights_other (portfolio_name : string)
      (positions : list builder_position)
      (position_target_weights : gmap (string * option string) Q)
      (key : string * option string) :
  Forall (fun p => bp_isPlaceholder p = true
                   \/ (portfolio_name, bp_companyName p) <> key) positions ->
  foldl (store_target_weight types r portfolio_name)
        position_target_weights positions !! key
  = position_target_weights !! key.
Proof.
  intros H. revert position_target_weights.
  induction H as [|p positions Hp _ IH]; intros m; [reflexivity|].
  cbn [foldl]. rewrite IH.
  destruct (bp_isPlaceholder p) eqn:P.
  - unfold store_target_weight. rewrite P. reflexivity.
  - rewrite store_target_weight_real by exact P.
    destruct Hp as [Hp | Hp]; [congruence|].
    apply lookup_insert_ne, Hp.
Qed.

(** The last real position of a company decides. *)
Lemma store_target_weights_last (portfolio_name : string)
      (earlier later : list builder_position) (position : builder_position)
      (position_target_weights : gmap (string * option string) Q) :
  bp_isPlaceholder position = false ->
  Forall (fun p => bp_isPlaceholder p = true
                   \/ bp_companyName p <> bp_companyName position) later ->
  foldl (store_target_weight types r portfolio_name)
        position_target_weights (earlier ++ position :: later)
    !! (portfolio_name, bp_companyName position)
  = Some match bp_weight position with
         | Some explicit_weight =>
             if Qltb 0 explicit_weight then explicit_weight
             else get_default_weight types r (bp_companyName position)
         | None => get_default_weight types r (bp_companyName position)
         end.
Proof.
  intros R L. rewrite foldl_app. cbn [foldl].
  rewrite store_target_weights_other.
  - rewrite store_target_weight_real by exact R. apply lookup_insert_eq.
  - eapply Forall_impl; [exact L|]. intros p [Hp | Hp]; [left; exact Hp|].
    right. congruence.
Qed.

(** An entry leaves the weights and the configuration of the portfolios
    of other names alone. *)
Lemma store_builder_entry_other
      (state : gmap (string * option string) Q * gmap string builder_config)
      (portfolio : builder_portfolio) (pname : string)
      (company : option string) :
  bpf_name portfolio <> Some pname ->
  fst (store_builder_entry types r state portfolio) !! (pname, company)
  = fst state !! (pname, company)
  /\ snd (store_builder_entry types r state portfolio) !! pname
     = snd state !! pname.
Proof.
  intros N. destruct state as [ptw pbd]. unfold store_builder_entry.
  destruct (bpf_name portfolio) as [portfolio_name|]; [|split; reflexivity].
  destruct (negb (truthy_string (Some portfolio_name))); [split; reflexivity|].
  cbv zeta. assert (portfolio_name <> pname) as D by congruence.
  cbn [fst snd]. split.
  - apply store_target_weights_other, Forall_forall. intros p _. right.
    congruence.
  - match goal with |- context [if ?b then _ else _] => destruct b end;
      rewrite ?lookup_insert_ne by exact D; reflexivity.
Qed.

Lemma store_builder_entries_other
      (entries : list builder_portfolio)
      (state : gmap (string * option string) Q * gmap string builder_config)
      (pname : string) (company : option string) :
  Forall (fun p => bpf_name p <> Some pname) entries ->
  fst (foldl (store_builder_entry types r) state entries) !! (pname, company)
  = fst state !! (pname, company)
  /\ snd (foldl (store_builder_entry types r) state entries) !! pname
     = snd state !! pname.
Proof.
  intros H. revert state.
  induction H as [|p entries Hp _ IH]; intros state; [split; reflexivity|].
  cbn [foldl]. destruct (IH (store_builder_entry types r state p)) as [E1 E2].
  destruct (store_builder_entry_other state p pname company Hp) as [F1 F2].
  split; congruence.
Qed.

(** The state after the one entry of a name: its weights are those its
    positions store, its configuration is flagged when the entry holds
    placeholders only and the first of them has a weight. *)
Lemma store_builder_entry_named
      (state : gmap (string * option string) Q * gmap string builder_config)
      (portfolio : builder_portfolio) (pname : string)
      (company : option string) :
  bpf_name portfolio = Some pname -> pname <> ""%string ->
  fst (store_builder_entry types r state portfolio) !! (pname, company)
  = foldl (store_target_weight types r pname) (fst state)
          (default [] (bpf_positions portfolio)) !! (pname, company)
  /\ exists c,
       snd (store_builder_entry types r state portfolio) !! pname = Some c
       /\ (bc_use_placeholder_weight c = true ->
           Forall (fun p => bp_isPlaceholder p = true)
                  (default [] (bpf_positions portfolio)))
       /\ forall placeholder rest,
            default [] (bpf_positions portfolio) = placeholder :: rest ->
            Forall (fun p => bp_isPlaceholder p = true) (placeholder :: rest) ->
            truthy_weight (bp_weight placeholder) = true ->
            bc_use_placeholder_weight c = true
            /\ bc_placeholder_weight c = bp_weight placeholder.
Proof.
  intros N NE. destruct state as [ptw pbd]. unfold store_builder_entry.
  rewrite N.
  assert (truthy_string (Some pname) = true) as ->.
  { simpl. destruct (String.eqb pname "") eqn:B; [|reflexivity].
    apply String.eqb_eq in B. contradiction. }
  cbn [negb]. cbv zeta. cbn [fst snd]. split; [reflexivity|].
  set (positions := default [] (bpf_positions portfolio)).
  match goal with |- context [if ?b then _ else _] => destruct b eqn:B end.
  - eexists. split; [apply lookup_insert_eq|]. cbn [bc_use_placeholder_weight
      bc_placeholder_weight].
    apply andb_true_iff in B as [B _]. apply andb_true_iff in B as [B1 B2].
    apply Nat.eqb_eq in B1. rewrite B1, B2. cbn [andb].
    assert (Forall (fun p => bp_isPlaceholder p = true) positions) as AllP.
    { apply Forall_forall. intros p Hp.
      destruct (bp_isPlaceholder p) eqn:P; [reflexivity|].
      apply length_zero_iff_nil in B1.
      assert (In p (List.filter (fun p => negb (bp_isPlaceholder p)) positions))
        as Hin by (apply filter_In; split;
                   [apply list_elem_of_In, Hp|rewrite P; reflexivity]).
      rewrite B1 in Hin. destruct Hin. }
    split; [intros _; exact AllP|].
    intros placeholder rest E All _. split; [reflexivity|].
    rewrite E. cbn [List.filter].
    apply Forall_cons in All as [-> _]. reflexivity.
  - eexists. split; [apply lookup_insert_eq|].
    cbn [bc_use_placeholder_weight bc_placeholder_weight].
    split; [discriminate|].
    intros placeholder rest E All T. exfalso.
    fold positions in E. rewrite E in B.
    rewrite (no_real_positions _ All) in B. cbn [length Nat.eqb andb] in B.
    apply Forall_cons in All as [P All]. cbn [List.filter] in B.
    rewrite P in B. cbn [length Nat.ltb Nat.leb andb] in B.
    rewrite T in B. discriminate.
Qed.

End AggregatorConfiguration.

(** *** The aggregator *)

Section AggregatorOutput.

Context {Columns : Type} (calculate_item_value : row Columns -> Q).

Lemma company_investment_types_other (rows : list (row Columns))
      (m : gmap string (option string)) (company : string) :
  Forall (fun row => row_company_name row <> Some company) rows ->
  foldl (fun m row =>
           match row_company_name row with
           | Some company_name =>
               if truthy_string (Some company_name)
               then <[company_name := row_investment_type row]> m
               else m
           | None => m
           end) m rows !! company
  = m !! company.
Proof.
  intros H. revert m. induction H as [|row rows Hr _ IH]; intros m;
    [reflexivity|].
  cbn [foldl]. rewrite IH.
  destruct (row_company_name row) as [c|]; [|reflexivity].
  destruct (truthy_string (Some c)); [|reflexivity].
  apply lookup_insert_ne. congruence.
Qed.

(** The type recorded for a company is that of the last row naming it. *)
Lemma company_investment_types_last (earlier later : list (row Columns))
      (last_row : row Columns) (company : string) :
  row_company_name last_row = Some company -> company <> ""%string ->
  Forall (fun row => row_company_name row <> Some company) later ->
  company_investment_types (earlier ++ last_row :: later) !! company
  = Some (row_investment_type last_row).
Proof.
  intros C NE L. unfold company_investment_types.
  rewrite foldl_app. cbn [foldl].
  rewrite company_investment_types_other by exact L.
  rewrite C.
  assert (truthy_string (Some company) = true) as ->.
  { simpl. destruct (String.eqb company "") eqn:B; [|reflexivity].
    apply String.eqb_eq in B. contradiction. }
  apply lookup_insert_eq.
Qed.

Lemma builder_state_unnamed (portfolio_data : list (row Columns))
      (target_allocations : list builder_portfolio) (r : option rules)
      (pname : string) (company : option string) :
  Forall (fun p => bpf_name p <> Some pname) target_allocations ->
  fst (builder_state portfolio_data target_allocations r) !! (pname, company)
  = None
  /\ snd (builder_state portfolio_data target_allocations r) !! pname = None.
Proof.
  intros H. unfold builder_state.
  destruct (store_builder_entries_other
              (company_investment_types portfolio_data) r target_allocations
              (∅, ∅) pname company H) as [-> ->].
  split; apply lookup_empty.
Qed.

Lemma builder_state_named (portfolio_data : list (row Columns))
      (before after : list builder_portfolio) (portfolio : builder_portfolio)
      (r : option rules) (pname : string) (company : option string) :
  bpf_name portfolio = Some pname -> pname <> ""%string ->
  Forall (fun p => bpf_name p <> Some pname) (before ++ after) ->
  exists position_target_weights c,
    position_target_weights !! (pname, company) = None
    /\ fst (builder_state portfolio_data (before ++ portfolio :: after) r)
         !! (pname, company)
       = foldl (store_target_weight (company_investment_types portfolio_data)
                                    r pname)
               position_target_weights
               (default [] (bpf_positions portfolio)) !! (pname, company)
    /\ snd (builder_state portfolio_data (before ++ portfolio :: after) r)
         !! pname = Some c
    /\ (bc_use_placeholder_weight c = true ->
        Forall (fun p => bp_isPlaceholder p = true)
               (default [] (bpf_positions portfolio)))
    /\ forall placeholder rest,
         default [] (bpf_positions portfolio) = placeholder :: rest ->
         Forall (fun p => bp_isPlaceholder p = true) (placeholder :: rest) ->
         truthy_weight (bp_weight placeholder) = true ->
         bc_use_placeholder_weight c = true
         /\ bc_placeholder_weight c = bp_weight placeholder.
Proof.
  intros N NE Others. apply Forall_app in Others as [B A].
  unfold builder_state. rewrite foldl_app. cbn [foldl].
  set (types := company_investment_types portfolio_data).
  set (state := foldl (store_builder_entry types r) (∅, ∅) before).
  destruct (store_builder_entries_other types r before (∅, ∅) pname company B)
    as [S1 _]. fold state in S1. change (fst (∅, ∅)) with
    (∅ : gmap (string * option string) Q) in S1. rewrite lookup_empty in S1.
  destruct (store_builder_entries_other types r after
              (store_builder_entry types r state portfolio) pname company A)
    as [-> ->].
  destruct (store_builder_entry_named types r state portfolio pname company
              N NE) as (-> & c & Hc & Flag & Placeholder).
  exists (fst state), c. auto.
Qed.

(** Every position of the map is the position of a row of its
    portfolio and sector. *)
Lemma position_in_output (portfolio_data : list (row Columns))
      (target_allocations : list builder_portfolio) (r : option rules)
      (pid : string) (pd : pdata) (sector_name : string) (cat : sector_data)
      (pos : position) :
  In (pid, pd)
     (fst (get_portfolio_positions calculate_item_value portfolio_data
                                   target_allocations r)) ->
  In (sector_name, cat) (pd_sectors pd) ->
  In pos (sd_positions cat) ->
  exists row,
    In row portfolio_data
    /\ row_portfolio_id row = pid
    /\ has_company row = true
    /\ pos = position_of_row calculate_item_value
               (fst (builder_state portfolio_data target_allocations r))
               (snd (builder_state portfolio_data target_allocations r)) r row.
Proof.
  unfold get_portfolio_positions. cbv zeta. cbn [fst].
  intros Hpd Hcat Hpos.
  destruct (rows_aggregated calculate_item_value
              (fst (builder_state portfolio_data target_allocations r))
              (snd (builder_state portfolio_data target_allocations r)) r
              portfolio_data) as (_ & _ & Entries & _).
  destruct (Entries pid pd Hpd) as ((_ & _ & Cats & _) & _).
  destruct (Cats sector_name cat Hcat) as [E _]. rewrite E in Hpos.
  apply in_map_iff in Hpos as (row & <- & Hrow).
  apply filter_In in Hrow as [Hrow S].
  unfold in_sector, in_portfolio in S.
  apply andb_true_iff in S as [S _]. apply andb_true_iff in S as [I C].
  apply String.eqb_eq in I. exists row. auto.
Qed.

Lemma total_current_value_sum (portfolio_data : list (row Columns))
      (target_allocations : list builder_portfolio) (r : option rules) :
  Qsum (map (fun kv => pd_currentValue (snd kv))
            (fst (get_portfolio_positions calculate_item_value portfolio_data
                                          target_allocations r)))
  == Qsum (map calculate_item_value (List.filter has_company portfolio_data)).
Proof.
  unfold get_portfolio_positions. cbv zeta. cbn [fst].
  set (state := builder_state portfolio_data target_allocations r).
  destruct (rows_aggregated calculate_item_value (fst state) (snd state) r
              portfolio_data) as (_ & _ & _ & Total).
  exact Total.
Qed.

End AggregatorOutput.

Section AggregatorTheorems.

Context {Columns : Type} (calculate_item_value : row Columns -> Q).

(** X22 (the sectors hold the rows).  In the map the aggregator
    returns, every sector of every portfolio holds one position for each
    row of that portfolio id that names a company and falls into that
    sector (its own, or "Uncategorized" when the row has none), in the
    order of the rows; no sector is empty; and the current value of the
    sector is the sum of the current values of its positions. *)
Theorem sectors_hold_their_rows (portfolio_data : list (row Columns))
        (target_allocations : list builder_portfolio) (r : option rules) :
  let state := builder_state portfolio_data target_allocations r in
  Forall (fun kv =>
            Forall (fun sc =>
                      sd_positions (snd sc)
                      = map (position_of_row calculate_item_value
                                             (fst state) (snd state) r)
                            (List.filter (in_sector (fst kv) (fst sc))
                                         portfolio_data)
                      /\ sd_positions (snd sc) <> []
                      /\ sd_currentValue (snd sc)
                         == Qsum (map currentValue (sd_positions (snd sc))))
                   (pd_sectors (snd kv)))
         (fst (get_portfolio_positions calculate_item_value portfolio_data
                                       target_allocations r)).
Proof.
  intros state. unfold get_portfolio_positions. cbv zeta. cbn [fst].
  fold state.
  destruct (rows_aggregated calculate_item_value (fst state) (snd state) r
              portfolio_data) as (_ & _ & Entries & _).
  apply Forall_forall. intros [pid pd] Hpd. apply list_elem_of_In in Hpd.
  destruct (Entries pid pd Hpd) as ((_ & Keys & Cats & _) & _).
  apply Forall_forall. intros [s cat] Hcat. apply list_elem_of_In in Hcat.
  cbn [fst snd]. destruct (Cats s cat Hcat) as [Ps Vs].
  split; [exact Ps|]. split.
  - assert (In s (map fst (pd_sectors pd))) as Hs
      by (apply (in_map fst) in Hcat; exact Hcat).
    apply Keys, in_map_iff in Hs as (row & S & Hrow).
    apply filter_In in Hrow as [Hrow B].
    assert (In row (List.filter (in_sector pid s) portfolio_data)) as Hin.
    { apply filter_In. split; [exact Hrow|]. unfold in_sector.
      rewrite B, S. apply String.eqb_refl. }
    rewrite Ps. intros E. apply (in_map (position_of_row calculate_item_value
                                           (fst state) (snd state) r)) in Hin.
    rewrite E in Hin. destruct Hin.
  - rewrite Vs, Ps, map_map. reflexivity.
Qed.

(** X23 (the value of a portfolio).  The current value of every
    portfolio of the map is the sum of the current values of its sectors,
    and it is the sum of the values of the rows of that portfolio id that
    name a company. *)
Theorem portfolio_value_is_the_sum_of_its_sectors
        (portfolio_data : list (row Columns))
        (target_allocations : list builder_portfolio) (r : option rules) :
  Forall (fun kv =>
            pd_currentValue (snd kv)
            == Qsum (map (fun sc => sd_currentValue (snd sc))
                         (pd_sectors (snd kv)))
            /\ pd_currentValue (snd kv)
               == Qsum (map calculate_item_value
                            (List.filter (in_portfolio (fst kv))
                                         portfolio_data)))
         (fst (get_portfolio_positions calculate_item_value portfolio_data
                                       target_allocations r)).
Proof.
  unfold get_portfolio_positions. cbv zeta. cbn [fst].
  set (state := builder_state portfolio_data target_allocations r).
  destruct (rows_aggregated calculate_item_value (fst state) (snd state) r
              portfolio_data) as (_ & _ & Entries & _).
  apply Forall_forall. intros [pid pd] Hpd. apply list_elem_of_In in Hpd.
  destruct (Entries pid pd Hpd) as ((_ & _ & _ & Val & Sum) & _).
  cbn [fst snd]. split; assumption.
Qed.

(** X24 (the total current value).  The total the simulator route
    computes from the map, the sum of the current values of its
    portfolios, is the sum of the values of all the rows that name a
    company. *)
Theorem total_current_value_is_the_sum_of_the_rows
        (portfolio_data : list (row Columns))
        (target_allocations : list builder_portfolio) (r : option rules) :
  Qsum (map (fun kv => pd_currentValue (snd kv))
            (fst (get_portfolio_positions calculate_item_value portfolio_data
                                          target_allocations r)))
  == Qsum (map calculate_item_value (List.filter has_company portfolio_data)).
Proof. apply total_current_value_sum. Qed.

(** X25 (one entry per portfolio id).  The map has one entry for each
    portfolio id of the rows and no other, also for an id none of whose
    rows names a company; an entry carries the portfolio name of the
    first row of its id, and its sectors are distinct and are the sectors
    of the rows of that id that name a company. *)
Theorem one_entry_per_portfolio_id
        (portfolio_data : list (row Columns))
        (target_allocations : list builder_portfolio) (r : option rules) :
  let portfolio_map :=
    fst (get_portfolio_positions calculate_item_value portfolio_data
                                 target_allocations r) in
  NoDup (map fst portfolio_map)
  /\ (forall pid, In pid (map fst portfolio_map)
                  <-> In pid (map row_portfolio_id portfolio_data))
  /\ Forall (fun kv =>
               (exists row0,
                  List.find (fun row => String.eqb (row_portfolio_id row)
                                                   (fst kv))
                            portfolio_data = Some row0
                  /\ pd_name (snd kv) = row_portfolio_name row0)
               /\ NoDup (map fst (pd_sectors (snd kv)))
               /\ forall sector_name,
                    In sector_name (map fst (pd_sectors (snd kv)))
                    <-> In sector_name
                           (map sector_name_of
                                (List.filter (in_portfolio (fst kv))
                                             portfolio_data)))
            portfolio_map.
Proof.
  unfold get_portfolio_positions. cbv zeta. cbn [fst].
  set (state := builder_state portfolio_data target_allocations r).
  destruct (rows_aggregated calculate_item_value (fst state) (snd state) r
              portfolio_data) as (ND & Keys & Entries & _).
  split; [exact ND|]. split; [exact Keys|].
  apply Forall_forall. intros [pid pd] Hpd. apply list_elem_of_In in Hpd.
  destruct (Entries pid pd Hpd) as ((NDs & Ks & _) & First).
  cbn [fst snd]. auto.
Qed.

End AggregatorTheorems.

Lemma default_weight_without_type (r : option rules)
      (investment_type : option string) :
  has_default_weight investment_type = false ->
  default_weight_of_type r investment_type = 0.
Proof.
  destruct investment_type as [t|]; [|reflexivity]. simpl.
  destruct (String.eqb t "Stock"); [discriminate|].
  destruct (String.eqb t "ETF"); [discriminate|].
  destruct (String.eqb t "Crypto"); [discriminate|reflexivity].
Qed.

Section AggregatorWeights.

Context {Columns : Type} (calculate_item_value : row Columns -> Q).

Lemma has_company_name (row : row Columns) :
  has_company row = true ->
  exists company, row_company_name row = Some company
                  /\ company <> ""%string.
Proof.
  unfold has_company, truthy_string.
  destruct (row_company_name row) as [c|]; [|discriminate].
  intros H. exists c. split; [reflexivity|]. intros ->. discriminate.
Qed.

(** X26 (the placeholder weight).  When the one configuration entry of
    a portfolio name holds placeholders only and the first of them has a
    weight other than 0, every position of a portfolio of that name gets
    this weight as target allocation, whatever its investment type. *)
Theorem placeholder_weight_goes_to_every_position
        (portfolio_data : list (row Columns))
        (before after : list builder_portfolio) (portfolio : builder_portfolio)
        (r : option rules) (pname : string)
        (placeholder : builder_position) (rest : list builder_position)
        (w : Q) (pid : string) (pd : pdata) (sector_name : string)
        (cat : sector_data) (pos : position) :
  bpf_name portfolio = Some pname -> pname <> ""%string ->
  Forall (fun p => bpf_name p <> Some pname) (before ++ after) ->
  bpf_positions portfolio = Some (placeholder :: rest) ->
  Forall (fun p => bp_isPlaceholder p = true) (placeholder :: rest) ->
  bp_weight placeholder = Some w -> ~ w == 0 ->
  Forall (fun row => row_portfolio_id row = pid ->
                     row_portfolio_name row = pname) portfolio_data ->
  In (pid, pd)
     (fst (get_portfolio_positions calculate_item_value portfolio_data
                                   (before ++ portfolio :: after) r)) ->
  In (sector_name, cat) (pd_sectors pd) ->
  In pos (sd_positions cat) ->
  targetAllocation pos = w.
Proof.
  intros N NE Others Ps All W NZ Names Hpd Hcat Hpos.
  destruct (position_in_output calculate_item_value _ _ _ _ _ _ _ _
              Hpd Hcat Hpos) as (row & Hrow & I & C & ->).
  rewrite Forall_forall in Names.
  pose proof (Names row (proj2 (list_elem_of_In _ _) Hrow) I) as PN.
  destruct (builder_state_named portfolio_data before after portfolio r pname
              (row_company_name row) N NE Others)
    as (ptw0 & c & E0 & E1 & E2 & _ & Flag).
  rewrite Ps in E1, Flag. cbn [default from_option id] in E1, Flag.
  rewrite store_target_weights_other in E1
    by (eapply Forall_impl; [exact All|]; intros p Hp; left; exact Hp).
  rewrite E0 in E1.
  assert (truthy_weight (bp_weight placeholder) = true) as T.
  { rewrite W. simpl. destruct (Qeq_bool w 0) eqn:B; [|reflexivity].
    apply Qeq_bool_iff in B. contradiction. }
  destruct (Flag placeholder rest eq_refl All T) as [F1 F2].
  cbn [position_of_row targetAllocation]. unfold target_weight_of_row.
  cbv zeta. rewrite PN, E1, E2, F1, F2. cbn [default from_option id].
  change (Qeq_bool 0 0) with true. cbn iota. rewrite T, W. reflexivity.
Qed.

(** X27 (a portfolio without configuration entry).  When no
    configuration entry carries the name of a portfolio, each of its
    positions gets as target allocation the default weight of its own
    investment type: the rule for stocks, ETFs or crypto, and 0 for any
    other type or none. *)
Theorem unconfigured_positions_get_type_defaults
        (portfolio_data : list (row Columns))
        (target_allocations : list builder_portfolio)
        (r : option rules) (pname : string)
        (pid : string) (pd : pdata) (sector_name : string)
        (cat : sector_data) (pos : position) :
  Forall (fun p => bpf_name p <> Some pname) target_allocations ->
  Forall (fun row => row_portfolio_id row = pid ->
                     row_portfolio_name row = pname) portfolio_data ->
  In (pid, pd)
     (fst (get_portfolio_positions calculate_item_value portfolio_data
                                   target_allocations r)) ->
  In (sector_name, cat) (pd_sectors pd) ->
  In pos (sd_positions cat) ->
  targetAllocation pos = default_weight_of_type r (investment_type pos).
Proof.
  intros Others Names Hpd Hcat Hpos.
  destruct (position_in_output calculate_item_value _ _ _ _ _ _ _ _
              Hpd Hcat Hpos) as (row & Hrow & I & C & ->).
  rewrite Forall_forall in Names.
  pose proof (Names row (proj2 (list_elem_of_In _ _) Hrow) I) as PN.
  destruct (builder_state_unnamed portfolio_data target_allocations r pname
              (row_company_name row) Others) as [E1 E2].
  cbn [position_of_row targetAllocation investment_type].
  unfold target_weight_of_row. cbv zeta. rewrite PN, E1, E2.
  cbn [default from_option id]. change (Qeq_bool 0 0) with true. cbn iota. cbn [andb].
  destruct (has_default_weight (row_investment_type row)) eqn:D;
    [reflexivity|].
  symmetry. apply default_weight_without_type, D.
Qed.

(** X28 (an explicit weight wins).  When the one configuration entry of
    a portfolio name lists a company as a real position with a positive
    weight, and no later real position of the entry names that company,
    every position of that company in a portfolio of that name gets this
    weight as target allocation. *)
Theorem explicit_weight_wins
        (portfolio_data : list (row Columns))
        (before after : list builder_portfolio) (portfolio : builder_portfolio)
        (r : option rules) (pname company : string)
        (earlier later : list builder_position) (listed : builder_position)
        (w : Q) (pid : string) (pd : pdata) (sector_name : string)
        (cat : sector_data) (pos : position) :
  bpf_name portfolio = Some pname -> pname <> ""%string ->
  Forall (fun p => bpf_name p <> Some pname) (before ++ after) ->
  bpf_positions portfolio = Some (earlier ++ listed :: later) ->
  bp_isPlaceholder listed = false ->
  bp_companyName listed = Some company ->
  bp_weight listed = Some w -> 0 < w ->
  Forall (fun p => bp_isPlaceholder p = true
                   \/ bp_companyName p <> Some company) later ->
  Forall (fun row => row_portfolio_id row = pid ->
                     row_portfolio_name row = pname) portfolio_data ->
  In (pid, pd)
     (fst (get_portfolio_positions calculate_item_value portfolio_data
                                   (before ++ portfolio :: after) r)) ->
  In (sector_name, cat) (pd_sectors pd) ->
  In pos (sd_positions cat) ->
  name pos = company ->
  targetAllocation pos = w.
Proof.
  intros N NE Others Ps R CN W Wpos Later Names Hpd Hcat Hpos Hname.
  destruct (position_in_output calculate_item_value _ _ _ _ _ _ _ _
              Hpd Hcat Hpos) as (row & Hrow & I & C & ->).
  rewrite Forall_forall in Names.
  pose proof (Names row (proj2 (list_elem_of_In _ _) Hrow) I) as PN.
  destruct (has_company_name row C) as (c & Ec & _).
  unfold position_of_row in Hname. cbn [name] in Hname.
  rewrite Ec in Hname. simpl in Hname. subst c.
  destruct (builder_state_named portfolio_data before after portfolio r pname
              (Some company) N NE Others)
    as (ptw0 & c & _ & E1 & _).
  rewrite Ps in E1. cbn [default from_option id] in E1. rewrite <- CN in E1, Later.
  rewrite store_target_weights_last in E1 by assumption.
  rewrite W in E1.
  assert (Qltb 0 w = true) as LT.
  { unfold Qltb. destruct (Qle_bool w 0) eqn:B; [|reflexivity].
    apply Qle_bool_iff in B. lra. }
  rewrite LT in E1.
  cbn [position_of_row targetAllocation]. unfold target_weight_of_row.
  cbv zeta. rewrite PN, Ec, <- CN, E1. cbn [default from_option id].
  destruct (Qeq_bool w 0) eqn:B; [|reflexivity].
  apply Qeq_bool_iff in B. lra.
Qed.

(** X29 (a real position without positive weight).  When the one
    configuration entry of a portfolio name lists a company as a real
    position whose weight is missing or not positive, the positions of
    that company in a portfolio of that name get the default weight of
    the investment type of the last row that names the company, in
    whichever portfolio that row is; only when that default is 0 does
    the investment type of the position itself decide. *)
Theorem position_without_weight_gets_default_of_last_row
        (earlier_rows later_rows : list (row Columns)) (last_row : row Columns)
        (before after : list builder_portfolio) (portfolio : builder_portfolio)
        (r : option rules) (pname company : string)
        (earlier later : list builder_position) (listed : builder_position)
        (pid : string) (pd : pdata) (sector_name : string)
        (cat : sector_data) (pos : position) :
  let portfolio_data := earlier_rows ++ last_row :: later_rows in
  let default_weight :=
    default_weight_of_type r (row_investment_type last_row) in
  row_company_name last_row = Some company ->
  Forall (fun row => row_company_name row <> Some company) later_rows ->
  bpf_name portfolio = Some pname -> pname <> ""%string ->
  Forall (fun p => bpf_name p <> Some pname) (before ++ after) ->
  bpf_positions portfolio = Some (earlier ++ listed :: later) ->
  bp_isPlaceholder listed = false ->
  bp_companyName listed = Some company ->
  default 0 (bp_weight listed) <= 0 ->
  Forall (fun p => bp_isPlaceholder p = true
                   \/ bp_companyName p <> Some company) later ->
  Forall (fun row => row_portfolio_id row = pid ->
                     row_portfolio_name row = pname) portfolio_data ->
  In (pid, pd)
     (fst (get_portfolio_positions calculate_item_value portfolio_data
                                   (before ++ portfolio :: after) r)) ->
  In (sector_name, cat) (pd_sectors pd) ->
  In pos (sd_positions cat) ->
  name pos = company ->
  targetAllocation pos
  == if Qeq_bool default_weight 0
     then default_weight_of_type r (investment_type pos)
     else default_weight.
Proof.
  intros portfolio_data default_weight LC LR N NE Others Ps R CN W Later
         Names Hpd Hcat Hpos Hname.
  destruct (position_in_output calculate_item_value _ _ _ _ _ _ _ _
              Hpd Hcat Hpos) as (row & Hrow & I & C & ->).
  rewrite Forall_forall in Names.
  pose proof (Names row (proj2 (list_elem_of_In _ _) Hrow) I) as PN.
  destruct (has_company_name row C) as (c & Ec & NEc).
  unfold position_of_row in Hname. cbn [name] in Hname.
  rewrite Ec in Hname. simpl in Hname. subst c.
  destruct (builder_state_named portfolio_data before after portfolio r pname
              (Some company) N NE Others)
    as (ptw0 & c & _ & E1 & E2 & Flag & _).
  rewrite Ps in E1, Flag. cbn [default from_option id] in E1, Flag.
  rewrite <- CN in E1, Later.
  rewrite store_target_weights_last in E1 by assumption.
  assert (match bp_weight listed with
          | Some explicit_weight =>
              if Qltb 0 explicit_weight then explicit_weight
              else get_default_weight
                     (company_investment_types portfolio_data) r
                     (bp_companyName listed)
          | None => get_default_weight
                      (company_investment_types portfolio_data) r
                      (bp_companyName listed)
          end = default_weight) as D.
  { assert (get_default_weight (company_investment_types portfolio_data) r
              (bp_companyName listed) = default_weight) as G.
    { rewrite CN. unfold get_default_weight, portfolio_data.
      rewrite (company_investment_types_last _ _ _ _ LC NEc LR).
      reflexivity. }
    destruct (bp_weight listed) as [w|]; [|exact G].
    cbn [default from_option id] in W. unfold Qltb.
    destruct (Qle_bool w 0) eqn:B; [exact G|].
    apply Qle_bool_iff in W. congruence. }
  rewrite D in E1.
  assert (bc_use_placeholder_weight c = false) as NF.
  { destruct (bc_use_placeholder_weight c) eqn:F; [|reflexivity].
    specialize (Flag eq_refl). rewrite Forall_forall in Flag.
    assert (bp_isPlaceholder listed = true) as P
      by (apply Flag, list_elem_of_In, in_app_iff; right; left; reflexivity).
    congruence. }
  cbn [position_of_row targetAllocation investment_type].
  unfold target_weight_of_row. cbv zeta.
  rewrite PN, Ec, <- CN, E1, E2, NF. cbn [default from_option id andb].
  destruct (Qeq_bool default_weight 0) eqn:Z; [|reflexivity].
  destruct (has_default_weight (row_investment_type row)) eqn:H;
    [reflexivity|].
  rewrite (default_weight_without_type _ _ H).
  apply Qeq_bool_iff, Z.
Qed.

(** The constrained allocation returns the portfolios of the map in
    its order, with their names and current values. *)
Lemma constrained_allocation_keeps_current_values
      (portfolio_map : list (string * pdata))
      (portfolio_builder_data : gmap string builder_data)
      (target_allocations : list target_portfolio)
      (total_current_value : Q) (r : option rules) :
  Forall2 (fun kv portfolio =>
             pe_name portfolio = pd_name (snd kv)
             /\ pe_currentValue portfolio = pd_currentValue (snd kv))
          portfolio_map
          (calculate_allocation_targets_with_type_constraints portfolio_map
             portfolio_builder_data target_allocations total_current_value r).
Proof.
  unfold calculate_allocation_targets_with_type_constraints,
    calculate_allocation_targets.
  rewrite map_map. induction portfolio_map as [|[pid pd] l IH];
    [constructor|].
  cbn [map]. constructor; [|exact IH].
  cbn [snd]. unfold constrain_portfolio. cbv zeta.
  destruct (Qeq_bool _ 0); [split; reflexivity|].
  destruct (valid_positions_of _); split; reflexivity.
Qed.

Lemma current_values_sum (portfolio_map : list (string * pdata))
      (portfolios : list portfolio_entry) :
  Forall2 (fun kv portfolio =>
             pe_name portfolio = pd_name (snd kv)
             /\ pe_currentValue portfolio = pd_currentValue (snd kv))
          portfolio_map portfolios ->
  Qsum (map pe_currentValue portfolios)
  == Qsum (map (fun kv => pd_currentValue (snd kv)) portfolio_map).
Proof.
  induction 1 as [|kv p l l' [_ E] _ IH]; [reflexivity|].
  cbn [map]. rewrite !Qsum_cons, E, IH. reflexivity.
Qed.

(** X30 (the simulator keeps the current values).  The simulator route
    returns one portfolio for each entry of the map, in its order, with
    the name and the current value of that entry, and the current values
    of the returned portfolios add up to the value of all the rows that
    name a company. *)
Theorem simulator_keeps_current_values
        (portfolio_data : list (row Columns))
        (target_allocations : list builder_portfolio) (r : option rules) :
  let portfolios :=
    simulator_portfolio_targets calculate_item_value portfolio_data
                                target_allocations r in
  Forall2 (fun kv portfolio =>
             pe_name portfolio = pd_name (snd kv)
             /\ pe_currentValue portfolio = pd_currentValue (snd kv))
          (fst (get_portfolio_positions calculate_item_value portfolio_data
                                        target_allocations r))
          portfolios
  /\ Qsum (map pe_currentValue portfolios)
     == Qsum (map calculate_item_value
                  (List.filter has_company portfolio_data)).
Proof.
  cbv zeta. unfold simulator_portfolio_targets, generate_rebalancing_plan.
  pose proof (total_current_value_sum calculate_item_value portfolio_data
                target_allocations r) as Total.
  destruct (get_portfolio_positions calculate_item_value portfolio_data
              target_allocations r) as [portfolio_map pbd].
  cbn [fst] in *.
  split; [apply constrained_allocation_keeps_current_values|].
  rewrite <- Total. apply current_values_sum.
  apply constrained_allocation_keeps_current_values.
Qed.

End AggregatorWeights.

(** The aggregator on the rows of three portfolios, "Growth" being
    configured with Acme at 7% and Globex without weight: the positions
    are grouped by portfolio and sector, Globex goes to "Uncategorized",
    the portfolio without holdings is kept, and Initech, of an unknown
    type in a portfolio without configuration, gets no weight. *)
Example holdings_evaluation :
  fst (get_portfolio_positions value_of_row holdings_rows
                               listed_configuration None)
  = [ ("1"%string, growth_entry 7 5);
      ("2"%string, income_entry);
      ("3"%string, PData "Empty" [] 0) ].
Proof. vm_compute. reflexivity. Qed.

Lemma placeholder_weight_goes_to_every_position_witness :
  In ("1"%string, growth_entry 25 25)
     (fst (get_portfolio_positions value_of_row holdings_rows
                                   placeholder_configuration None))
  /\ targetAllocation (acme_at 25) = 25.
Proof.
  assert (In ("1"%string, growth_entry 25 25)
             (fst (get_portfolio_positions value_of_row holdings_rows
                                           placeholder_configuration None)))
    as Hin by (vm_compute; left; reflexivity).
  split; [exact Hin|].
  apply (placeholder_weight_goes_to_every_position value_of_row holdings_rows
           [] []
           (BuilderPortfolio (Some "Growth") (Some 2%Z) (Some 4%Z) (Some 60)
              (Some [ BuilderPosition true None (Some 25) ]))
           None "Growth" (BuilderPosition true None (Some 25)) [] 25
           "1" (growth_entry 25 25) "Tech" (SectorData [acme_at 25] 1000)
           (acme_at 25)).
  - reflexivity.
  - discriminate.
  - constructor.
  - reflexivity.
  - repeat constructor.
  - reflexivity.
  - intros E. vm_compute in E. discriminate E.
  - apply (bool_decide_unpack _). vm_compute. exact I.
  - exact Hin.
  - left. reflexivity.
  - left. reflexivity.
Defined.

Lemma unconfigured_positions_get_type_defaults_witness :
  In ("1"%string, growth_entry 2 5)
     (fst (get_portfolio_positions value_of_row holdings_rows [] None))
  /\ targetAllocation (acme_at 2) = 2.
Proof.
  assert (In ("1"%string, growth_entry 2 5)
             (fst (get_portfolio_positions value_of_row holdings_rows []
                                           None)))
    as Hin by (vm_compute; left; reflexivity).
  split; [exact Hin|].
  apply (unconfigured_positions_get_type_defaults value_of_row holdings_rows
           [] None "Growth" "1" (growth_entry 2 5) "Tech"
           (SectorData [acme_at 2] 1000) (acme_at 2)).
  - constructor.
  - apply (bool_decide_unpack _). vm_compute. exact I.
  - exact Hin.
  - left. reflexivity.
  - left. reflexivity.
Defined.

Lemma explicit_weight_wins_witness :
  In ("1"%string, growth_entry 7 5)
     (fst (get_portfolio_positions value_of_row holdings_rows
                                   listed_configuration None))
  /\ targetAllocation (acme_at 7) = 7.
Proof.
  assert (In ("1"%string, growth_entry 7 5)
             (fst (get_portfolio_positions value_of_row holdings_rows
                                           listed_configuration None)))
    as Hin by (vm_compute; left; reflexivity).
  split; [exact Hin|].
  apply (explicit_weight_wins value_of_row holdings_rows [] []
           (BuilderPortfolio (Some "Growth") (Some 2%Z) None (Some 60)
              (Some [ BuilderPosition false (Some "Acme") (Some 7);
                      BuilderPosition false (Some "Globex") None;
                      BuilderPosition true None (Some 10) ]))
           None "Growth" "Acme" []
           [ BuilderPosition false (Some "Globex") None;
             BuilderPosition true None (Some 10) ]
           (BuilderPosition false (Some "Acme") (Some 7)) 7
           "1" (growth_entry 7 5) "Tech" (SectorData [acme_at 7] 1000)
           (acme_at 7)).
  - reflexivity.
  - discriminate.
  - constructor.
  - reflexivity.
  - reflexivity.
  - reflexivity.
  - reflexivity.
  - reflexivity.
  - constructor; [right; discriminate|].
    constructor; [left; reflexivity|constructor].
  - apply (bool_decide_unpack _). vm_compute. exact I.
  - exact Hin.
  - left. reflexivity.
  - left. reflexivity.
  - reflexivity.
Defined.

Lemma position_without_weight_gets_default_of_last_row_witness :
  In ("1"%string, growth_entry 7 5)
     (fst (get_portfolio_positions value_of_row holdings_rows
                                   listed_configuration None))
  /\ targetAllocation (globex_at 5) == 5.
Proof.
  assert (In ("1"%string, growth_entry 7 5)
             (fst (get_portfolio_positions value_of_row holdings_rows
                                           listed_configuration None)))
    as Hin by (vm_compute; left; reflexivity).
  split; [exact Hin|].
  apply (position_without_weight_gets_default_of_last_row value_of_row
           [ Row "1" "Growth" (Some "Acme") (Some "Tech") (Some "ACME")
                 (Some "Stock") 1000 ]
           [ Row "2" "Income" (Some "Initech") (Some "Tech") (Some "INIT")
                 (Some "Bond") 300;
             Row "3" "Empty" None None None None 0 ]
           (Row "1" "Growth" (Some "Globex") None (Some "GLBX") (Some "ETF")
                500)
           [] []
           (BuilderPortfolio (Some "Growth") (Some 2%Z) None (Some 60)
              (Some [ BuilderPosition false (Some "Acme") (Some 7);
                      BuilderPosition false (Some "Globex") None;
                      BuilderPosition true None (Some 10) ]))
           None "Growth" "Globex"
           [ BuilderPosition false (Some "Acme") (Some 7) ]
           [ BuilderPosition true None (Some 10) ]
           (BuilderPosition false (Some "Globex") None)
           "1" (growth_entry 7 5) "Uncategorized"
           (SectorData [globex_at 5] 500) (globex_at 5)).
  - reflexivity.
  - repeat constructor; discriminate.
  - reflexivity.
  - discriminate.
  - constructor.
  - reflexivity.
  - reflexivity.
  - reflexivity.
  - vm_compute. discriminate.
  - constructor; [left; reflexivity|constructor].
  - apply (bool_decide_unpack _). vm_compute. exact I.
  - exact Hin.
  - right. left. reflexivity.
  - left. reflexivity.
  - reflexivity.
Defined.
